(** * Workflow execution engine: a shallow embedding of
      [src/services/workflow_engine.py] and the properties of its
      specification.

    The development follows the source file from the leaves upwards:
    JSON values and Python dictionaries, the two regular expressions the
    engine uses, the template resolver, the condition evaluator, the output
    mapping, then the persistence layer, the step executors and the
    orchestrator.

    What the embedding takes from outside the engine:
    - texts are sequences of code points below 256, and a JSON float is
      the exact decimal its text denotes;
    - the SQLAlchemy session is a store that never fails: [add] appends a
      row, attribute assignments update it, [commit] copies the session to
      the database;
    - the agent runner, the tool runner, the HTTP client, the clock, the
      text of generated UUIDs and Python's [repr] are capabilities handed
      to the engine;
    - the tasks of a parallel group are run one after the other in
      declaration order, which is one schedule of the event loop; their
      results are listed in that order whatever the schedule; tasks that a
      step cancels or never awaits are not followed past that point;
    - the depth of recursion the interpreter allows is the [fuel] of the
      two executors that retry by calling themselves. *)

From Stdlib Require Import List String Ascii ZArith QArith Lia Bool Arith.
From Stdlib Require Import DecimalString Permutation Sorted.
Import ListNotations.

Set Warnings "-register-all".

Local Close Scope Q_scope.
Local Open Scope string_scope.
Local Open Scope list_scope.
Local Open Scope nat_scope.

(* ================================================================== *)
(** ** JSON values as Python sees them *)
(* ================================================================== *)

(** A step definition, a context and every step output are JSON documents
    held in Python [dict]s.  A [dict] keeps its keys in insertion order, so
    it is an association list here; [VFloat] carries the exact decimal the
    JSON text denotes. *)
Inductive value : Type :=
| VNone
| VBool (b : bool)
| VInt (z : Z)
| VFloat (q : Q)
| VStr (s : string)
| VList (l : list value)
| VDict (d : list (string * value)).

Definition dict := list (string * value).

(** [d.get(k)] with an explicit absent case. *)
Fixpoint dict_find (k : string) (d : dict) : option value :=
  match d with
  | [] => None
  | (k', v) :: d' => if String.eqb k k' then Some v else dict_find k d'
  end.

(** [d.get(k)]: Python answers [None] for an absent key. *)
Definition dict_get (d : dict) (k : string) : value :=
  match dict_find k d with
  | Some v => v
  | None => VNone
  end.

(** [d.get(k, default)]. *)
Definition dict_get_default (d : dict) (k : string) (default : value) : value :=
  match dict_find k d with
  | Some v => v
  | None => default
  end.

(** [k in d]. *)
Definition dict_mem (k : string) (d : dict) : bool :=
  match dict_find k d with
  | Some _ => true
  | None => false
  end.

(** [d[k] = v]: an existing key keeps its position, a new key goes last. *)
Fixpoint dict_set (k : string) (v : value) (d : dict) : dict :=
  match d with
  | [] => [(k, v)]
  | (k', v') :: d' =>
      if String.eqb k k' then (k, v) :: d' else (k', v') :: dict_set k v d'
  end.

(** Python truthiness, as used by [if branch_step:] and [context or {}]. *)
Definition truthy (v : value) : bool :=
  match v with
  | VNone => false
  | VBool b => b
  | VInt z => negb (Z.eqb z 0)
  | VFloat q => negb (Qeq_bool q 0%Q)
  | VStr s => negb (String.eqb s "")
  | VList l => match l with [] => false | _ => true end
  | VDict d => match d with [] => false | _ => true end
  end.

(* ================================================================== *)
(** ** Strings *)
(* ================================================================== *)

Definition chars (s : string) : list ascii := list_ascii_of_string s.
Definition text (l : list ascii) : string := string_of_list_ascii l.

(** [str.isspace] on one character, which is also what [\s] means in a
    [str] pattern: the characters are read as code points below 256. *)
Definition is_space (c : ascii) : bool :=
  let n := nat_of_ascii c in
  ((9 <=? n) && (n <=? 13)) || ((28 <=? n) && (n <=? 32))
  || (n =? 133) || (n =? 160).

Fixpoint take_while {A} (p : A -> bool) (l : list A) : list A :=
  match l with
  | [] => []
  | x :: l' => if p x then x :: take_while p l' else []
  end.

Fixpoint drop_while {A} (p : A -> bool) (l : list A) : list A :=
  match l with
  | [] => []
  | x :: l' => if p x then drop_while p l' else l
  end.

(** [s.strip()]. *)
Definition strip_chars (l : list ascii) : list ascii :=
  rev (drop_while is_space (rev (drop_while is_space l))).

Definition strip (s : string) : string := text (strip_chars (chars s)).

(** [s.split(sep)] for a one-character separator: always at least one
    field, empty fields kept. *)
Fixpoint split_chars (sep : ascii) (l : list ascii) : list (list ascii) :=
  match l with
  | [] => [[]]
  | c :: l' =>
      if Ascii.eqb c sep then [] :: split_chars sep l'
      else match split_chars sep l' with
           | [] => [[c]]
           | field :: fields => (c :: field) :: fields
           end
  end.

Definition split (sep : ascii) (s : string) : list string :=
  map text (split_chars sep (chars s)).

(** [s.lower()] on the letters A to Z. *)
Definition lower_char (c : ascii) : ascii :=
  let n := nat_of_ascii c in
  if (65 <=? n) && (n <=? 90) then ascii_of_nat (n + 32) else c.

Definition lower (s : string) : string := text (map lower_char (chars s)).

(** The double quote, and a text between double quotes. *)
Definition double_quote : ascii := "034"%char.

Definition quoted (s : string) : string :=
  String double_quote (s ++ String double_quote EmptyString).

(** [s.startswith(p)]. *)
Definition startswith (p s : string) : bool := String.prefix p s.

(** [s.endswith(c)] for one character. *)
Definition endswith_char (c : ascii) (s : string) : bool :=
  match rev (chars s) with
  | x :: _ => Ascii.eqb x c
  | [] => false
  end.

(* ================================================================== *)
(** ** The regular-expression fragment of the engine *)
(* ================================================================== *)

(** Both patterns of the source, [\{([^}]+)\}] and
    [\$\.(\S+)\s*([><=!]+)\s*(.+)], are sequences of literal characters and
    of greedy repetitions of a character class, some of them capturing.
    [re_match] is Python's backtracking matcher on that fragment, anchored
    at the start of the text: a repetition first takes the longest run and
    gives characters back one at a time while the rest of the pattern
    fails. *)
Inductive atom : Type :=
| AChar (c : ascii)
| ARep (cls : ascii -> bool) (lo : nat) (capture : bool).

Fixpoint try_down {A} (f : nat -> option A) (lo k : nat) : option A :=
  if k <? lo then None
  else match f k with
       | Some r => Some r
       | None => match k with
                 | O => None
                 | S k' => try_down f lo k'
                 end
       end.

(** The result is the list of captured groups and the unread text. *)
Fixpoint re_match (p : list atom) (s : list ascii)
  : option (list (list ascii) * list ascii) :=
  match p with
  | [] => Some ([], s)
  | AChar c :: p' =>
      match s with
      | x :: s' => if Ascii.eqb x c then re_match p' s' else None
      | [] => None
      end
  | ARep cls lo capture :: p' =>
      try_down
        (fun k =>
           match re_match p' (skipn k s) with
           | Some (groups, rest) =>
               Some (if capture then firstn k s :: groups else groups, rest)
           | None => None
           end)
        lo (List.length (take_while cls s))
  end.

(** [re.sub(p, repl, s)] for a pattern that never matches the empty text:
    the leftmost match is replaced and the scan resumes after it.  [skip]
    counts the characters of the current match still to be passed over. *)
Fixpoint re_sub_from (p : list atom) (repl : list (list ascii) -> list ascii)
  (s : list ascii) (skip : nat) : list ascii :=
  match s with
  | [] => []
  | c :: s' =>
      match skip with
      | S k => re_sub_from p repl s' k
      | O =>
          match re_match p s with
          | Some (groups, rest) =>
              repl groups ++ re_sub_from p repl s' (List.length s - List.length rest - 1)
          | None => c :: re_sub_from p repl s' 0
          end
      end
  end.

Definition re_sub (p : list atom) (repl : list (list ascii) -> list ascii)
  (s : list ascii) : list ascii :=
  re_sub_from p repl s 0.

Definition not_char (c x : ascii) : bool := negb (Ascii.eqb x c).
Definition non_space (c : ascii) : bool := negb (is_space c).
Definition op_char (c : ascii) : bool :=
  Ascii.eqb c ">" || Ascii.eqb c "<" || Ascii.eqb c "=" || Ascii.eqb c "!".
(** [.] without DOTALL: anything but a line feed. *)
Definition dot (c : ascii) : bool := negb (Ascii.eqb c "010").

(** [r"\{([^}]+)\}"] *)
Definition template_pattern : list atom :=
  [AChar "{"; ARep (not_char "}") 1 true; AChar "}"].

(** [r"\$\.(\S+)\s*([><=!]+)\s*(.+)"] *)
Definition condition_pattern : list atom :=
  [AChar "$"; AChar "."; ARep non_space 1 true; ARep is_space 0 false;
   ARep op_char 1 true; ARep is_space 0 false; ARep dot 1 true].

(* ================================================================== *)
(** ** Exceptions and results *)
(* ================================================================== *)

(** The Python exceptions the engine can meet.  [CapabilityError] is
    whatever an external collaborator (agent runner, tool runner, HTTP
    client) raised; [ParallelError] is
    [Exception(f"Parallel execution failed: {errors}")]. *)
Inductive exn : Type :=
| ValueError (msg : string)
| TypeError (msg : string)
| KeyError (key : string)
| AttributeError (msg : string)
| UnboundLocalError (name : string)
| RecursionError
| CapabilityError (msg : string)
| ParallelError (errors : list exn).

Inductive result (A : Type) : Type :=
| Ok (a : A)
| Raise (e : exn).
Arguments Ok {A} a.
Arguments Raise {A} e.

Definition is_ok {A} (r : result A) : bool :=
  match r with Ok _ => true | Raise _ => false end.

(* ================================================================== *)
(** ** Numbers and comparisons *)
(* ================================================================== *)

Definition is_digit (c : ascii) : bool :=
  let n := nat_of_ascii c in (48 <=? n) && (n <=? 57).

Definition digits_value (l : list ascii) : Z :=
  fold_left (fun acc c => (10 * acc + Z.of_nat (nat_of_ascii c - 48))%Z) l 0%Z.

(** [m * 10^k] as an exact rational. *)
Definition scale10 (m k : Z) : Q :=
  if (0 <=? k)%Z then Qmake (m * 10 ^ k) 1
  else Qmake m (Z.to_pos (10 ^ (- k))).

(** The exponent part of a float literal: nothing, or [e], an optional sign
    and at least one digit. *)
Definition parse_exponent (l : list ascii) : option Z :=
  match l with
  | [] => Some 0%Z
  | c :: l' =>
      if Ascii.eqb c "e" || Ascii.eqb c "E" then
        let '(neg, ds) :=
          match l' with
          | s :: r =>
              if Ascii.eqb s "-" then (true, r)
              else if Ascii.eqb s "+" then (false, r) else (false, l')
          | [] => (false, l')
          end in
        match ds with
        | [] => None
        | _ =>
            if forallb is_digit ds
            then Some (if neg then (- digits_value ds)%Z else digits_value ds)
            else None
        end
      else None
  end.

(** [float(s)] on decimal literals: sign, digits, fraction, exponent.  The
    spellings [inf], [nan] and digit groups with underscores denote no
    decimal and are left outside the embedding; [None] is [ValueError]. *)
Definition parse_float (s : string) : option Q :=
  let l := chars s in
  let '(neg, l1) :=
    match l with
    | c :: r =>
        if Ascii.eqb c "-" then (true, r)
        else if Ascii.eqb c "+" then (false, r) else (false, l)
    | [] => (false, l)
    end in
  let ip := take_while is_digit l1 in
  let l2 := drop_while is_digit l1 in
  let '(fp, l3) :=
    match l2 with
    | c :: r =>
        if Ascii.eqb c "."
        then (take_while is_digit r, drop_while is_digit r)
        else ([], l2)
    | [] => ([], l2)
    end in
  if (List.length ip + List.length fp =? 0)%nat then None
  else match parse_exponent l3 with
       | None => None
       | Some e =>
           let m := digits_value (ip ++ fp) in
           Some (scale10 (if neg then (- m)%Z else m)
                         (e - Z.of_nat (List.length fp)))
       end.

(** The numeric reading of a value: [bool] is a subclass of [int]. *)
Definition as_number (v : value) : option Q :=
  match v with
  | VBool b => Some (if b then 1%Q else 0%Q)
  | VInt z => Some (inject_Z z)
  | VFloat q => Some q
  | _ => None
  end.

(** [a == b]. *)
Fixpoint py_eq (a b : value) : bool :=
  match as_number a, as_number b with
  | Some x, Some y => Qeq_bool x y
  | _, _ =>
      match a, b with
      | VNone, VNone => true
      | VStr s, VStr t => String.eqb s t
      | VList l1, VList l2 =>
          (fix all2 (l1 l2 : list value) : bool :=
             match l1, l2 with
             | [], [] => true
             | x :: l1', y :: l2' => py_eq x y && all2 l1' l2'
             | _, _ => false
             end) l1 l2
      | VDict d1, VDict d2 =>
          (List.length d1 =? List.length d2)%nat
          && forallb (fun kv : string * value =>
                        let (k, v) := kv in
                        match dict_find k d2 with
                        | Some v' => py_eq v v'
                        | None => false
                        end) d1
      | _, _ => false
      end
  end.

(** [a < b] where it is defined between a context value and a literal of a
    condition (never a list): numbers with numbers, strings with strings;
    [None] is Python's [TypeError]. *)
Definition py_lt (a b : value) : option bool :=
  match as_number a, as_number b with
  | Some x, Some y => Some (negb (Qle_bool y x))
  | _, _ =>
      match a, b with
      | VStr s, VStr t => Some (String.ltb s t)
      | _, _ => None
      end
  end.

(** [a <= b], under the same reading. *)
Definition py_le (a b : value) : option bool :=
  match as_number a, as_number b with
  | Some x, Some y => Some (Qle_bool x y)
  | _, _ =>
      match a, b with
      | VStr s, VStr t => Some (String.leb s t)
      | _, _ => None
      end
  end.

Definition ordering (r : option bool) : result bool :=
  match r with
  | Some b => Ok b
  | None => Raise (TypeError "unorderable types")
  end.

(* ================================================================== *)
(** ** Template resolver *)
(* ================================================================== *)

(** [str(z)] for an [int]. *)
Definition str_int (z : Z) : string :=
  NilZero.string_of_int (Z.to_int z).

Section Resolver.

(** Python's [repr] of a float, a list or a dict, which [str] falls back
    on; a built-in of the language, taken as given. *)
Variable py_repr : value -> string.

(** [str(v)]. *)
Definition py_str (v : value) : string :=
  match v with
  | VNone => "None"
  | VBool true => "True"
  | VBool false => "False"
  | VInt z => str_int z
  | VStr s => s
  | _ => py_repr v
  end.

(** The loop of [replace_var]: [None] is the early
    [return match.group(0)] taken when a part is looked up in something
    that is not a dict. *)
Fixpoint template_lookup (parts : list string) (v : value) : option value :=
  match parts with
  | [] => Some v
  | part :: parts' =>
      match v with
      | VDict d => template_lookup parts' (dict_get d part)
      | _ => None
      end
  end.

(** [replace_var(match)], on [match.group(1)]; [match.group(0)] is the
    group between its braces. *)
Definition replace_var (context : dict) (var_name : string) : string :=
  let group0 := ("{" ++ var_name ++ "}")%string in
  match template_lookup (split "." var_name) (VDict context) with
  | None => group0
  | Some VNone => group0
  | Some v => py_str v
  end.

Definition replace_groups (context : dict) (groups : list (list ascii))
  : list ascii :=
  match groups with
  | g :: _ => chars (replace_var context (text g))
  | [] => []
  end.

Definition _resolve_template_string (template : string) (context : dict)
  : string :=
  text (re_sub template_pattern (replace_groups context) (chars template)).

Fixpoint _resolve_template_vars (data : value) (context : dict) : value :=
  match data with
  | VDict d =>
      VDict (map (fun kv : string * value =>
                    let (k, v) := kv in (k, _resolve_template_vars v context))
                 d)
  | VList l => VList (map (fun item => _resolve_template_vars item context) l)
  | VStr s => VStr (_resolve_template_string s context)
  | _ => data
  end.

End Resolver.

(* ================================================================== *)
(** ** Condition evaluator *)
(* ================================================================== *)

(** The path walk shared by [_evaluate_condition] and
    [_apply_output_mapping]: a part looked up in a non-dict gives [None]. *)
Fixpoint path_lookup (parts : list string) (v : value) : value :=
  match parts with
  | [] => v
  | part :: parts' =>
      match v with
      | VDict d => path_lookup parts' (dict_get d part)
      | _ => VNone
      end
  end.

(** [s[1:-1]]. *)
Definition slice_1_m1 (s : string) : string :=
  text (removelast (tl (chars s))).

(** The conversion of the literal, with its [except ValueError] fallback to
    the raw text. *)
Definition convert_expected (expected_value_str : string) : value :=
  if String.eqb (lower expected_value_str) "true" then VBool true
  else if String.eqb (lower expected_value_str) "false" then VBool false
  else if String.eqb (lower expected_value_str) "null" then VNone
  else if startswith (String double_quote EmptyString) expected_value_str
          && endswith_char double_quote expected_value_str
  then VStr (slice_1_m1 expected_value_str)
  else match parse_float expected_value_str with
       | Some q => VFloat q
       | None => VStr expected_value_str
       end.

Definition invalid_condition (condition : string) : exn :=
  ValueError ("Invalid condition format: " ++ condition)%string.

Definition _evaluate_condition (condition : string) (context : dict)
  : result bool :=
  match re_match condition_pattern (chars (strip condition)) with
  | Some ([g1; g2; g3], _) =>
      let path := text g1 in
      let operator := text g2 in
      let expected_value_str := strip (text g3) in
      let actual_value := path_lookup (split "." path) (VDict context) in
      let expected_value := convert_expected expected_value_str in
      if String.eqb operator ">" then ordering (py_lt expected_value actual_value)
      else if String.eqb operator "<" then ordering (py_lt actual_value expected_value)
      else if String.eqb operator ">=" then ordering (py_le expected_value actual_value)
      else if String.eqb operator "<=" then ordering (py_le actual_value expected_value)
      else if String.eqb operator "==" then Ok (py_eq actual_value expected_value)
      else if String.eqb operator "!=" then Ok (negb (py_eq actual_value expected_value))
      else Raise (ValueError ("Unknown operator: " ++ operator)%string)
  | _ => Raise (invalid_condition condition)
  end.

(* ================================================================== *)
(** ** Output mapping *)
(* ================================================================== *)

(** [s[2:]]. *)
Definition slice_2 (s : string) : string := text (skipn 2 (chars s)).

(** The body of the loop of [_apply_output_mapping] for one item of the
    mapping; a path that is not a string has no [startswith]. *)
Definition map_one (data : dict) (result_ : dict) (item : string * value)
  : result dict :=
  let (output_key, path) := item in
  match path with
  | VStr p =>
      if startswith "$." p
      then Ok (dict_set output_key (path_lookup (split "." (slice_2 p)) (VDict data)) result_)
      else Ok (dict_set output_key (dict_get data p) result_)
  | _ => Raise (AttributeError "startswith")
  end.

Fixpoint map_items (data : dict) (result_ : dict) (items : list (string * value))
  : result dict :=
  match items with
  | [] => Ok result_
  | item :: items' =>
      match map_one data result_ item with
      | Ok result' => map_items data result' items'
      | Raise e => Raise e
      end
  end.

Definition _apply_output_mapping (data : dict) (mapping : value) : result dict :=
  match mapping with
  | VDict m => map_items data [] m
  | _ => Raise (AttributeError "items")
  end.

(* ================================================================== *)
(** ** Persistence: rows, session and database *)
(* ================================================================== *)

(** Row identifiers are the order of creation in their table; agent and
    server identifiers are the 32 hexadecimal digits of their UUIDs.
    Times are microseconds.  [error_message] holds [str(e)], kept here as
    the exception itself. *)
Record step_row : Type := {
  se_id : nat;
  se_workflow_execution_id : nat;
  se_step_name : value;
  se_step_type : string;
  se_agent_id : option string;
  se_input_data : value;
  se_output_data : value;
  se_status : string;
  se_error_message : option exn;
  se_retry_count : Z;
  se_started_at : Z;
  se_completed_at : option Z;
  se_duration_seconds : option Z
}.

Record task_row : Type := {
  task_id : nat;
  task_agent_id : string;
  task_workflow_execution_id : nat;
  task_instruction : value;
  task_context : value;
  task_priority : value;
  task_status : string;
  task_result : value;
  task_error_message : option exn;
  task_completed_at : option Z
}.

Record execution_row : Type := {
  ex_id : nat;
  ex_tenant_id : nat;
  ex_workflow_id : nat;
  ex_input_data : value;
  ex_context : dict;
  ex_status : string;
  ex_current_step : value;
  ex_output_data : value;
  ex_error_message : option exn;
  ex_started_at : Z;
  ex_completed_at : option Z;
  ex_duration_seconds : option Z
}.

Record workflow_row : Type := {
  wf_id : nat;
  wf_tenant_id : nat;
  wf_deleted : bool;
  wf_status : string;
  wf_steps : list value
}.

Record agent_row : Type := {
  ag_id : string;
  ag_tenant_id : nat;
  ag_deleted : bool
}.

Record tables : Type := {
  steps : list step_row;
  tasks : list task_row;
  executions : list execution_row;
  workflows : list workflow_row;
  agents : list agent_row
}.

(** The engine works on the objects of its SQLAlchemy session; [commit]
    writes them to the database.  [ticks] counts the readings of the clock
    and [calls] the calls to external capabilities. *)
Record world : Type := {
  session : tables;
  database : tables;
  ticks : nat;
  calls : nat
}.

(** [int((completed_at - started_at).total_seconds())]: truncation. *)
Definition duration (completed_at started_at : Z) : Z :=
  Z.quot (completed_at - started_at) 1000000.

Definition step_completed (output : value) (now : Z) (r : step_row) : step_row :=
  {| se_id := se_id r;
     se_workflow_execution_id := se_workflow_execution_id r;
     se_step_name := se_step_name r;
     se_step_type := se_step_type r;
     se_agent_id := se_agent_id r;
     se_input_data := se_input_data r;
     se_output_data := output;
     se_status := "completed";
     se_error_message := se_error_message r;
     se_retry_count := se_retry_count r;
     se_started_at := se_started_at r;
     se_completed_at := Some now;
     se_duration_seconds := Some (duration now (se_started_at r)) |}.

Definition step_failed (e : exn) (now : Z) (r : step_row) : step_row :=
  {| se_id := se_id r;
     se_workflow_execution_id := se_workflow_execution_id r;
     se_step_name := se_step_name r;
     se_step_type := se_step_type r;
     se_agent_id := se_agent_id r;
     se_input_data := se_input_data r;
     se_output_data := se_output_data r;
     se_status := "failed";
     se_error_message := Some e;
     se_retry_count := se_retry_count r;
     se_started_at := se_started_at r;
     se_completed_at := Some now;
     se_duration_seconds := Some (duration now (se_started_at r)) |}.

(** [step_execution.retry_count += 1]. *)
Definition step_retried (r : step_row) : step_row :=
  {| se_id := se_id r;
     se_workflow_execution_id := se_workflow_execution_id r;
     se_step_name := se_step_name r;
     se_step_type := se_step_type r;
     se_agent_id := se_agent_id r;
     se_input_data := se_input_data r;
     se_output_data := se_output_data r;
     se_status := se_status r;
     se_error_message := se_error_message r;
     se_retry_count := (se_retry_count r + 1)%Z;
     se_started_at := se_started_at r;
     se_completed_at := se_completed_at r;
     se_duration_seconds := se_duration_seconds r |}.

Definition task_completed (res : value) (now : Z) (t : task_row) : task_row :=
  {| task_id := task_id t;
     task_agent_id := task_agent_id t;
     task_workflow_execution_id := task_workflow_execution_id t;
     task_instruction := task_instruction t;
     task_context := task_context t;
     task_priority := task_priority t;
     task_status := "completed";
     task_result := res;
     task_error_message := task_error_message t;
     task_completed_at := Some now |}.

Definition task_failed (e : exn) (now : Z) (t : task_row) : task_row :=
  {| task_id := task_id t;
     task_agent_id := task_agent_id t;
     task_workflow_execution_id := task_workflow_execution_id t;
     task_instruction := task_instruction t;
     task_context := task_context t;
     task_priority := task_priority t;
     task_status := "failed";
     task_result := task_result t;
     task_error_message := Some e;
     task_completed_at := Some now |}.

Definition execution_current_step (name : value) (x : execution_row)
  : execution_row :=
  {| ex_id := ex_id x;
     ex_tenant_id := ex_tenant_id x;
     ex_workflow_id := ex_workflow_id x;
     ex_input_data := ex_input_data x;
     ex_context := ex_context x;
     ex_status := ex_status x;
     ex_current_step := name;
     ex_output_data := ex_output_data x;
     ex_error_message := ex_error_message x;
     ex_started_at := ex_started_at x;
     ex_completed_at := ex_completed_at x;
     ex_duration_seconds := ex_duration_seconds x |}.

Definition execution_completed (output : dict) (now : Z) (x : execution_row)
  : execution_row :=
  {| ex_id := ex_id x;
     ex_tenant_id := ex_tenant_id x;
     ex_workflow_id := ex_workflow_id x;
     ex_input_data := ex_input_data x;
     ex_context := ex_context x;
     ex_status := "completed";
     ex_current_step := ex_current_step x;
     ex_output_data := VDict output;
     ex_error_message := ex_error_message x;
     ex_started_at := ex_started_at x;
     ex_completed_at := Some now;
     ex_duration_seconds := Some (duration now (ex_started_at x)) |}.

Definition execution_failed (e : exn) (now : Z) (x : execution_row)
  : execution_row :=
  {| ex_id := ex_id x;
     ex_tenant_id := ex_tenant_id x;
     ex_workflow_id := ex_workflow_id x;
     ex_input_data := ex_input_data x;
     ex_context := ex_context x;
     ex_status := "failed";
     ex_current_step := ex_current_step x;
     ex_output_data := ex_output_data x;
     ex_error_message := Some e;
     ex_started_at := ex_started_at x;
     ex_completed_at := Some now;
     ex_duration_seconds := Some (duration now (ex_started_at x)) |}.

Definition execution_cancelled (now : Z) (x : execution_row) : execution_row :=
  {| ex_id := ex_id x;
     ex_tenant_id := ex_tenant_id x;
     ex_workflow_id := ex_workflow_id x;
     ex_input_data := ex_input_data x;
     ex_context := ex_context x;
     ex_status := "cancelled";
     ex_current_step := ex_current_step x;
     ex_output_data := ex_output_data x;
     ex_error_message := ex_error_message x;
     ex_started_at := ex_started_at x;
     ex_completed_at := Some now;
     ex_duration_seconds := Some (duration now (ex_started_at x)) |}.

Definition with_steps (f : list step_row -> list step_row) (t : tables) : tables :=
  {| steps := f (steps t); tasks := tasks t; executions := executions t;
     workflows := workflows t; agents := agents t |}.

Definition with_tasks (f : list task_row -> list task_row) (t : tables) : tables :=
  {| steps := steps t; tasks := f (tasks t); executions := executions t;
     workflows := workflows t; agents := agents t |}.

Definition with_executions (f : list execution_row -> list execution_row)
  (t : tables) : tables :=
  {| steps := steps t; tasks := tasks t; executions := f (executions t);
     workflows := workflows t; agents := agents t |}.

Definition with_session (f : tables -> tables) (w : world) : world :=
  {| session := f (session w); database := database w;
     ticks := ticks w; calls := calls w |}.

(* ================================================================== *)
(** ** The engine's effects *)
(* ================================================================== *)

(** What the engine takes from outside: the language's [repr], the clock,
    the text of generated UUIDs, the three runners, and the scheduler's
    answer to [asyncio.wait].  Every runner is told how many capability
    calls came before, so that it may answer differently over time. *)
Record capabilities : Type := {
  py_repr : value -> string;
  clock : nat -> Z;
  uuid_text : nat -> string;
  execute_agent : nat -> string -> value -> value -> result value;
  execute_tool : nat -> string -> value -> value -> result value;
  http_request : nat -> value -> string -> value -> value -> result value;
  wait_done : option Z -> nat -> list nat
}.

(** A computation reads and writes the world and may raise. *)
Definition M (A : Type) : Type := world -> result A * world.

Definition ret {A} (a : A) : M A := fun w => (Ok a, w).

Definition raise {A} (e : exn) : M A := fun w => (Raise e, w).

Definition bind {A B} (m : M A) (k : A -> M B) : M B :=
  fun w =>
    match m w with
    | (Ok a, w') => k a w'
    | (Raise e, w') => (Raise e, w')
    end.

Definition lift {A} (r : result A) : M A := fun w => (r, w).

(** The body of a [try]: its exception, if any, is handed to the caller as
    a value. *)
Definition attempt {A} (m : M A) : M (result A) :=
  fun w => let (r, w') := m w in (Ok r, w').

Declare Scope engine_scope.
Delimit Scope engine_scope with engine.
Notation "x <- c ;; k" := (bind c (fun x => k))
  (at level 61, c at next level, right associativity) : engine_scope.
Notation "c ;;; k" := (bind c (fun _ => k))
  (at level 61, right associativity) : engine_scope.

Definition commit : M unit :=
  fun w =>
    (Ok tt, {| session := session w; database := session w;
               ticks := ticks w; calls := calls w |}).

Definition update_step (id : nat) (f : step_row -> step_row) : M unit :=
  fun w =>
    (Ok tt,
     with_session
       (with_steps (map (fun r => if se_id r =? id then f r else r))) w).

Definition update_task (id : nat) (f : task_row -> task_row) : M unit :=
  fun w =>
    (Ok tt,
     with_session
       (with_tasks (map (fun t => if task_id t =? id then f t else t))) w).

Definition update_execution (id : nat) (f : execution_row -> execution_row)
  : M unit :=
  fun w =>
    (Ok tt,
     with_session
       (with_executions (map (fun x => if ex_id x =? id then f x else x))) w).

Definition find_step (id : nat) (t : tables) : option step_row :=
  find (fun r => se_id r =? id) (steps t).

Definition find_execution (tenant_id id : nat) (t : tables)
  : option execution_row :=
  find (fun x => (ex_id x =? id) && (ex_tenant_id x =? tenant_id))
       (executions t).

Definition find_workflow (tenant_id id : nat) (t : tables) : option workflow_row :=
  find (fun f => (wf_id f =? id) && (wf_tenant_id f =? tenant_id)
                 && negb (wf_deleted f))
       (workflows t).

Definition find_agent (tenant_id : nat) (id : string) (t : tables)
  : option agent_row :=
  find (fun a => String.eqb (ag_id a) id && (ag_tenant_id a =? tenant_id)
                 && negb (ag_deleted a))
       (agents t).

(** [self.db.add(step_execution)] for a fresh [WorkflowStepExecution]:
    [retry_count] takes its column default, 0. *)
Definition add_step (execution_id : nat) (name : value) (type : string)
  (agent_id : option string) (input : value) (started_at : Z) : M nat :=
  fun w =>
    let id := List.length (steps (session w)) in
    (Ok id,
     with_session
       (with_steps (fun l => l ++ [
          {| se_id := id;
             se_workflow_execution_id := execution_id;
             se_step_name := name;
             se_step_type := type;
             se_agent_id := agent_id;
             se_input_data := input;
             se_output_data := VNone;
             se_status := "running";
             se_error_message := None;
             se_retry_count := 0%Z;
             se_started_at := started_at;
             se_completed_at := None;
             se_duration_seconds := None |}])) w).

Definition add_task (execution_id : nat) (agent_id : string)
  (instruction context priority : value) : M nat :=
  fun w =>
    let id := List.length (tasks (session w)) in
    (Ok id,
     with_session
       (with_tasks (fun l => l ++ [
          {| task_id := id;
             task_agent_id := agent_id;
             task_workflow_execution_id := execution_id;
             task_instruction := instruction;
             task_context := context;
             task_priority := priority;
             task_status := "in_progress";
             task_result := VNone;
             task_error_message := None;
             task_completed_at := None |}])) w).

Definition add_execution (tenant_id workflow_id : nat) (input_data : value)
  (context : dict) (started_at : Z) : M nat :=
  fun w =>
    let id := List.length (executions (session w)) in
    (Ok id,
     with_session
       (with_executions (fun l => l ++ [
          {| ex_id := id;
             ex_tenant_id := tenant_id;
             ex_workflow_id := workflow_id;
             ex_input_data := input_data;
             ex_context := context;
             ex_status := "running";
             ex_current_step := VStr "";
             ex_output_data := VNone;
             ex_error_message := None;
             ex_started_at := started_at;
             ex_completed_at := None;
             ex_duration_seconds := None |}])) w).

(** [step[key]]. *)
Definition subscript (step : dict) (key : string) : result value :=
  match dict_find key step with
  | Some v => Ok v
  | None => Raise (KeyError key)
  end.

Definition is_hex (c : ascii) : bool :=
  let n := nat_of_ascii c in
  is_digit c || ((65 <=? n) && (n <=? 70)) || ((97 <=? n) && (n <=? 102)).

(** [uuid.UUID(v)]: the hyphens are dropped and 32 hexadecimal digits must
    remain; the UUID is kept as those digits in lower case, which is how
    the rows of the agents table are keyed here.  (The [urn:uuid:] and
    brace spellings are not followed.) *)
Definition uuid_of (v : value) : result string :=
  match v with
  | VStr s =>
      let hex := filter (fun c => negb (Ascii.eqb c "-")) (chars s) in
      if (List.length hex =? 32) && forallb is_hex hex
      then Ok (text (map lower_char hex))
      else Raise (ValueError "badly formed hexadecimal UUID string")
  | VNone => Raise (TypeError "UUID")
  | _ => Raise (AttributeError "replace")
  end.

(** [v.get(...)] needs a dict. *)
Definition as_dict (v : value) : result dict :=
  match v with
  | VDict d => Ok d
  | _ => Raise (AttributeError "get")
  end.

(** [v == "text"] for a string constant. *)
Definition eq_str (v : value) (s : string) : bool :=
  match v with
  | VStr t => String.eqb t s
  | _ => false
  end.

(** [context[key] = v].  The dicts of the embedding are keyed by texts: a
    step name that is not a text is reported as a [TypeError], which is
    what Python does for a name that is a list or a dict. *)
Definition context_set (key v : value) (context : dict) : result dict :=
  match key with
  | VStr k => Ok (dict_set k v context)
  | _ => Raise (TypeError "context key")
  end.

(** [for item in v]. *)
Definition iterate (v : value) : result (list value) :=
  match v with
  | VList l => Ok l
  | VDict d => Ok (map (fun kv : string * value => VStr (fst kv)) d)
  | VStr s => Ok (map (fun c => VStr (String c EmptyString)) (chars s))
  | _ => Raise (TypeError "not iterable")
  end.

(** [int(s)] on an optional sign and digits. *)
Definition parse_int (s : string) : option Z :=
  let l := chars (strip s) in
  let '(neg, ds) :=
    match l with
    | c :: r =>
        if Ascii.eqb c "-" then (true, r)
        else if Ascii.eqb c "+" then (false, r) else (false, l)
    | [] => (false, l)
    end in
  match ds with
  | [] => None
  | _ => if forallb is_digit ds
         then Some (if neg then (- digits_value ds)%Z else digits_value ds)
         else None
  end.

(** The dict comprehension over [enumerate(results)]: one key per result
    that is not an exception, named after its position. *)
Fixpoint combine_results (i : nat) (results : list (result value)) : dict :=
  match results with
  | [] => []
  | Ok v :: results' =>
      (("step_" ++ str_int (Z.of_nat i))%string, v)
        :: combine_results (S i) results'
  | Raise _ :: results' => combine_results (S i) results'
  end.

Fixpoint collect_errors (results : list (result value)) : list exn :=
  match results with
  | [] => []
  | Ok _ :: results' => collect_errors results'
  | Raise e :: results' => e :: collect_errors results'
  end.

(** [[task.result() for task in done]]: the first task that raised
    raises again. *)
Fixpoint results_of_done (outcomes : list (result value)) (done : list nat)
  : result (list (result value)) :=
  match done with
  | [] => Ok []
  | i :: done' =>
      match nth_error outcomes i with
      | Some (Raise e) => Raise e
      | Some (Ok v) =>
          match results_of_done outcomes done' with
          | Ok rs => Ok (Ok v :: rs)
          | Raise e => Raise e
          end
      | None => results_of_done outcomes done'
      end
  end.

(** [{"input": input_data, **(context or {})}]. *)
Definition initial_context (input_data : value) (context : option dict) : dict :=
  fold_left (fun acc (kv : string * value) => dict_set (fst kv) (snd kv) acc)
            (match context with Some c => c | None => [] end)
            [("input", input_data)].

(* ================================================================== *)
(** ** The workflow engine *)
(* ================================================================== *)

Section WorkflowEngine.

Variable E : capabilities.
(** [self.tenant_id] *)
Variable tenant_id : nat.

Local Open Scope engine_scope.

(** [datetime.now(timezone.utc)] *)
Definition now : M Z :=
  fun w =>
    (Ok (clock E (ticks w)),
     {| session := session w; database := database w;
        ticks := S (ticks w); calls := calls w |}).

Definition call {A} (f : nat -> result A) : M A :=
  fun w =>
    (f (calls w),
     {| session := session w; database := database w;
        ticks := ticks w; calls := S (calls w) |}).

(** The block [# Create step execution] every executor starts with: the
    row is built with status [running], added to the session and
    committed. *)
Definition create_step_execution (execution : nat) (step_name : value)
  (step_type : string) (agent_id : option string) (input_data : value)
  : M nat :=
  started_at <- now ;;
  se <- add_step execution step_name step_type agent_id input_data started_at ;;
  commit ;;;
  ret se.

Definition resolve_vars (data : value) (context : dict) : value :=
  _resolve_template_vars (py_repr E) data context.

(** The retry test [step_execution.retry_count < step.get("max_retries", 0)]. *)
Definition may_retry (se : nat) (step : dict) : M bool :=
  fun w =>
    match find_step se (session w) with
    | Some r =>
        (ordering (py_lt (VInt (se_retry_count r))
                         (dict_get_default step "max_retries" (VInt 0))), w)
    | None => (Raise (KeyError "step_execution"), w)
    end.

(** The statements of the [try] block of [_execute_agent_step] that come
    before [task] is bound. *)
Definition agent_prepare (agent_id : string) (step : dict)
  (workflow_context : dict) : M (value * value) :=
  let input_data :=
    resolve_vars (dict_get_default step "input" (VDict [])) workflow_context in
  fun w =>
    match find_agent tenant_id agent_id (session w) with
    | None =>
        (Raise (ValueError ("Agent " ++ agent_id ++ " not found")%string), w)
    | Some _ =>
        match input_data with
        | VDict d =>
            (Ok (dict_get_default d "instruction" (VStr ""),
                 dict_get_default d "context" (VDict [])), w)
        | _ => (Raise (AttributeError "get"), w)
        end
    end.

(** The rest of the [try] block, from [self.db.add(task)] on. *)
Definition agent_run (se task : nat) (agent_id : string) (step : dict)
  (instruction context : value) : M value :=
  commit ;;;
  agent_response <-
    call (fun n => execute_agent E n agent_id instruction context) ;;
  t1 <- now ;;
  update_task task
    (task_completed (VDict [("response", agent_response)]) t1) ;;;
  let output_data :=
    [("response", agent_response); ("task_id", VStr (uuid_text E task))] in
  t2 <- now ;;
  update_step se (step_completed (VDict output_data) t2) ;;;
  commit ;;;
  if dict_mem "output_mapping" step
  then
    mapping <- lift (subscript step "output_mapping") ;;
    output <- lift (_apply_output_mapping output_data mapping) ;;
    ret (VDict output)
  else ret (VDict output_data).

(** [fuel] is the depth of recursion the interpreter still allows: the
    retry is a recursive call, and Python raises [RecursionError] when
    the calls nest too deep. *)
Fixpoint _execute_agent_step (fuel : nat) (execution : nat) (step : dict)
  (workflow_context : dict) {struct fuel} : M value :=
  match fuel with
  | O => raise RecursionError
  | S fuel' =>
      let step_name := dict_get_default step "name" (VStr "unnamed_step") in
      raw_id <- lift (subscript step "agent_id") ;;
      agent_id <- lift (uuid_of raw_id) ;;
      se <- create_step_execution execution step_name "agent" (Some agent_id)
              (dict_get_default step "input" (VDict [])) ;;
      prepared <- attempt (agent_prepare agent_id step workflow_context) ;;
      match prepared with
      | Raise _ =>
          (* [if task:] in the handler, with [task] never assigned *)
          raise (UnboundLocalError "task")
      | Ok (instruction, context) =>
          t_assigned <- now ;;
          t_started <- now ;;
          task <- add_task execution agent_id instruction context
                    (dict_get_default step "priority" (VInt 5)) ;;
          outcome <- attempt (agent_run se task agent_id step instruction context) ;;
          match outcome with
          | Ok output => ret output
          | Raise e =>
              t1 <- now ;;
              update_task task (task_failed e t1) ;;;
              t2 <- now ;;
              update_step se (step_failed e t2) ;;;
              commit ;;;
              again <- may_retry se step ;;
              if (again : bool) then
                update_step se step_retried ;;;
                commit ;;;
                _execute_agent_step fuel' execution step workflow_context
              else raise e
          end
      end
  end.

Fixpoint _execute_mcp_tool_step (fuel : nat) (execution : nat) (step : dict)
  (workflow_context : dict) {struct fuel} : M value :=
  match fuel with
  | O => raise RecursionError
  | S fuel' =>
      let step_name := dict_get_default step "name" (VStr "unnamed_step") in
      raw_id <- lift (subscript step "server_id") ;;
      server_id <- lift (uuid_of raw_id) ;;
      tool_name <- lift (subscript step "tool_name") ;;
      se <- create_step_execution execution step_name "mcp_tool" None
              (dict_get_default step "input" (VDict [])) ;;
      outcome <- attempt (
        let tool_input :=
          resolve_vars (dict_get_default step "input" (VDict []))
                       workflow_context in
        res <- call (fun n => execute_tool E n server_id tool_name tool_input) ;;
        t <- now ;;
        update_step se (step_completed res t) ;;;
        commit ;;;
        ret res) ;;
      match outcome with
      | Ok res => ret res
      | Raise e =>
          t <- now ;;
          update_step se (step_failed e t) ;;;
          commit ;;;
          again <- may_retry se step ;;
          if (again : bool) then
            update_step se step_retried ;;;
            commit ;;;
            _execute_mcp_tool_step fuel' execution step workflow_context
          else raise e
      end
  end.

Definition _execute_http_step (execution : nat) (step : dict)
  (workflow_context : dict) : M value :=
  let step_name := dict_get_default step "name" (VStr "unnamed_step") in
  se <- create_step_execution execution step_name "http" None (VDict step) ;;
  outcome <- attempt (
    let method := dict_get_default step "method" (VStr "GET") in
    url <- lift (match dict_get_default step "url" (VStr "") with
                 | VStr u =>
                     Ok (_resolve_template_string (py_repr E) u workflow_context)
                 | _ => Raise (TypeError "expected string")
                 end) ;;
    let headers :=
      resolve_vars (dict_get_default step "headers" (VDict [])) workflow_context in
    let body :=
      resolve_vars (dict_get_default step "body" (VDict [])) workflow_context in
    res <- call (fun n => http_request E n method url headers body) ;;
    t <- now ;;
    update_step se (step_completed res t) ;;;
    commit ;;;
    ret res) ;;
  match outcome with
  | Ok res => ret res
  | Raise e =>
      t <- now ;;
      update_step se (step_failed e t) ;;;
      commit ;;;
      raise e
  end.

(** The dispatcher used for the steps of a parallel group and for the
    branch of a conditional. *)
Definition _execute_single_step (fuel : nat) (execution : nat) (step : value)
  (workflow_context : dict) : M value :=
  d <- lift (as_dict step) ;;
  let step_type := dict_get d "type" in
  if eq_str step_type "agent"
  then _execute_agent_step fuel execution d workflow_context
  else if eq_str step_type "mcp_tool"
  then _execute_mcp_tool_step fuel execution d workflow_context
  else if eq_str step_type "http"
  then _execute_http_step execution d workflow_context
  else raise (ValueError ("Unknown step type: " ++ py_str (py_repr E) step_type)%string).

(** The tasks of a parallel group.  [asyncio.create_task] only schedules
    a task: it runs once the step awaits something.  The event loop then
    interleaves the tasks; one after the other in declaration order is the
    schedule followed here, and [asyncio.gather] lists their results in that
    order whatever the schedule.  Each task's exception is kept as its
    result. *)
Fixpoint run_tasks (fuel : nat) (execution : nat) (parallel_steps : list value)
  (workflow_context : dict) : M (list (result value)) :=
  match parallel_steps with
  | [] => ret []
  | parallel_step :: rest =>
      r <- attempt (_execute_single_step fuel execution parallel_step
                                         workflow_context) ;;
      rs <- run_tasks fuel execution rest workflow_context ;;
      ret (r :: rs)
  end.

(** What the chain of tests on [wait_for] settles, while no task has run
    yet: [asyncio.gather] on all the tasks, or [asyncio.wait] for the first
    task or for a number of them. *)
Inductive waiting : Type :=
| Gather
| FirstCompleted (count : option Z).

(** A [wait_for] that is not a text has no [startswith], and [int] refuses a
    count that is no number: both errors are raised before anything is
    awaited. *)
Definition waiting_of (wait_for : value) : result waiting :=
  if eq_str wait_for "all" then Ok Gather
  else if eq_str wait_for "any" then Ok (FirstCompleted None)
  else match wait_for with
       | VStr s =>
           if startswith "count:" s then
             match parse_int (nth 1 (split ":" s) "") with
             | Some count => Ok (FirstCompleted (Some count))
             | None => Raise (ValueError "invalid literal for int()")
             end
           else Ok Gather
       | _ => Raise (AttributeError "startswith")
       end.

(** The results the step goes on with.  Under [any] and [count:N] the
    tasks that are done when [asyncio.wait] returns are the scheduler's
    choice ([wait_done]), and [asyncio.wait] refuses an empty set of tasks;
    how far a cancelled task got is not followed, its rows are left as a
    finished run wrote them. *)
Definition await_tasks (how : waiting) (outcomes : list (result value))
  : result (list (result value)) :=
  match how with
  | Gather => Ok outcomes
  | FirstCompleted count =>
      match outcomes with
      | [] => Raise (ValueError "Set of Tasks/Futures is empty.")
      | _ => results_of_done outcomes (wait_done E count (List.length outcomes))
      end
  end.

(** When the tests on [wait_for] raise, the tasks have been created and
    none is awaited: the handler fails the row and the error goes to the
    caller.  What the event loop lets those tasks do from then on is not
    followed. *)
Definition _execute_parallel_step (fuel : nat) (execution : nat) (step : dict)
  (workflow_context : dict) : M value :=
  let step_name := dict_get_default step "name" (VStr "unnamed_step") in
  let parallel_steps := dict_get_default step "steps" (VList []) in
  let wait_for := dict_get_default step "wait_for" (VStr "all") in
  se <- create_step_execution execution step_name "parallel" None
          (VDict [("parallel_steps", parallel_steps); ("wait_for", wait_for)]) ;;
  outcome <- attempt (
    items <- lift (iterate parallel_steps) ;;
    how <- lift (waiting_of wait_for) ;;
    outcomes <- run_tasks fuel execution items workflow_context ;;
    results <- lift (await_tasks how outcomes) ;;
    let output_data := combine_results 0 results in
    let errors := collect_errors results in
    if match errors with [] => false | _ => true end && eq_str wait_for "all"
    then raise (ParallelError errors)
    else
      t <- now ;;
      update_step se (step_completed (VDict output_data) t) ;;;
      commit ;;;
      ret (VDict output_data)) ;;
  match outcome with
  | Ok res => ret res
  | Raise e =>
      t <- now ;;
      update_step se (step_failed e t) ;;;
      commit ;;;
      raise e
  end.

Definition _execute_conditional_step (fuel : nat) (execution : nat)
  (step : dict) (workflow_context : dict) : M value :=
  let step_name := dict_get_default step "name" (VStr "unnamed_step") in
  let condition := dict_get_default step "condition" (VStr "") in
  se <- create_step_execution execution step_name "conditional" None
          (VDict [("condition", condition)]) ;;
  outcome <- attempt (
    condition_result <-
      lift (match condition with
            | VStr c => _evaluate_condition c workflow_context
            | _ => Raise (AttributeError "strip")
            end) ;;
    let '(branch_step, branch_name) :=
      if (condition_result : bool)
      then (dict_get step "if_true", "true")
      else (dict_get step "if_false", "false") in
    res <-
      (if truthy branch_step
       then _execute_single_step fuel execution branch_step workflow_context
       else ret (VDict [("skipped", VBool true); ("branch", VStr branch_name)])) ;;
    let output_data :=
      VDict [("condition_result", VBool condition_result);
             ("branch_taken", VStr branch_name);
             ("result", res)] in
    t <- now ;;
    update_step se (step_completed output_data t) ;;;
    commit ;;;
    ret output_data) ;;
  match outcome with
  | Ok res => ret res
  | Raise e =>
      t <- now ;;
      update_step se (step_failed e t) ;;;
      commit ;;;
      raise e
  end.

(** [# Update current step] *)
Definition set_current_step (execution : nat) (step_name : value) : M unit :=
  update_execution execution (execution_current_step step_name) ;;;
  commit.

(** [# Execute step based on type], the chain of tests of
    [_execute_steps]. *)
Definition dispatch_step (fuel : nat) (execution : nat) (step : dict)
  (workflow_context : dict) : M value :=
  let step_type := dict_get step "type" in
  if eq_str step_type "agent"
  then _execute_agent_step fuel execution step workflow_context
  else if eq_str step_type "mcp_tool"
  then _execute_mcp_tool_step fuel execution step workflow_context
  else if eq_str step_type "parallel"
  then _execute_parallel_step fuel execution step workflow_context
  else if eq_str step_type "conditional"
  then _execute_conditional_step fuel execution step workflow_context
  else if eq_str step_type "http"
  then _execute_http_step execution step workflow_context
  else raise (ValueError ("Unknown step type: "
                            ++ py_str (py_repr E) step_type)%string).

Fixpoint _execute_steps (fuel : nat) (execution : nat) (steps_ : list value)
  (workflow_context : dict) : M dict :=
  match steps_ with
  | [] => ret workflow_context
  | step :: rest =>
      d <- lift (as_dict step) ;;
      let step_name := dict_get_default d "name" (VStr "unnamed_step") in
      set_current_step execution step_name ;;;
      res <- dispatch_step fuel execution d workflow_context ;;
      workflow_context' <- lift (context_set step_name res workflow_context) ;;
      _execute_steps fuel execution rest workflow_context'
  end.

Definition get_execution (id : nat) : M execution_row :=
  fun w =>
    match find (fun x => ex_id x =? id) (executions (session w)) with
    | Some x => (Ok x, w)
    | None => (Raise (KeyError "execution"), w)
    end.

(** [# Create workflow execution] *)
Definition start_execution (workflow_id : nat) (input_data : value)
  (context : option dict) : M nat :=
  started_at <- now ;;
  execution <- add_execution tenant_id workflow_id input_data
                 (match context with Some c => c | None => [] end)
                 started_at ;;
  commit ;;;
  ret execution.

Definition execute_workflow (fuel : nat) (workflow_id : nat)
  (input_data : value) (context : option dict) : M execution_row :=
  fun w0 =>
    match find_workflow tenant_id workflow_id (session w0) with
    | None =>
        (Raise (ValueError ("Workflow " ++ uuid_text E workflow_id
                              ++ " not found")%string), w0)
    | Some workflow =>
        if negb (String.eqb (wf_status workflow) "active")
        then (Raise (ValueError ("Workflow " ++ uuid_text E workflow_id
                                   ++ " is not active")%string), w0)
        else
          (execution <- start_execution workflow_id input_data context ;;
           outcome <- attempt (
             output_data <- _execute_steps fuel execution (wf_steps workflow)
                              (initial_context input_data context) ;;
             t <- now ;;
             update_execution execution (execution_completed output_data t)) ;;
           match outcome with
           | Ok _ =>
               (* [finally], then [return execution] *)
               commit ;;;
               get_execution execution
           | Raise e =>
               (* [except Exception as e: ... raise], then [finally] *)
               t <- now ;;
               update_execution execution (execution_failed e t) ;;;
               commit ;;;
               raise e
           end) w0
    end.

Definition cancel_workflow (execution_id : nat) : M execution_row :=
  fun w0 =>
    match find_execution tenant_id execution_id (session w0) with
    | None =>
        (Raise (ValueError ("Workflow execution " ++ uuid_text E execution_id
                              ++ " not found")%string), w0)
    | Some execution =>
        if negb (String.eqb (ex_status execution) "pending"
                 || String.eqb (ex_status execution) "running")
        then (Raise (ValueError ("Cannot cancel workflow in status: "
                                   ++ ex_status execution)%string), w0)
        else
          (t <- now ;;
           update_execution execution_id (execution_cancelled t) ;;;
           commit ;;;
           fun w =>
             match find_execution tenant_id execution_id (session w) with
             | Some x => (Ok x, w)
             | None => (Raise (KeyError "execution"), w)
             end) w0
    end.

End WorkflowEngine.

(* ================================================================== *)
(** ** The vocabulary of the specification *)
(* ================================================================== *)

(** [InvalidState]: what [cancel_workflow] raises on an execution that can
    no longer be cancelled. *)
Definition invalid_state (status : string) : exn :=
  ValueError ("Cannot cancel workflow in status: " ++ status)%string.

(** A dotted path resolves in a context when following its parts through
    nested dicts reaches a value that is present. *)
Inductive resolves_to : value -> list string -> value -> Prop :=
| resolves_here : forall v, resolves_to v [] v
| resolves_in : forall d part parts x v,
    dict_find part d = Some x ->
    resolves_to x parts v ->
    resolves_to (VDict d) (part :: parts) v.

Definition resolvable (context : dict) (path : string) : Prop :=
  exists v, resolves_to (VDict context) (split "." path) v /\ v <> VNone.

(** The texts the condition pattern accepts, said without the matcher:
    [$.], a non-empty run without spaces, spaces, a non-empty run of
    operator characters, spaces, at least one character on one line, and
    anything after it. *)
Definition condition_shape (s : list ascii) : Prop :=
  exists path ws1 op ws2 lit rest,
    s = "$"%char :: "."%char :: path ++ ws1 ++ op ++ ws2 ++ lit ++ rest
    /\ path <> [] /\ forallb non_space path = true
    /\ forallb is_space ws1 = true
    /\ op <> [] /\ forallb op_char op = true
    /\ forallb is_space ws2 = true
    /\ lit <> [] /\ forallb dot lit = true.

(** The grammar of the specification, [$.<dotted.path> <op> <literal>],
    read as a recogniser: the path runs up to the first space or operator
    character, the operator is one of the six, the literal is a boolean,
    [null], a quoted string or a number. *)
Definition spec_operator (op : string) : bool :=
  existsb (String.eqb op) [">"; "<"; ">="; "<="; "=="; "!="].

Definition spec_literal (lit : string) : bool :=
  String.eqb lit "true" || String.eqb lit "false" || String.eqb lit "null"
  || ((2 <=? String.length lit)
      && startswith (String double_quote EmptyString) lit
      && endswith_char double_quote lit)
  || match parse_float lit with Some _ => true | None => false end.

Definition spec_grammar (condition : string) : bool :=
  match chars condition with
  | d :: p :: s =>
      Ascii.eqb d "$" && Ascii.eqb p "."
      && (let is_path c := non_space c && negb (op_char c) in
          let path := take_while is_path s in
          let s1 := drop_while is_space (drop_while is_path s) in
          let op := take_while op_char s1 in
          let lit := drop_while is_space (drop_while op_char s1) in
          negb (Nat.eqb (List.length path) 0)
          && spec_operator (text op) && spec_literal (text lit))
  | _ => false
  end.

(** [matches p s groups rest]: the pattern [p] accepts a prefix of [s],
    capturing [groups] and leaving [rest], with no word on which of the
    possible splits the backtracking picks. *)
Inductive matches : list atom -> list ascii -> list (list ascii) -> list ascii -> Prop :=
| matches_end : forall s, matches [] s [] s
| matches_char : forall c p s groups rest,
    matches p s groups rest ->
    matches (AChar c :: p) (c :: s) groups rest
| matches_rep : forall cls lo capture p run s groups rest,
    forallb cls run = true ->
    lo <= List.length run ->
    matches p s groups rest ->
    matches (ARep cls lo capture :: p) (run ++ s)
            (if capture then run :: groups else groups) rest.

(** The output the specification gives a successful parallel step:
    [{step_0: output_0, ..., step_{n-1}: output_{n-1}}]. *)
Fixpoint indexed_outputs (i : nat) (outputs : list value) : dict :=
  match outputs with
  | [] => []
  | o :: outputs' =>
      (("step_" ++ str_int (Z.of_nat i))%string, o) :: indexed_outputs (S i) outputs'
  end.

(** What every computation of the engine leaves alone: rows are never
    deleted nor renamed and identifiers never change.  [extends w w'] says
    that [w'] has the executions of [w] under the same identifiers, the step
    rows of [w] under the same identifiers, names and types followed by new
    ones, and the same agents. *)
Definition step_key (r : step_row) : nat * value * string :=
  (se_id r, se_step_name r, se_step_type r).

Definition extends (w w' : world) : Prop :=
  map ex_id (executions (session w')) = map ex_id (executions (session w))
  /\ (exists new, map step_key (steps (session w'))
                  = map step_key (steps (session w)) ++ new)
  /\ agents (session w') = agents (session w).

Definition frames {A} (m : M A) : Prop := forall w, extends w (snd (m w)).

(** Step rows carry the identifiers the session gave them: each is below
    the number of rows. *)
Definition step_ids_fresh (t : tables) : Prop :=
  Forall (fun r => se_id r < List.length (steps t)) (steps t).

(** The step rows created after [w]. *)
Definition new_steps (w w' : world) : list step_row :=
  skipn (List.length (steps (session w))) (steps (session w')).

(** Field extraction for one entry of an output mapping: a path written
    [$.a.b] is followed through nested dicts ([None] where it breaks off),
    any other text is looked up as a key of the output. *)
Definition extract_field (data : dict) (path : string) : value :=
  if startswith "$." path
  then path_lookup (split "." (slice_2 path)) (VDict data)
  else dict_get data path.

(* ================================================================== *)
(** ** Sample data *)
(* ================================================================== *)

Module Sample.

(** Capabilities with a given agent runner, a tool runner that fails, an
    HTTP client that answers 200, a clock that advances one second per
    reading, and a scheduler under which every task is done. *)
Definition caps (runner : nat -> string -> value -> value -> result value)
  : capabilities :=
  {| py_repr := fun _ => "<repr>";
     clock := fun n => (Z.of_nat n * 1000000)%Z;
     uuid_text := fun n => str_int (Z.of_nat n);
     execute_agent := runner;
     execute_tool := fun _ _ _ _ => Raise (CapabilityError "tool down");
     http_request := fun _ _ _ _ _ => Ok (VDict [("status", VInt 200)]);
     wait_done := fun _ n => seq 0 n |}.

Definition failing : capabilities :=
  caps (fun _ _ _ _ => Raise (CapabilityError "boom")).

Definition answering : capabilities :=
  caps (fun _ _ _ _ => Ok (VStr "yes")).

Definition tenant : nat := 7.

(** The agent of the samples, as step definitions write its UUID and as
    the agents table keys it. *)
Definition agent_uuid : string := "00000000-0000-0000-0000-0000000000a1".
Definition agent_key : string := "000000000000000000000000000000a1".

Definition store (steps_ : list value) (xs : list execution_row) : tables :=
  {| steps := []; tasks := []; executions := xs;
     workflows := [ {| wf_id := 0; wf_tenant_id := tenant; wf_deleted := false;
                       wf_status := "active"; wf_steps := steps_ |} ];
     agents := [ {| ag_id := agent_key; ag_tenant_id := tenant;
                    ag_deleted := false |} ] |}.

Definition world_of (steps_ : list value) (xs : list execution_row) : world :=
  {| session := store steps_ xs; database := store steps_ xs;
     ticks := 0; calls := 0 |}.

Definition execution_in (status : string) : execution_row :=
  {| ex_id := 0; ex_tenant_id := tenant; ex_workflow_id := 0;
     ex_input_data := VDict [("test", VStr "data")]; ex_context := [];
     ex_status := status; ex_current_step := VStr "test_step";
     ex_output_data := VNone; ex_error_message := None;
     ex_started_at := (-2500000)%Z; ex_completed_at := None;
     ex_duration_seconds := None |}.

Definition agent_step (name : string) (max_retries : Z) : dict :=
  [("type", VStr "agent"); ("name", VStr name); ("agent_id", VStr agent_uuid);
   ("input", VDict [("instruction", VStr "{input.x}")]);
   ("max_retries", VInt max_retries)].

Definition http_step : dict :=
  [("type", VStr "http"); ("url", VStr "http://example.test/{input.x}")].

Definition nameless_agent_step : dict :=
  [("type", VStr "agent"); ("agent_id", VStr agent_uuid)].

Definition conditional_without_else : dict :=
  [("type", VStr "conditional"); ("name", VStr "check");
   ("condition", VStr "$.input.score > 0.8");
   ("if_true", VDict http_step)].

Definition nested_parallel : dict :=
  [("type", VStr "parallel"); ("name", VStr "inner");
   ("steps", VList [VDict http_step]); ("wait_for", VStr "all")].

Definition parallel_of (subs : list value) : dict :=
  [("type", VStr "parallel"); ("name", VStr "fan_out");
   ("steps", VList subs); ("wait_for", VStr "all")].

Definition low_score : dict := [("input", VDict [("score", VFloat (5 # 10))])].

End Sample.

(* ================================================================== *)
(** ** Reading an execution back *)
(* ================================================================== *)

(** [ORDER BY started_at]: rows in ascending order of their start time.
    Rows that started at the same time are left in the order of the table,
    which is one of the orders the database may answer. *)
Fixpoint insert_by_start (r : step_row) (l : list step_row) : list step_row :=
  match l with
  | [] => [r]
  | x :: l' =>
      if (se_started_at r <=? se_started_at x)%Z then r :: l
      else x :: insert_by_start r l'
  end.

Definition order_by_started_at (l : list step_row) : list step_row :=
  fold_right insert_by_start [] l.

(** The rows [get_execution_status] reports: those of the execution, by
    start time.  The query has no condition on the tenant. *)
Definition status_rows (execution_id : nat) (t : tables) : list step_row :=
  order_by_started_at
    (filter (fun r => se_workflow_execution_id r =? execution_id) (steps t)).

Definition optional_int (o : option Z) : value :=
  match o with
  | Some z => VInt z
  | None => VNone
  end.

Section ExecutionStatus.

Variable E : capabilities.
Variable tenant_id : nat.
(** [datetime.isoformat] and the text stored as [error_message]. *)
Variable isoformat : Z -> string.
Variable str_exn : exn -> string.

Definition optional_time (o : option Z) : value :=
  match o with
  | Some t => VStr (isoformat t)
  | None => VNone
  end.

Definition optional_error (o : option exn) : value :=
  match o with
  | Some e => VStr (str_exn e)
  | None => VNone
  end.

(** One entry of the ["steps"] list. *)
Definition step_summary (r : step_row) : value :=
  VDict [("step_name", se_step_name r);
         ("step_type", VStr (se_step_type r));
         ("status", VStr (se_status r));
         ("duration_seconds", optional_int (se_duration_seconds r));
         ("error_message", optional_error (se_error_message r));
         ("retry_count", VInt (se_retry_count r))].

Definition get_execution_status (execution_id : nat) : M dict :=
  fun w =>
    match find_execution tenant_id execution_id (session w) with
    | None =>
        (Raise (ValueError ("Workflow execution " ++ uuid_text E execution_id
                              ++ " not found")%string), w)
    | Some execution =>
        (Ok [("execution_id", VStr (uuid_text E (ex_id execution)));
             ("workflow_id", VStr (uuid_text E (ex_workflow_id execution)));
             ("status", VStr (ex_status execution));
             ("current_step", ex_current_step execution);
             ("started_at", VStr (isoformat (ex_started_at execution)));
             ("completed_at", optional_time (ex_completed_at execution));
             ("duration_seconds", optional_int (ex_duration_seconds execution));
             ("input_data", ex_input_data execution);
             ("output_data", ex_output_data execution);
             ("error_message", optional_error (ex_error_message execution));
             ("steps", VList (map step_summary
                                  (status_rows execution_id (session w))))],
         w)
    end.

End ExecutionStatus.

(* ================================================================== *)
(** ** Conditions in their usual layout *)
(* ================================================================== *)

(** What [_evaluate_condition] does once the three groups are known. *)
Definition apply_operator (operator : string) (actual_value expected_value : value)
  : result bool :=
  if String.eqb operator ">" then ordering (py_lt expected_value actual_value)
  else if String.eqb operator "<" then ordering (py_lt actual_value expected_value)
  else if String.eqb operator ">=" then ordering (py_le expected_value actual_value)
  else if String.eqb operator "<=" then ordering (py_le actual_value expected_value)
  else if String.eqb operator "==" then Ok (py_eq actual_value expected_value)
  else if String.eqb operator "!=" then Ok (negb (py_eq actual_value expected_value))
  else Raise (ValueError ("Unknown operator: " ++ operator)%string).

(** A condition written [$.path <op> literal]: a path without whitespace,
    whitespace, an operator run, whitespace, and a literal on one line with
    no whitespace around it. *)
Record laid_out (path ws1 op ws2 lit : list ascii) : Prop := {
  path_present : path <> [];
  path_solid : forallb non_space path = true;
  gap1_present : ws1 <> [];
  gap1_blank : forallb is_space ws1 = true;
  op_present : op <> [];
  op_solid : forallb op_char op = true;
  gap2_present : ws2 <> [];
  gap2_blank : forallb is_space ws2 = true;
  lit_present : lit <> [];
  lit_one_line : forallb dot lit = true;
  lit_trimmed : strip_chars lit = lit
}.

Definition laid_out_condition (path ws1 op ws2 lit : list ascii) : string :=
  text ("$"%char :: "."%char :: path ++ ws1 ++ op ++ ws2 ++ lit).

(* ================================================================== *)
(** ** Invariants of the engine, as predicates on computations *)
(* ================================================================== *)

(** The error [execute_workflow], [cancel_workflow] and
    [get_execution_status] raise for an identifier they do not find. *)
Definition not_found (what id : string) : exn :=
  ValueError (what ++ " " ++ id ++ " not found")%string.

(** Nothing is left to commit. *)
Definition clean (w : world) : Prop := database w = session w.

(** [relates R m]: the world [m] ends in, whether it returns or raises, is
    related by [R] to the world it started in. *)
Definition relates (R : world -> world -> Prop) {A} (m : M A) : Prop :=
  forall w, R w (snd (m w)).

(** [keeps I m]: the computation [m] preserves the invariant [I], whether
    it returns or raises. *)
Definition keeps (I : world -> Prop) {A} (m : M A) : Prop :=
  relates (fun w w' => I w -> I w') m.

(** [commits m]: whatever the state [m] starts in, it ends with everything
    committed. *)
Definition commits {A} (m : M A) : Prop := forall w, clean (snd (m w)).

(** [safe m]: [m] never raises. *)
Definition safe {A} (m : M A) : Prop := forall w, is_ok (fst (m w)) = true.

(** The step rows that were there at some earlier point are still the
    first rows, unchanged. *)
Definition rows_kept (base : list step_row) (w : world) : Prop :=
  firstn (List.length base) (steps (session w)) = base.

(** Start and completion times of step rows against the clock: no row
    started in the future, no row completed before it started or in the
    future, no negative duration. *)
Definition row_timely (now_ : Z) (r : step_row) : Prop :=
  (se_started_at r <= now_)%Z
  /\ (forall c, se_completed_at r = Some c -> (se_started_at r <= c <= now_)%Z)
  /\ (forall d, se_duration_seconds r = Some d -> (0 <= d)%Z).

Definition timely (E : capabilities) (w : world) : Prop :=
  Forall (row_timely (clock E (ticks w))) (steps (session w)).

Definition monotone (clock_ : nat -> Z) : Prop :=
  forall a b, a <= b -> (clock_ a <= clock_ b)%Z.

(** What a run on behalf of [execution] may write: step rows and tasks of
    that execution, appended; its own execution row; nothing in the tables
    of workflows and agents. *)
Definition confined (execution : nat) (w w' : world) : Prop :=
  (exists new,
      map se_workflow_execution_id (steps (session w'))
      = map se_workflow_execution_id (steps (session w)) ++ new
      /\ Forall (eq execution) new)
  /\ (exists new,
      map task_workflow_execution_id (tasks (session w'))
      = map task_workflow_execution_id (tasks (session w)) ++ new
      /\ Forall (eq execution) new)
  /\ (forall x, In x (executions (session w)) -> ex_id x <> execution ->
                In x (executions (session w')))
  /\ workflows (session w') = workflows (session w)
  /\ agents (session w') = agents (session w).

Definition confines (execution : nat) {A} (m : M A) : Prop :=
  relates (confined execution) m.

(** Execution rows carry the identifiers the session gave them. *)
Definition execution_ids_fresh (t : tables) : Prop :=
  Forall (fun x => ex_id x < List.length (executions t)) (executions t).

(* ================================================================== *)
(** ** Data under template resolution and output mapping *)
(* ================================================================== *)

(** A document with its texts blanked: what is left are the keys, the
    lengths of the lists and the leaves that are not texts. *)
Fixpoint skeleton (v : value) : value :=
  match v with
  | VStr _ => VStr ""
  | VList l => VList (map skeleton l)
  | VDict d => VDict (map (fun kv : string * value =>
                             let (k, x) := kv in (k, skeleton x)) d)
  | _ => v
  end.

(** No text of the document, at any depth, holds a closing brace. *)
Fixpoint without_closing_brace (v : value) : bool :=
  match v with
  | VStr s => forallb (not_char "}") (chars s)
  | VList l => forallb without_closing_brace l
  | VDict d => forallb (fun kv : string * value =>
                          let (_, x) := kv in without_closing_brace x) d
  | _ => true
  end.

Definition is_text (v : value) : bool :=
  match v with
  | VStr _ => true
  | _ => false
  end.

(** The entry an output mapping produces for one of its items. *)
Definition mapped_entry (data : dict) (item : string * value) : string * value :=
  (fst item,
   match snd item with
   | VStr path => extract_field data path
   | _ => VNone
   end).

(* ================================================================== *)
(** ** Steps that await what they start *)
(* ================================================================== *)

(** A parallel step awaits all its tasks when its [wait_for] leads to
    [asyncio.gather]: a text other than [any] and [count:N].  Under [any]
    and [count:N] the pending tasks are cancelled, and with a [wait_for]
    that is not a text they are never awaited; what such tasks write, and
    when, is then up to the event loop.  The other step types create no
    task. *)
Definition gathers (wait_for : value) : bool :=
  match wait_for with
  | VStr s => negb (String.eqb s "any") && negb (startswith "count:" s)
  | _ => false
  end.

Definition awaits_its_tasks (step : dict) : bool :=
  if eq_str (dict_get step "type") "parallel"
  then gathers (dict_get_default step "wait_for" (VStr "all"))
  else true.

Definition all_await_their_tasks (steps_ : list value) : bool :=
  forallb (fun step => match step with
                       | VDict d => awaits_its_tasks d
                       | _ => true
                       end) steps_.

(* ================================================================== *)
(** ** The row of a step *)
(* ================================================================== *)

(** The row every executor starts with, as [add_step] builds it. *)
Definition running_row (id execution : nat) (name : value) (type : string)
  (agent : option string) (input : value) (started_at : Z) : step_row :=
  {| se_id := id;
     se_workflow_execution_id := execution;
     se_step_name := name;
     se_step_type := type;
     se_agent_id := agent;
     se_input_data := input;
     se_output_data := VNone;
     se_status := "running";
     se_error_message := None;
     se_retry_count := 0%Z;
     se_started_at := started_at;
     se_completed_at := None;
     se_duration_seconds := None |}.

(** Capabilities like those of the samples, with an HTTP client that
    cannot connect. *)
Definition unreachable : capabilities :=
  {| py_repr := py_repr Sample.answering;
     clock := clock Sample.answering;
     uuid_text := uuid_text Sample.answering;
     execute_agent := execute_agent Sample.answering;
     execute_tool := execute_tool Sample.answering;
     http_request := fun _ _ _ _ _ => Raise (CapabilityError "connection refused");
     wait_done := wait_done Sample.answering |}.

(* ================================================================== *)
(** ** Lists, texts and dictionaries *)
(* ================================================================== *)

Lemma find_map_stable {A} (p : A -> bool) (f : A -> A) (l : list A) :
  (forall a, p (f a) = p a) ->
  find p (map f l) = option_map f (find p l).
Proof.
  intros Hp. induction l as [|a l IH]; simpl.
  - reflexivity.
  - rewrite Hp. destruct (p a); [reflexivity | exact IH].
Qed.

Lemma text_chars (s : string) : text (chars s) = s.
Proof. apply string_of_list_ascii_of_string. Qed.

Lemma chars_text (l : list ascii) : chars (text l) = l.
Proof. apply list_ascii_of_string_of_list_ascii. Qed.

Lemma chars_app (s t : string) : chars (s ++ t)%string = chars s ++ chars t.
Proof.
  induction s as [|c s IH]; simpl.
  - reflexivity.
  - unfold chars in *. simpl. now rewrite IH.
Qed.

Lemma text_app (l m : list ascii) : text (l ++ m) = (text l ++ text m)%string.
Proof.
  induction l as [|c l IH]; simpl.
  - reflexivity.
  - unfold text in *. simpl. now rewrite IH.
Qed.

Lemma take_while_app_stop {A} (p : A -> bool) (l : list A) (x : A) (r : list A) :
  forallb p l = true -> p x = false -> take_while p (l ++ x :: r) = l.
Proof.
  intros Hl Hx. induction l as [|a l IH]; simpl in *.
  - now rewrite Hx.
  - apply andb_prop in Hl as [Ha Hl]. rewrite Ha. now rewrite IH.
Qed.

Lemma take_while_all {A} (p : A -> bool) (l : list A) :
  forallb p (take_while p l) = true.
Proof.
  induction l as [|a l IH]; simpl; [reflexivity|].
  destruct (p a) eqn:Ha; simpl; [now rewrite Ha|reflexivity].
Qed.

Lemma take_while_prefix {A} (p : A -> bool) (l m : list A) :
  forallb p l = true -> List.length l <= List.length (take_while p (l ++ m)).
Proof.
  induction l as [|a l IH]; simpl; intros H.
  - lia.
  - apply andb_prop in H as [Ha Hl]. rewrite Ha. simpl. specialize (IH Hl). lia.
Qed.

Lemma take_while_length {A} (p : A -> bool) (l : list A) :
  List.length (take_while p l) <= List.length l.
Proof.
  induction l as [|a l IH]; simpl; [lia|].
  destruct (p a); simpl; lia.
Qed.

Lemma firstn_take_while {A} (p : A -> bool) (l : list A) (k : nat) :
  k <= List.length (take_while p l) -> forallb p (firstn k l) = true.
Proof.
  revert k. induction l as [|a l IH]; intros k Hk; simpl in *.
  - now rewrite firstn_nil.
  - destruct k as [|k]; [reflexivity|].
    destruct (p a) eqn:Ha; simpl in *; [|lia].
    rewrite Ha. apply IH. lia.
Qed.

Lemma dict_find_set_same (k : string) (v : value) (d : dict) :
  dict_find k (dict_set k v d) = Some v.
Proof.
  induction d as [|[k' v'] d IH]; simpl.
  - now rewrite String.eqb_refl.
  - destruct (String.eqb k k') eqn:Hk; simpl.
    + now rewrite String.eqb_refl.
    + now rewrite Hk.
Qed.

Lemma dict_find_set_other (k k' : string) (v : value) (d : dict) :
  k' <> k -> dict_find k' (dict_set k v d) = dict_find k' d.
Proof.
  intros Hne. induction d as [|[k0 v0] d IH]; simpl.
  - apply String.eqb_neq in Hne. now rewrite Hne.
  - destruct (String.eqb k k0) eqn:Hk; simpl.
    + apply String.eqb_eq in Hk. subst k0.
      apply String.eqb_neq in Hne. now rewrite Hne.
    + destruct (String.eqb k' k0); [reflexivity | exact IH].
Qed.

(* ================================================================== *)
(** ** Cancellation *)
(* ================================================================== *)

Section Cancellation.

Variable E : capabilities.
Variable tenant_id : nat.

Lemma cancelled_row_found (id : nat) (t : Z) (l : list execution_row)
  (x : execution_row) :
  find (fun x => (ex_id x =? id) && (ex_tenant_id x =? tenant_id)) l = Some x ->
  find (fun x => (ex_id x =? id) && (ex_tenant_id x =? tenant_id))
       (map (fun x => if ex_id x =? id then execution_cancelled t x else x) l)
  = Some (execution_cancelled t x).
Proof.
  intros Hf. rewrite find_map_stable.
  - rewrite Hf. simpl.
    apply find_some in Hf as [_ Hx]. apply andb_prop in Hx as [Hid _].
    now rewrite Hid.
  - intros a. destruct (ex_id a =? id) eqn:Ha; simpl; rewrite ?Ha; reflexivity.
Qed.


End Cancellation.


(* ================================================================== *)
(** ** Template resolution *)
(* ================================================================== *)

Section TemplateResolution.

Variable py_repr : value -> string.
Variable context : dict.

(** A lookup that ends on a present value followed the path. *)
Lemma template_lookup_resolves (parts : list string) (v v' : value) :
  template_lookup parts v = Some v' -> v' <> VNone -> resolves_to v parts v'.
Proof.
  revert v. induction parts as [|part parts IH]; intros v Hl Hv; simpl in Hl.
  - injection Hl as <-. constructor.
  - destruct v; try discriminate.
    unfold dict_get in Hl. destruct (dict_find part d) as [x|] eqn:Hx.
    + econstructor; eauto.
    + destruct parts; simpl in Hl; [|discriminate].
      injection Hl as <-. contradiction.
Qed.

Lemma replace_var_unresolved (var_name : string) :
  ~ resolvable context var_name ->
  replace_var py_repr context var_name = ("{" ++ var_name ++ "}")%string.
Proof.
  intros Hn. unfold replace_var.
  destruct (template_lookup (split "." var_name) (VDict context)) as [v|] eqn:Hl;
    [|reflexivity].
  destruct v; try reflexivity;
    exfalso; apply Hn; eexists; (split;
      [eapply template_lookup_resolves; [exact Hl|discriminate] | discriminate]).
Qed.

(** No placeholder starts at a character that is not an opening brace. *)
Lemma re_sub_plain_prefix (pre rest : list ascii) :
  forallb (not_char "{") pre = true ->
  re_sub_from template_pattern (replace_groups py_repr context) (pre ++ rest) 0
  = pre ++ re_sub_from template_pattern (replace_groups py_repr context) rest 0.
Proof.
  induction pre as [|c pre IH]; intros Hp; simpl in *.
  - reflexivity.
  - apply andb_prop in Hp as [Hc Hp].
    unfold not_char in Hc. destruct (Ascii.eqb c "{"); [discriminate|].
    now rewrite IH.
Qed.

Lemma re_sub_skip (l1 l2 : list ascii) :
  re_sub_from template_pattern (replace_groups py_repr context) (l1 ++ l2) (List.length l1)
  = re_sub_from template_pattern (replace_groups py_repr context) l2 0.
Proof.
  induction l1 as [|c l1 IH]; simpl.
  - destruct l2; reflexivity.
  - exact IH.
Qed.

Lemma try_down_hit {A} (f : nat -> option A) (lo k : nat) (r : A) :
  lo <= k -> f k = Some r -> try_down f lo k = Some r.
Proof.
  intros Hlo Hf. destruct k; simpl.
  - destruct lo; [|lia]. simpl. now rewrite Hf.
  - replace (S k <? lo) with false by (symmetry; apply Nat.ltb_ge; lia).
    now rewrite Hf.
Qed.

(** A brace, a non-empty run without a closing brace, a closing brace:
    the pattern matches exactly that, capturing the run. *)
Lemma template_pattern_matches (path post : list ascii) :
  path <> [] -> forallb (not_char "}") path = true ->
  re_match template_pattern ("{"%char :: path ++ "}"%char :: post)
  = Some ([path], post).
Proof.
  intros Hne Hp. simpl.
  rewrite (take_while_app_stop _ path "}"%char post Hp eq_refl).
  apply try_down_hit.
  - destruct path; [contradiction | simpl; lia].
  - rewrite skipn_app, Nat.sub_diag, skipn_all. simpl.
    rewrite firstn_app, Nat.sub_diag, firstn_all. simpl.
    now rewrite app_nil_r.
Qed.

Lemma resolve_unresolved_placeholder (pre path post : list ascii) :
  forallb (not_char "{") pre = true ->
  path <> [] -> forallb (not_char "}") path = true ->
  ~ resolvable context (text path) ->
  re_sub template_pattern (replace_groups py_repr context) (pre ++ "{"%char :: path ++ "}"%char :: post)
  = pre ++ "{"%char :: path ++ "}"%char :: re_sub template_pattern (replace_groups py_repr context) post.
Proof.
  intros Hpre Hne Hp Hn. unfold re_sub.
  rewrite re_sub_plain_prefix by exact Hpre. f_equal.
  cbn [re_sub_from].
  rewrite (template_pattern_matches path post Hne Hp).
  unfold replace_groups at 1.
  rewrite (replace_var_unresolved _ Hn).
  replace (List.length ("{"%char :: path ++ "}"%char :: post)
           - List.length post - 1)
    with (List.length (path ++ ["}"%char]))
    by (change ("{"%char :: path ++ "}"%char :: post)
          with (["{"%char] ++ path ++ ["}"%char] ++ post);
        rewrite !length_app; cbn [List.length]; lia).
  replace (path ++ "}"%char :: post) with ((path ++ ["}"%char]) ++ post)
    by (now rewrite <- app_assoc).
  rewrite re_sub_skip.
  rewrite !chars_app, chars_text. simpl.
  now rewrite <- app_assoc.
Qed.

(** C7.  Template resolution walks dicts and lists, returns every scalar
    that is not a string as it is, resolves a string as a template, and in
    a string leaves a placeholder whose path does not resolve in the
    context exactly as written, resolving what follows it; it never raises
    (it is a total function into values). *)
Theorem resolve_template_permissive :
  (forall d,
      _resolve_template_vars py_repr (VDict d) context
      = VDict (map (fun kv : string * value =>
                      (fst kv, _resolve_template_vars py_repr (snd kv) context)) d))
  /\ (forall l,
         _resolve_template_vars py_repr (VList l) context
         = VList (map (fun item => _resolve_template_vars py_repr item context) l))
  /\ (forall v,
         match v with VStr _ | VList _ | VDict _ => False | _ => True end ->
         _resolve_template_vars py_repr v context = v)
  /\ (forall pre path post : string,
         forallb (not_char "{") (chars pre) = true ->
         path <> "" -> forallb (not_char "}") (chars path) = true ->
         ~ resolvable context path ->
         _resolve_template_string py_repr (pre ++ "{" ++ path ++ "}" ++ post) context
         = (pre ++ "{" ++ path ++ "}"
                ++ _resolve_template_string py_repr post context)%string)
  /\ (forall s,
         _resolve_template_vars py_repr (VStr s) context
         = VStr (_resolve_template_string py_repr s context))
  /\ (forall pre path post : string,
         forallb (not_char "{") (chars pre) = true ->
         path <> "" -> forallb (not_char "}") (chars path) = true ->
         ~ resolvable context path ->
         _resolve_template_vars py_repr
           (VStr (pre ++ "{" ++ path ++ "}" ++ post)) context
         = VStr (pre ++ "{" ++ path ++ "}"
                     ++ _resolve_template_string py_repr post context)).
Proof.
  assert (Hplaceholder : forall pre path post : string,
             forallb (not_char "{") (chars pre) = true ->
             path <> "" -> forallb (not_char "}") (chars path) = true ->
             ~ resolvable context path ->
             _resolve_template_string py_repr (pre ++ "{" ++ path ++ "}" ++ post)
               context
             = (pre ++ "{" ++ path ++ "}"
                    ++ _resolve_template_string py_repr post context)%string);
    [| split; [|split; [|split; [|split; [exact Hplaceholder|split]]]]].
  6: { intros pre path post Hpre Hne Hp Hn.
       cbn [_resolve_template_vars]. f_equal.
       now apply Hplaceholder. }
  5: { intros s0. reflexivity. }
  2: { intros d. simpl. f_equal. apply map_ext. intros [k v]. reflexivity. }
  2: { intros l. reflexivity. }
  2: { intros v Hv. destruct v; simpl; (reflexivity || contradiction). }
  - intros pre path post Hpre Hne Hp Hn.
    unfold _resolve_template_string.
    rewrite !chars_app. simpl.
    change (list_ascii_of_string path) with (chars path).
    change (list_ascii_of_string post) with (chars post).
    fold (replace_groups py_repr context).
    rewrite resolve_unresolved_placeholder; auto.
    + rewrite text_app. unfold text at 2. simpl.
      rewrite text_chars. f_equal. f_equal.
      change (string_of_list_ascii (chars path ++ "}"%char :: re_sub template_pattern (replace_groups py_repr context) (chars post)))
        with (text (chars path ++ "}"%char :: re_sub template_pattern (replace_groups py_repr context) (chars post))).
      rewrite text_app, text_chars. reflexivity.
    + intros Hnil. apply Hne. rewrite <- (text_chars path), Hnil. reflexivity.
    + now rewrite text_chars.
Qed.

End TemplateResolution.

(** With only [input] in the context, [{missing.path}] stays in the text
    while [{input.x}] is replaced, inside a list inside a dict; the number
    next to the text is returned as it is. *)
Lemma resolve_template_permissive_witness :
  _resolve_template_vars (fun _ => "")
    (VDict [("q", VList [VStr ("see " ++ "{" ++ "missing.path" ++ "}"
                                      ++ " for {input.x}");
                         VInt 3])])
    [("input", VDict [("x", VStr "go")])]
  = VDict [("q", VList [VStr "see {missing.path} for go"; VInt 3])].
Proof.
  destruct (resolve_template_permissive (fun _ => "")
              [("input", VDict [("x", VStr "go")])])
    as (Hdict & Hlist & Hscalar & _ & _ & Hplaceholder).
  rewrite Hdict. cbn [map fst snd].
  rewrite Hlist. cbn [map].
  rewrite (Hscalar (VInt 3) I).
  rewrite (Hplaceholder "see " "missing.path" " for {input.x}").
  - reflexivity.
  - reflexivity.
  - discriminate.
  - reflexivity.
  - intros (v & Hr & Hv). vm_compute in Hr.
    inversion Hr; subst. discriminate.
Defined.

(* ================================================================== *)
(** ** The matcher against a declarative reading of patterns *)
(* ================================================================== *)

Lemma try_down_found {A} (f : nat -> option A) (lo k : nat) (r : A) :
  try_down f lo k = Some r -> exists j, lo <= j <= k /\ f j = Some r.
Proof.
  induction k as [|k IH]; simpl.
  - destruct lo; simpl; [|discriminate].
    destruct (f 0) eqn:Hf; [|discriminate].
    intros [= <-]. exists 0. split; [lia | exact Hf].
  - destruct (S k <? lo) eqn:Hlt; [discriminate|].
    apply Nat.ltb_ge in Hlt.
    destruct (f (S k)) eqn:Hf.
    + intros [= <-]. exists (S k). split; [lia | exact Hf].
    + intros H. destruct (IH H) as (j & Hj & Hfj).
      exists j. split; [lia | exact Hfj].
Qed.

Lemma try_down_succeeds {A} (f : nat -> option A) (lo j k : nat) :
  lo <= j <= k -> f j <> None -> try_down f lo k <> None.
Proof.
  intros Hj Hf. induction k as [|k IH]; simpl.
  - assert (j = 0) by lia. subst j.
    replace lo with 0 by lia. simpl.
    destruct (f 0); [discriminate | contradiction].
  - replace (S k <? lo) with false by (symmetry; apply Nat.ltb_ge; lia).
    destruct (f (S k)) eqn:Hfk; [discriminate|].
    apply IH. destruct (Nat.eq_dec j (S k)) as [->|]; [congruence | lia].
Qed.

Lemma re_match_sound (p : list atom) :
  forall s groups rest,
    re_match p s = Some (groups, rest) -> matches p s groups rest.
Proof.
  induction p as [|a p IH]; intros s groups rest H; simpl in H.
  - injection H as <- <-. constructor.
  - destruct a as [c | cls lo capture].
    + destruct s as [|x s]; [discriminate|].
      destruct (Ascii.eqb x c) eqn:Hx; [|discriminate].
      apply Ascii.eqb_eq in Hx. subst x. constructor. now apply IH.
    + apply try_down_found in H as (j & Hj & Hf).
      destruct (re_match p (skipn j s)) as [[gs r]|] eqn:Hm; [|discriminate].
      injection Hf as <- <-.
      rewrite <- (firstn_skipn j s) at 1.
      constructor.
      * apply firstn_take_while. lia.
      * rewrite length_firstn.
        pose proof (take_while_length cls s). lia.
      * now apply IH.
Qed.

Lemma re_match_complete (p : list atom) (s : list ascii)
  (groups : list (list ascii)) (rest : list ascii) :
  matches p s groups rest -> re_match p s <> None.
Proof.
  induction 1 as [s | c p s groups rest _ IH
                 | cls lo capture p run s groups rest Hrun Hlo _ IH]; simpl.
  - discriminate.
  - now rewrite Ascii.eqb_refl.
  - apply (try_down_succeeds _ lo (List.length run)).
    + split; [exact Hlo | now apply take_while_prefix].
    + rewrite skipn_app, Nat.sub_diag, skipn_all. simpl.
      destruct (re_match p s) as [[gs r]|]; [discriminate | contradiction].
Qed.

Lemma re_match_groups (p : list atom) (s : list ascii)
  (groups : list (list ascii)) (rest : list ascii) :
  matches p s groups rest ->
  List.length groups
  = List.length (filter (fun a => match a with
                                  | ARep _ _ true => true
                                  | _ => false
                                  end) p).
Proof.
  induction 1 as [s | c p s groups rest _ IH
                 | cls lo capture p run s groups rest _ _ _ IH]; simpl.
  - reflexivity.
  - exact IH.
  - destruct capture; simpl; now rewrite IH.
Qed.

(* ================================================================== *)
(** ** Condition evaluation *)
(* ================================================================== *)

Lemma condition_shape_matches (s : list ascii) :
  condition_shape s <-> exists groups rest, matches condition_pattern s groups rest.
Proof.
  split.
  - intros (path & ws1 & op & ws2 & lit & rest & -> & Hp & Hpc & Hw1 & Ho & Hoc
              & Hw2 & Hl & Hlc).
    exists [path; op; lit], rest. unfold condition_pattern.
    do 2 constructor.
    apply (matches_rep non_space 1 true); auto.
    { destruct path; [contradiction | simpl; lia]. }
    apply (matches_rep is_space 0 false); auto. { lia. }
    apply (matches_rep op_char 1 true); auto.
    { destruct op; [contradiction | simpl; lia]. }
    apply (matches_rep is_space 0 false); auto. { lia. }
    apply (matches_rep dot 1 true); auto.
    { destruct lit; [contradiction | simpl; lia]. }
    constructor.
  - intros (groups & rest & H). unfold condition_pattern in H.
    inversion H as [| ? ? s1 ? ? H1 |]; subst; clear H.
    inversion H1 as [| ? ? s2 ? ? H2 |]; subst; clear H1.
    inversion H2 as [| | ? ? ? ? path s3 g3 ? Hpc Hp H3]; subst; clear H2.
    inversion H3 as [| | ? ? ? ? ws1 s4 g4 ? Hw1 _ H4]; subst; clear H3.
    inversion H4 as [| | ? ? ? ? op s5 g5 ? Hoc Ho H5]; subst; clear H4.
    inversion H5 as [| | ? ? ? ? ws2 s6 g6 ? Hw2 _ H6]; subst; clear H5.
    inversion H6 as [| | ? ? ? ? lit s7 g7 ? Hlc Hl H7]; subst; clear H6.
    inversion H7; subst; clear H7.
    exists path, ws1, op, ws2, lit, rest.
    repeat split; auto.
    + intros ->. simpl in Hp. lia.
    + intros ->. simpl in Ho. lia.
    + intros ->. simpl in Hl. lia.
Qed.

Lemma condition_pattern_groups (s : list ascii) :
  match re_match condition_pattern s with
  | Some ([_; _; _], _) => condition_shape s
  | Some _ => False
  | None => ~ condition_shape s
  end.
Proof.
  destruct (re_match condition_pattern s) as [[groups rest]|] eqn:Hm.
  - apply re_match_sound in Hm.
    pose proof (re_match_groups _ _ _ _ Hm) as Hlen. simpl in Hlen.
    destruct groups as [|g1 [|g2 [|g3 [|g4 groups]]]]; try discriminate.
    apply condition_shape_matches. eauto.
  - intros Hs. apply condition_shape_matches in Hs as (groups & rest & H).
    now apply re_match_complete in H.
Qed.

Lemma ordering_not_invalid (r : option bool) (condition : string) :
  ordering r <> Raise (invalid_condition condition).
Proof. destruct r; discriminate. Qed.

(** C8, as the engine has it.  The three evaluations of the specification
    hold, and [_evaluate_condition] raises the invalid-format error exactly
    on the conditions whose stripped text the pattern does not accept:
    those that do not consist of [$.], a path without spaces, an operator
    run, and a non-empty rest.  (Any non-empty rest is accepted as the
    literal; an operator run outside the six operators raises a different
    [ValueError].) *)
Theorem evaluate_condition_format :
  _evaluate_condition "$.s.v > 0.8" [("s", VDict [("v", VFloat (9 # 10))])] = Ok true
  /\ _evaluate_condition "$.s.v > 0.8" [("s", VDict [("v", VFloat (5 # 10))])] = Ok false
  /\ _evaluate_condition ("$.s.status == " ++ quoted "ok")
                         [("s", VDict [("status", VStr "ok")])]
     = Ok true
  /\ forall condition context,
       ~ condition_shape (chars (strip condition))
       <-> _evaluate_condition condition context = Raise (invalid_condition condition).
Proof.
  split; [reflexivity | split; [reflexivity | split; [reflexivity|]]].
  intros condition context. unfold _evaluate_condition.
  pose proof (condition_pattern_groups (chars (strip condition))) as H.
  destruct (re_match condition_pattern (chars (strip condition)))
    as [[groups rest]|].
  - destruct groups as [|g1 [|g2 [|g3 [|g4 groups]]]]; try contradiction.
    split; [intros Hn; contradiction|].
    intros Heq. exfalso.
    repeat match type of Heq with
           | (if ?b then _ else _) = _ => destruct b
           end;
      try (now apply ordering_not_invalid in Heq);
      discriminate.
  - split; [reflexivity | intros _; exact H].
Qed.

(** A condition without the [$.] prefix is rejected. *)
Lemma evaluate_condition_format_witness :
  _evaluate_condition "s.v > 0.8" [] = Raise (invalid_condition "s.v > 0.8").
Proof.
  apply (proj1 (proj2 (proj2 (proj2 evaluate_condition_format)) "s.v > 0.8" [])).
  intros (path & ws1 & op & ws2 & lit & rest & H & _).
  vm_compute in H. discriminate.
Defined.

(** C8 as stated fails: [ok] without quotes is no literal of the grammar,
    yet the condition is evaluated, with the raw text as right operand. *)
Lemma evaluate_condition_bare_literal :
  spec_grammar "$.s.status == ok" = false
  /\ _evaluate_condition "$.s.status == ok" [("s", VDict [("status", VStr "ok")])]
     = Ok true.
Proof. split; reflexivity. Qed.

(* ================================================================== *)
(** ** What the engine never touches *)
(* ================================================================== *)

Ltac same_session :=
  intros ?; repeat split; simpl; try reflexivity;
  exists []; now rewrite app_nil_r.

Lemma extends_refl (w : world) : extends w w.
Proof.
  repeat split; try reflexivity. exists []. now rewrite app_nil_r.
Qed.

Lemma extends_trans (w1 w2 w3 : world) :
  extends w1 w2 -> extends w2 w3 -> extends w1 w3.
Proof.
  intros (Hx & (n1 & Hs) & Ha) (Hx' & (n2 & Hs') & Ha').
  repeat split.
  - now rewrite Hx'.
  - exists (n1 ++ n2). now rewrite Hs', Hs, app_assoc.
  - now rewrite Ha'.
Qed.

Lemma frames_ret {A} (a : A) : frames (ret a).
Proof. intros w. apply extends_refl. Qed.

Lemma frames_raise {A} (e : exn) : frames (@raise A e).
Proof. intros w. apply extends_refl. Qed.

Lemma frames_lift {A} (r : result A) : frames (lift r).
Proof. intros w. apply extends_refl. Qed.

Lemma frames_bind {A B} (m : M A) (k : A -> M B) :
  frames m -> (forall a, frames (k a)) -> frames (bind m k).
Proof.
  intros Hm Hk w. unfold bind. specialize (Hm w).
  destruct (m w) as [[a|e] w1]; simpl in *.
  - eapply extends_trans; [exact Hm | apply Hk].
  - exact Hm.
Qed.

Lemma frames_attempt {A} (m : M A) : frames m -> frames (attempt m).
Proof.
  intros Hm w. unfold attempt. specialize (Hm w).
  destruct (m w) as [r w1]. exact Hm.
Qed.

Lemma frames_commit : frames commit.
Proof. same_session. Qed.

Lemma map_update_key {A K} (key : A -> K) (f : A -> A) (c : A -> bool)
  (l : list A) :
  (forall a, key (f a) = key a) ->
  map key (map (fun a => if c a then f a else a) l) = map key l.
Proof.
  intros Hk. rewrite map_map. apply map_ext.
  intros a. destruct (c a); [apply Hk | reflexivity].
Qed.

Lemma frames_update_step (id : nat) (f : step_row -> step_row) :
  (forall r, step_key (f r) = step_key r) -> frames (update_step id f).
Proof.
  intros Hf w. repeat split; simpl; try reflexivity.
  exists []. rewrite app_nil_r. now apply map_update_key.
Qed.

Lemma frames_update_task (id : nat) (f : task_row -> task_row) :
  frames (update_task id f).
Proof. same_session. Qed.

Lemma frames_update_execution (id : nat) (f : execution_row -> execution_row) :
  (forall x, ex_id (f x) = ex_id x) -> frames (update_execution id f).
Proof.
  intros Hf w. repeat split; simpl.
  - now apply map_update_key.
  - exists []. now rewrite app_nil_r.
Qed.

Lemma frames_add_step execution name type agent input started_at :
  frames (add_step execution name type agent input started_at).
Proof.
  intros w. repeat split; simpl.
  eexists. rewrite map_app. reflexivity.
Qed.

Lemma frames_add_task execution agent instruction context priority :
  frames (add_task execution agent instruction context priority).
Proof. same_session. Qed.

Create HintDb frames.

Ltac frame_step :=
  first
    [ solve [auto with frames]
    | apply frames_update_step; intros []; reflexivity
    | apply frames_update_execution; intros []; reflexivity
    | apply frames_attempt
    | apply frames_bind; [| intros ?]
    | match goal with
      | |- frames (match ?x with _ => _ end) => destruct x
      | |- frames (if ?b then _ else _) => destruct b
      end ].

Ltac frame := repeat frame_step.

Section Frames.

Variable E : capabilities.
Variable tenant_id : nat.

Lemma frames_now : frames (now E).
Proof. same_session. Qed.

Lemma frames_call {A} (f : nat -> result A) : frames (call f).
Proof. same_session. Qed.

Lemma frames_may_retry (se : nat) (step : dict) : frames (may_retry se step).
Proof.
  intros w. unfold may_retry. destruct (find_step se (session w));
    apply extends_refl.
Qed.

Lemma frames_agent_prepare agent_id step context :
  frames (agent_prepare E tenant_id agent_id step context).
Proof.
  intros w. unfold agent_prepare.
  destruct (find_agent tenant_id agent_id (session w)); [|apply extends_refl].
  destruct (resolve_vars E _ context); apply extends_refl.
Qed.

#[local] Hint Resolve frames_ret frames_raise frames_lift frames_commit frames_now
  frames_call frames_may_retry frames_agent_prepare frames_add_step
  frames_add_task frames_update_task : frames.

Lemma frames_create_step_execution execution name type agent input :
  frames (create_step_execution E execution name type agent input).
Proof. unfold create_step_execution. frame. Qed.

Lemma frames_agent_run se task agent_id step instruction context :
  frames (agent_run E se task agent_id step instruction context).
Proof. unfold agent_run. frame. Qed.

#[local] Hint Resolve frames_create_step_execution frames_agent_run : frames.

Lemma frames_agent_step (fuel : nat) :
  forall execution step context,
    frames (_execute_agent_step E tenant_id fuel execution step context).
Proof.
  induction fuel as [|fuel IH]; intros execution step context; simpl.
  - frame.
  - frame.
Qed.

Lemma frames_mcp_tool_step (fuel : nat) :
  forall execution step context,
    frames (_execute_mcp_tool_step E fuel execution step context).
Proof.
  induction fuel as [|fuel IH]; intros execution step context; simpl.
  - frame.
  - frame.
Qed.

Lemma frames_http_step execution step context :
  frames (_execute_http_step E execution step context).
Proof. unfold _execute_http_step. frame. Qed.

#[local] Hint Resolve frames_agent_step frames_mcp_tool_step frames_http_step : frames.

Lemma frames_single_step fuel execution step context :
  frames (_execute_single_step E tenant_id fuel execution step context).
Proof. unfold _execute_single_step. frame. Qed.

#[local] Hint Resolve frames_single_step : frames.

Lemma frames_run_tasks fuel execution items context :
  frames (run_tasks E tenant_id fuel execution items context).
Proof. induction items as [|item items IH]; simpl; frame. Qed.

#[local] Hint Resolve frames_run_tasks : frames.

Lemma frames_parallel_step fuel execution step context :
  frames (_execute_parallel_step E tenant_id fuel execution step context).
Proof. unfold _execute_parallel_step. frame. Qed.

Lemma frames_conditional_step fuel execution step context :
  frames (_execute_conditional_step E tenant_id fuel execution step context).
Proof. unfold _execute_conditional_step. frame. Qed.

#[local] Hint Resolve frames_parallel_step frames_conditional_step : frames.

Lemma frames_dispatch_step fuel execution step context :
  frames (dispatch_step E tenant_id fuel execution step context).
Proof. unfold dispatch_step. frame. Qed.

Lemma frames_set_current_step execution name :
  frames (set_current_step execution name).
Proof. unfold set_current_step. frame. Qed.

#[local] Hint Resolve frames_dispatch_step frames_set_current_step : frames.

Lemma frames_execute_steps fuel execution :
  forall steps_ context,
    frames (_execute_steps E tenant_id fuel execution steps_ context).
Proof.
  induction steps_ as [|step rest IH]; intros context; simpl; frame.
Qed.

End Frames.

#[export] Hint Resolve frames_ret frames_raise frames_lift frames_commit
  frames_now frames_call frames_may_retry frames_agent_prepare frames_add_step
  frames_add_task frames_update_task frames_create_step_execution
  frames_agent_run frames_agent_step frames_mcp_tool_step frames_http_step
  frames_single_step frames_run_tasks frames_parallel_step
  frames_conditional_step frames_dispatch_step frames_set_current_step
  frames_execute_steps : frames.

(* ================================================================== *)
(** ** Running the engine symbolically *)
(* ================================================================== *)

(** Unfolding the monad and the primitives of the session, and nothing
    else: the worlds stay records of their fields. *)
Ltac run_engine :=
  lazy beta iota zeta delta
    [bind lift ret raise attempt now call commit add_step add_task
     add_execution update_step update_task update_execution
     create_step_execution set_current_step start_execution get_execution
     with_session with_steps with_tasks with_executions
     session database ticks calls steps tasks executions workflows agents].

Ltac run_engine_in H :=
  lazy beta iota zeta delta
    [bind lift ret raise attempt now call commit add_step add_task
     add_execution update_step update_task update_execution
     create_step_execution set_current_step start_execution get_execution
     with_session with_steps with_tasks with_executions fst snd
     session database ticks calls steps tasks executions workflows agents] in H.

Ltac open_world w :=
  let sts := fresh "sts" in
  let tks := fresh "tks" in
  let exs := fresh "exs" in
  let wfs := fresh "wfs" in
  let ags := fresh "ags" in
  let db := fresh "db" in
  let tk := fresh "tk" in
  let cl := fresh "cl" in
  destruct w as [[sts tks exs wfs ags] db tk cl].

(* ================================================================== *)
(** ** Output mapping and the agent step *)
(* ================================================================== *)

Lemma map_items_extracts (data : dict) (m : dict) :
  forall acc,
    (forall k v, In (k, v) m -> exists p, v = VStr p) ->
    NoDup (map fst m) ->
    exists r,
      map_items data acc m = Ok r
      /\ (forall k p, In (k, VStr p) m -> dict_find k r = Some (extract_field data p))
      /\ (forall k, ~ In k (map fst m) -> dict_find k r = dict_find k acc).
Proof.
  induction m as [|[k0 v0] m IH]; intros acc Hstr Hnd.
  - exists acc. simpl. repeat split; auto. intros k p [].
  - destruct (Hstr k0 v0 (or_introl eq_refl)) as [p0 ->].
    inversion Hnd as [|? ? Hk0 Hnd']; subst.
    cbn [map_items map_one].
    assert (Hstep : exists acc',
               (if startswith "$." p0
                then Ok (dict_set k0 (path_lookup (split "." (slice_2 p0)) (VDict data)) acc)
                else Ok (dict_set k0 (dict_get data p0) acc)) = Ok acc'
               /\ acc' = dict_set k0 (extract_field data p0) acc).
    { unfold extract_field. destruct (startswith "$." p0); eauto. }
    destruct Hstep as (acc' & -> & ->).
    destruct (IH (dict_set k0 (extract_field data p0) acc)) as (r & Hr & Hin & Hout).
    { intros k v Hkv. apply (Hstr k v). now right. }
    { exact Hnd'. }
    exists r. split; [exact Hr|]. split.
    + intros k p [Heq | Hkp].
      * injection Heq as <- <-. rewrite Hout by exact Hk0.
        apply dict_find_set_same.
      * now apply Hin.
    + intros k Hk. simpl in Hk. rewrite Hout by tauto.
      apply dict_find_set_other. intros ->. tauto.
Qed.

Section AgentStep.

Variable E : capabilities.
Variable tenant_id : nat.

(** C6, as the engine has it.  An agent step whose [agent_id] is the UUID
    of an agent of the tenant, whose resolved input is a dict and whose runner answers [response] returns
    [{response: response, task_id: <id of its task>}]; with an
    [output_mapping] of texts it returns instead the dict that gives every
    mapping key the field extracted from that output by its path, and no
    other key. *)
Theorem agent_step_output (fuel execution : nat) (step context : dict)
  (w : world) (raw : value) (a : string) (ag : agent_row) (d : dict)
  (response : value) :
  dict_find "agent_id" step = Some raw ->
  uuid_of raw = Ok a ->
  find_agent tenant_id a (session w) = Some ag ->
  resolve_vars E (dict_get_default step "input" (VDict [])) context = VDict d ->
  execute_agent E (calls w) a (dict_get_default d "instruction" (VStr ""))
                (dict_get_default d "context" (VDict [])) = Ok response ->
  let output_data :=
    [("response", response);
     ("task_id", VStr (uuid_text E (List.length (tasks (session w)))))] in
  (dict_find "output_mapping" step = None ->
   exists w',
     _execute_agent_step E tenant_id (S fuel) execution step context w
     = (Ok (VDict output_data), w'))
  /\ (forall m,
         dict_find "output_mapping" step = Some (VDict m) ->
         (forall k v, In (k, v) m -> exists p, v = VStr p) ->
         NoDup (map fst m) ->
         exists r w',
           _execute_agent_step E tenant_id (S fuel) execution step context w
           = (Ok (VDict r), w')
           /\ (forall k p, In (k, VStr p) m ->
                           dict_find k r = Some (extract_field output_data p))
           /\ (forall k, ~ In k (map fst m) -> dict_find k r = None)).
Proof.
  intros Hid Huuid Hag Hin Hrun output_data.
  open_world w. unfold find_agent in Hag. cbn in Hag, Hrun, output_data.
  split.
  - intros Hmap. cbn [_execute_agent_step].
    unfold subscript, agent_prepare, agent_run, dict_mem, find_agent.
    rewrite Hid. run_engine. rewrite Huuid. run_engine.
    rewrite Hag, Hin. run_engine.
    rewrite Hrun. run_engine. rewrite Hmap.
    eexists. reflexivity.
  - intros m Hmap Hstr Hnd.
    destruct (map_items_extracts output_data m [] Hstr Hnd) as (r & Hr & Hin' & Hout).
    exists r. cbn [_execute_agent_step].
    unfold subscript, agent_prepare, agent_run, dict_mem, find_agent.
    rewrite Hid. run_engine. rewrite Huuid. run_engine.
    rewrite Hag, Hin. run_engine.
    rewrite Hrun. run_engine. rewrite Hmap. run_engine.
    unfold subscript, _apply_output_mapping. rewrite Hmap.
    fold output_data. rewrite Hr.
    eexists. split; [reflexivity|]. split; [exact Hin' | exact Hout].
Qed.

End AgentStep.

(** The sample agent step, with a runner that answers [yes]: its output
    carries the identifier of the task beside the response. *)
Lemma agent_step_output_witness :
  exists w',
    _execute_agent_step Sample.answering Sample.tenant 1 0
      (Sample.agent_step "A" 0) [("input", VDict [("x", VStr "go?")])]
      (Sample.world_of [] [])
    = (Ok (VDict [("response", VStr "yes"); ("task_id", VStr "0")]), w').
Proof.
  apply (proj1 (agent_step_output Sample.answering Sample.tenant 0 0
                  (Sample.agent_step "A" 0) [("input", VDict [("x", VStr "go?")])]
                  (Sample.world_of [] []) (VStr Sample.agent_uuid)
                  Sample.agent_key
                  {| ag_id := Sample.agent_key; ag_tenant_id := Sample.tenant;
                     ag_deleted := false |}
                  [("instruction", VStr "go?")] (VStr "yes")
                  eq_refl eq_refl eq_refl eq_refl eq_refl)).
  reflexivity.
Defined.

(** C6 as stated fails: the output of a successful agent step is not
    [{response: text}] alone. *)
Lemma agent_step_output_not_bare :
  let r := fst (_execute_agent_step Sample.answering Sample.tenant 1 0
                  (Sample.agent_step "A" 0) [("input", VDict [("x", VStr "go?")])]
                  (Sample.world_of [] [])) in
  r = Ok (VDict [("response", VStr "yes"); ("task_id", VStr "0")])
  /\ r <> Ok (VDict [("response", VStr "yes")]).
Proof. vm_compute. split; [reflexivity | discriminate]. Qed.

(* ================================================================== *)
(** ** Conditional steps and nested dispatch *)
(* ================================================================== *)

Lemma skipn_map_app_last {A} (f : A -> A) (l : list A) (a : A) :
  skipn (List.length l) (map f (l ++ [a])) = [f a].
Proof.
  rewrite map_app, skipn_app, length_map, Nat.sub_diag.
  rewrite skipn_all2 by (rewrite length_map; lia).
  reflexivity.
Qed.

Section Conditional.

Variable E : capabilities.
Variable tenant_id : nat.

(** C4, as the engine has it.  A conditional step whose condition
    evaluates to false and which has no [if_false] returns
    [{condition_result: false, branch_taken: "false",
      result: {skipped: true, branch: "false"}}]: the skip marker is the
    [result] field of the step's output, and that whole output is what the
    step loop stores in the context under the step's name.  The only step
    row created is the conditional's own, completed with that output. *)
Theorem conditional_false_without_else (fuel execution : nat)
  (step context : dict) (w : world) (c name : string) :
  dict_find "type" step = Some (VStr "conditional") ->
  dict_find "name" step = Some (VStr name) ->
  dict_find "condition" step = Some (VStr c) ->
  _evaluate_condition c context = Ok false ->
  dict_find "if_false" step = None ->
  let skipped := VDict [("skipped", VBool true); ("branch", VStr "false")] in
  let output := VDict [("condition_result", VBool false);
                       ("branch_taken", VStr "false");
                       ("result", skipped)] in
  (exists w' r,
      _execute_conditional_step E tenant_id fuel execution step context w
      = (Ok output, w')
      /\ new_steps w w' = [r]
      /\ se_step_type r = "conditional"
      /\ se_status r = "completed"
      /\ se_output_data r = output)
  /\ (exists w' r,
         _execute_steps E tenant_id fuel execution [VDict step] context w
         = (Ok (dict_set name output context), w')
         /\ new_steps w w' = [r]
         /\ se_step_type r = "conditional").
Proof.
  intros Hty Hname Hc Hev Hno skipped output.
  assert (Hstep : forall w0 : world,
             exists w' r,
               _execute_conditional_step E tenant_id fuel execution step context w0
               = (Ok output, w')
               /\ new_steps w0 w' = [r]
               /\ se_step_type r = "conditional"
               /\ se_status r = "completed"
               /\ se_output_data r = output
               /\ executions (session w') = executions (session w0)).
  { intros w0. open_world w0.
    unfold _execute_conditional_step, dict_get_default, dict_get.
    rewrite Hc, Hno, Hname. run_engine. rewrite Hev. run_engine.
    cbn [truthy]. run_engine.
    eexists. eexists. split; [reflexivity|].
    unfold new_steps. cbn [session steps].
    rewrite skipn_map_app_last. cbn [se_id]. rewrite Nat.eqb_refl.
    repeat split; reflexivity. }
  split.
  - destruct (Hstep w) as (w' & r & H). exists w', r. tauto.
  - open_world w. cbn [_execute_steps as_dict]. run_engine.
    unfold dispatch_step, dict_get_default, dict_get. rewrite Hty, Hname.
    cbn [eq_str String.eqb Ascii.eqb Bool.eqb]. run_engine.
    match goal with
    | |- context [_execute_conditional_step E tenant_id fuel execution step context ?w0] =>
        destruct (Hstep w0) as (w' & r & Hrun & Hnew & Htype & _)
    end.
    rewrite Hrun. cbn [context_set]. run_engine.
    exists w', r. repeat split; auto.
Qed.

End Conditional.

(** The sample conditional, with a score of 0.5 in the input. *)
Lemma conditional_false_without_else_witness :
  exists w' r,
    _execute_steps Sample.answering Sample.tenant 1 0
      [VDict Sample.conditional_without_else] Sample.low_score
      (Sample.world_of [] [])
    = (Ok (dict_set "check"
             (VDict [("condition_result", VBool false);
                     ("branch_taken", VStr "false");
                     ("result", VDict [("skipped", VBool true);
                                       ("branch", VStr "false")])])
             Sample.low_score), w')
    /\ new_steps (Sample.world_of [] []) w' = [r]
    /\ se_step_type r = "conditional".
Proof.
  apply (proj2 (conditional_false_without_else Sample.answering Sample.tenant
                  1 0 Sample.conditional_without_else Sample.low_score
                  (Sample.world_of [] []) "$.input.score > 0.8" "check"
                  eq_refl eq_refl eq_refl eq_refl eq_refl)).
Defined.

(** C4 as stated fails: what the context holds under the step's name is
    not the skip marker itself. *)
Lemma conditional_output_is_wrapped :
  let r := fst (_execute_steps Sample.answering Sample.tenant 1 0
                  [VDict Sample.conditional_without_else] Sample.low_score
                  (Sample.world_of [] [])) in
  exists context',
    r = Ok context'
    /\ dict_find "check" context'
       <> Some (VDict [("skipped", VBool true); ("branch", VStr "false")]).
Proof. vm_compute. eexists. split; [reflexivity | discriminate]. Qed.

Section NestedDispatch.

Variable E : capabilities.
Variable tenant_id : nat.

(** C2, as the engine has it.  The dispatcher of nested steps knows the
    three leaf kinds only: a nested step of type [agent], [mcp_tool] or
    [http] goes to its executor, while a nested step of type [parallel] or
    [conditional] is rejected as an unknown step type, before any row is
    written.  Parallel and conditional steps run at the top level of a
    workflow only. *)
Theorem nested_dispatch_leaves_only (fuel execution : nat) (step context : dict)
  (w : world) (t : string) :
  dict_find "type" step = Some (VStr t) ->
  (t = "parallel" \/ t = "conditional" ->
   _execute_single_step E tenant_id fuel execution (VDict step) context w
   = (Raise (ValueError ("Unknown step type: " ++ t)%string), w))
  /\ (t = "agent" ->
      _execute_single_step E tenant_id fuel execution (VDict step) context w
      = _execute_agent_step E tenant_id fuel execution step context w)
  /\ (t = "mcp_tool" ->
      _execute_single_step E tenant_id fuel execution (VDict step) context w
      = _execute_mcp_tool_step E fuel execution step context w)
  /\ (t = "http" ->
      _execute_single_step E tenant_id fuel execution (VDict step) context w
      = _execute_http_step E execution step context w).
Proof.
  intros Hty.
  repeat split; [intros [-> | ->] | intros -> ..];
    unfold _execute_single_step; cbn [as_dict];
    unfold bind, lift; cbv beta iota;
    unfold dict_get; rewrite Hty; reflexivity.
Qed.

End NestedDispatch.

(** A parallel group met as the branch of a conditional is rejected. *)
Lemma nested_dispatch_leaves_only_witness :
  _execute_single_step Sample.answering Sample.tenant 1 0
    (VDict Sample.nested_parallel) [] (Sample.world_of [] [])
  = (Raise (ValueError "Unknown step type: parallel"), Sample.world_of [] []).
Proof.
  apply (proj1 (nested_dispatch_leaves_only Sample.answering Sample.tenant 1 0
                  Sample.nested_parallel [] (Sample.world_of [] []) "parallel"
                  eq_refl)).
  left. reflexivity.
Defined.

(** C2 as stated fails: a workflow whose conditional takes a branch that is
    a parallel group fails on that branch, and no row of type [parallel]
    is ever written. *)
Lemma nested_parallel_is_rejected :
  let workflow_steps :=
    [VDict [("type", VStr "conditional"); ("name", VStr "route");
            ("condition", VStr ("$.input.x == " ++ quoted "go"));
            ("if_true", VDict Sample.nested_parallel)]] in
  let (r, w') := execute_workflow Sample.answering Sample.tenant 1 0
                   (VDict [("x", VStr "go")]) None
                   (Sample.world_of workflow_steps []) in
  r = Raise (ValueError "Unknown step type: parallel")
  /\ map se_step_type (steps (database w')) = ["conditional"]
  /\ map se_status (steps (database w')) = ["failed"].
Proof. vm_compute. repeat split. Qed.

(* ================================================================== *)
(** ** The default step name *)
(* ================================================================== *)

Section DefaultName.

Variable E : capabilities.
Variable tenant_id : nat.

(** The row an executor creates first is still there, under its name and
    type, when the executor is done. *)
Lemma created_row_kept {A} (execution : nat) (name : value) (type : string)
  (agent : option string) (input : value) (k : nat -> M A) :
  (forall se, frames (k se)) ->
  forall w, exists r,
    nth_error
      (steps (session (snd (bind (create_step_execution E execution name type
                                    agent input) k w))))
      (List.length (steps (session w))) = Some r
    /\ se_step_name r = name /\ se_step_type r = type.
Proof.
  intros Hk w. open_world w. run_engine.
  match goal with
  | |- context [k ?se ?w1] =>
      destruct (Hk se w1) as (_ & (new & Hkeys) & _);
      destruct (k se w1) as [res w']
  end.
  cbn [snd] in *. cbn [session steps] in Hkeys.
  assert (Hnth : nth_error (map step_key (steps (session w'))) (List.length sts)
                 = Some (List.length sts, name, type)).
  { rewrite Hkeys, map_app. cbn [map step_key se_id se_step_name se_step_type].
    rewrite nth_error_app1 by (rewrite length_app, length_map; simpl; lia).
    rewrite nth_error_app2 by (rewrite length_map; lia).
    rewrite length_map, Nat.sub_diag. reflexivity. }
  rewrite nth_error_map in Hnth.
  destruct (nth_error (steps (session w')) (List.length sts)) as [r|] eqn:Hr;
    [|discriminate].
  cbn [option_map] in Hnth. unfold step_key in Hnth.
  injection Hnth as Hid Hname Htype.
  exists r. split; [exact Hr | split; assumption].
Qed.

(** C10.  A step definition without a [name] is accepted by each of the
    five executors, which writes its row under the name [unnamed_step];
    the step loop stores the output in the context under that same key, so
    of two nameless siblings the second replaces the entry of the first
    and the loop goes on. *)
Theorem unnamed_step_default (fuel execution : nat) (step context : dict)
  (w : world) :
  dict_find "name" step = None ->
  let named (w' : world) :=
    exists r,
      nth_error (steps (session w')) (List.length (steps (session w))) = Some r
      /\ se_step_name r = VStr "unnamed_step" in
  (forall raw a,
      dict_find "agent_id" step = Some raw -> uuid_of raw = Ok a ->
      named (snd (_execute_agent_step E tenant_id (S fuel) execution
                    step context w)))
  /\ (forall raw s tool,
         dict_find "server_id" step = Some raw -> uuid_of raw = Ok s ->
         dict_find "tool_name" step = Some tool ->
         named (snd (_execute_mcp_tool_step E (S fuel) execution step context w)))
  /\ named (snd (_execute_http_step E execution step context w))
  /\ named (snd (_execute_parallel_step E tenant_id fuel execution step context w))
  /\ named (snd (_execute_conditional_step E tenant_id fuel execution step context w))
  /\ (forall o w1,
         dispatch_step E tenant_id fuel execution step context
           (snd (set_current_step execution (VStr "unnamed_step") w)) = (Ok o, w1) ->
         _execute_steps E tenant_id fuel execution [VDict step] context w
         = (Ok (dict_set "unnamed_step" o context), w1))
  /\ (forall step2 o1 w1 o2 w2,
         dict_find "name" step2 = None ->
         dispatch_step E tenant_id fuel execution step context
           (snd (set_current_step execution (VStr "unnamed_step") w)) = (Ok o1, w1) ->
         dispatch_step E tenant_id fuel execution step2
           (dict_set "unnamed_step" o1 context)
           (snd (set_current_step execution (VStr "unnamed_step") w1)) = (Ok o2, w2) ->
         exists context',
           _execute_steps E tenant_id fuel execution [VDict step; VDict step2]
             context w = (Ok context', w2)
           /\ dict_find "unnamed_step" context' = Some o2).
Proof.
  intros Hname named.
  assert (Hdefault : dict_get_default step "name" (VStr "unnamed_step")
                     = VStr "unnamed_step")
    by (unfold dict_get_default; now rewrite Hname).
  assert (Hkept : forall A type agent input (k : nat -> M A),
             (forall se, frames (k se)) ->
             named (snd (bind (create_step_execution E execution
                                 (VStr "unnamed_step") type agent input) k w))).
  { intros A type agent input k Hk.
    destruct (created_row_kept execution (VStr "unnamed_step") type agent input
                k Hk w) as (r & Hr & Hn & _).
    exists r. auto. }
  repeat apply conj.
  - intros raw a Hid Huuid. cbn [_execute_agent_step].
    unfold subscript. rewrite Hid, Hdefault.
    unfold bind at 1, lift at 1. cbv beta iota. rewrite Huuid.
    unfold bind at 1, lift at 1. cbv beta iota.
    apply Hkept. intros se. frame.
  - intros raw s tool Hs Huuid Ht. cbn [_execute_mcp_tool_step].
    unfold subscript. rewrite Hs, Ht, Hdefault.
    unfold bind at 1, lift at 1. cbv beta iota. rewrite Huuid.
    unfold bind at 1, lift at 1. cbv beta iota.
    unfold bind at 1, lift at 1. cbv beta iota.
    apply Hkept. intros se. frame.
  - unfold _execute_http_step. rewrite Hdefault.
    apply Hkept. intros se. frame.
  - unfold _execute_parallel_step. rewrite Hdefault.
    apply Hkept. intros se. frame.
  - unfold _execute_conditional_step. rewrite Hdefault.
    apply Hkept. intros se. frame.
  - intros o w1 Hrun. revert Hrun. open_world w. intros Hrun.
    cbn [_execute_steps as_dict]. run_engine. rewrite Hdefault.
    run_engine_in Hrun. rewrite Hrun. reflexivity.
  - intros step2 o1 w1 o2 w2 Hname2 Hrun1 Hrun2.
    assert (Hdefault2 : dict_get_default step2 "name" (VStr "unnamed_step")
                        = VStr "unnamed_step")
      by (unfold dict_get_default; now rewrite Hname2).
    eexists. split.
    + revert Hrun1. open_world w. intros Hrun1.
      cbn [_execute_steps as_dict]. run_engine. rewrite Hdefault, Hdefault2.
      run_engine_in Hrun1. rewrite Hrun1.
      cbn [context_set]. run_engine.
      revert Hrun2. open_world w1. intros Hrun2.
      run_engine_in Hrun2. run_engine. rewrite Hrun2. reflexivity.
    + apply dict_find_set_same.
Qed.

End DefaultName.

(** Two nameless agent steps in a row: the context ends with the output of
    the second under [unnamed_step]. *)
Lemma unnamed_step_default_witness :
  exists context' w2,
    _execute_steps Sample.answering Sample.tenant 1 0
      [VDict Sample.nameless_agent_step; VDict Sample.nameless_agent_step] []
      (Sample.world_of [] [])
    = (Ok context', w2)
    /\ dict_find "unnamed_step" context'
       = Some (VDict [("response", VStr "yes"); ("task_id", VStr "1")]).
Proof.
  destruct (unnamed_step_default Sample.answering Sample.tenant 1 0
              Sample.nameless_agent_step [] (Sample.world_of [] []) eq_refl)
    as (_ & _ & _ & _ & _ & _ & H).
  edestruct (H Sample.nameless_agent_step) as (context' & Hrun & Hfind).
  - reflexivity.
  - vm_compute. reflexivity.
  - vm_compute. reflexivity.
  - exists context'. eexists. split; [exact Hrun | exact Hfind].
Defined.

(* ================================================================== *)
(** ** Retries *)
(* ================================================================== *)

Lemma update_last_row (f : step_row -> step_row) (l : list step_row)
  (a : step_row) :
  Forall (fun r => se_id r < List.length l) l ->
  se_id a = List.length l ->
  map (fun r => if se_id r =? List.length l then f r else r) (l ++ [a])
  = l ++ [f a].
Proof.
  intros Hl Ha. rewrite map_app. simpl. rewrite Ha, Nat.eqb_refl. f_equal.
  rewrite <- (map_id l) at 2. apply map_ext_in.
  intros r Hr. rewrite Forall_forall in Hl. specialize (Hl r Hr).
  replace (se_id r =? List.length l) with false
    by (symmetry; apply Nat.eqb_neq; lia).
  reflexivity.
Qed.

Lemma find_skips {A} (p : A -> bool) (l m : list A) :
  (forall x, In x l -> p x = false) -> find p (l ++ m) = find p m.
Proof.
  induction l as [|a l IH]; intros Hl; simpl.
  - reflexivity.
  - rewrite (Hl a (or_introl eq_refl)). apply IH.
    intros x Hx. apply Hl. now right.
Qed.

Lemma find_last_row (l : list step_row) (a : step_row) :
  Forall (fun r => se_id r < List.length l) l ->
  se_id a = List.length l ->
  find (fun r => se_id r =? List.length l) (l ++ [a]) = Some a.
Proof.
  intros Hl Ha. rewrite find_skips.
  - simpl. now rewrite Ha, Nat.eqb_refl.
  - intros x Hx. rewrite Forall_forall in Hl. specialize (Hl x Hx).
    apply Nat.eqb_neq. lia.
Qed.

Lemma fresh_after_append (l : list step_row) (a : step_row) :
  Forall (fun r => se_id r < List.length l) l ->
  se_id a = List.length l ->
  Forall (fun r => se_id r < List.length (l ++ [a])) (l ++ [a]).
Proof.
  intros Hl Ha. rewrite length_app. simpl.
  apply Forall_app. split.
  - eapply Forall_impl; [|exact Hl]. simpl. intros r Hr. lia.
  - constructor; [lia | constructor].
Qed.

Lemma retry_allowed (k : Z) :
  (1 <= k)%Z -> ordering (py_lt (VInt 0) (VInt k)) = Ok true.
Proof.
  intros Hk. unfold py_lt, as_number, ordering, Qle_bool. simpl.
  replace (k * 1 <=? 0)%Z with false by (symmetry; apply Z.leb_gt; lia).
  reflexivity.
Qed.

Section Retries.

Variable E : capabilities.
Variable tenant_id : nat.

(** C1 fails on the engine.  With an agent runner that fails on every
    call and [max_retries] at least 1, the retry never runs out: each
    attempt writes a row of its own, marks it failed, raises its counter
    from 0 to 1 and calls the executor again, which starts from a new row
    whose counter is 0.  Whatever depth of recursion [fuel] the interpreter
    allows, the call ends in [RecursionError] with [fuel] rows, each failed
    and each with [retry_count] 1; the runner's own error is never
    surfaced. *)
Theorem retries_never_exhaust (execution : nat) (step context : dict)
  (raw : value) (a : string) (d : dict) (k : Z) (err : exn) :
  dict_find "agent_id" step = Some raw ->
  uuid_of raw = Ok a ->
  resolve_vars E (dict_get_default step "input" (VDict [])) context = VDict d ->
  dict_find "max_retries" step = Some (VInt k) ->
  (1 <= k)%Z ->
  (forall n instruction ctx, execute_agent E n a instruction ctx = Raise err) ->
  forall (fuel : nat) (w : world),
    find_agent tenant_id a (session w) <> None ->
    step_ids_fresh (session w) ->
    exists w' rows,
      _execute_agent_step E tenant_id fuel execution step context w
      = (Raise RecursionError, w')
      /\ steps (session w') = steps (session w) ++ rows
      /\ List.length rows = fuel
      /\ Forall (fun r => se_status r = "failed" /\ se_retry_count r = 1%Z
                          /\ se_error_message r = Some err) rows.
Proof.
  intros Hid Huuid Hin Hmax Hk Hfail.
  induction fuel as [|fuel IH]; intros w Hag Hfresh.
  - exists w, []. simpl. rewrite app_nil_r. repeat split. constructor.
  - open_world w. unfold find_agent, step_ids_fresh in *.
    cbn [session agents steps] in Hag, Hfresh.
    destruct (find (fun a0 => String.eqb (ag_id a0) a
                              && (ag_tenant_id a0 =? tenant_id)
                              && negb (ag_deleted a0)) ags)
      as [ag|] eqn:Hfind; [clear Hag | contradiction].
    cbn [_execute_agent_step].
    unfold subscript, agent_prepare, agent_run, may_retry, find_agent,
      find_step, dict_get_default.
    rewrite Hid, Hmax. run_engine. rewrite Huuid. run_engine. rewrite Hfind.
    unfold dict_get_default in Hin. rewrite Hin. run_engine.
    rewrite Hfail. run_engine.
    rewrite update_last_row by (first [exact Hfresh | reflexivity]).
    rewrite find_last_row by (first [exact Hfresh | reflexivity]).
    cbn [se_retry_count step_failed]. rewrite (retry_allowed k Hk).
    rewrite update_last_row by (first [exact Hfresh | reflexivity]).
    match goal with
    | |- context [_execute_agent_step E tenant_id fuel execution step context ?w2] =>
        destruct (IH w2) as (w' & rows & Hrun & Hsteps & Hlen & Hall)
    end.
    { cbn [session agents]. rewrite Hfind. discriminate. }
    { cbn [session steps]. now apply fresh_after_append. }
    cbn [session steps] in Hsteps.
    eexists w', (_ :: rows). rewrite Hrun.
    split; [reflexivity|]. split; [|split].
    + etransitivity; [exact Hsteps|].
      rewrite <- app_assoc. reflexivity.
    + simpl. now rewrite Hlen.
    + constructor; [|exact Hall]. repeat split.
Qed.

End Retries.

(** The scenario of the specification: a single agent step with
    [max_retries] 2 and a runner that always fails. *)
Lemma retries_never_exhaust_witness :
  exists w' rows,
    _execute_agent_step Sample.failing Sample.tenant 6 0
      (Sample.agent_step "A" 2) [("input", VDict [("x", VStr "go?")])]
      (Sample.world_of [] [])
    = (Raise RecursionError, w')
    /\ steps (session w') = rows
    /\ List.length rows = 6
    /\ Forall (fun r => se_status r = "failed" /\ se_retry_count r = 1%Z
                        /\ se_error_message r = Some (CapabilityError "boom"))
              rows.
Proof.
  apply (retries_never_exhaust Sample.failing Sample.tenant 0
           (Sample.agent_step "A" 2) [("input", VDict [("x", VStr "go?")])]
           (VStr Sample.agent_uuid) Sample.agent_key
           [("instruction", VStr "go?")] 2 (CapabilityError "boom")
           eq_refl eq_refl eq_refl eq_refl).
  - lia.
  - reflexivity.
  - discriminate.
  - constructor.
Defined.

(** The same scenario through [execute_workflow]: three levels of
    recursion leave three rows for the one step, none with [retry_count]
    2, and the execution fails on the recursion limit. *)
Lemma failing_agent_workflow_rows :
  let (r, w') := execute_workflow Sample.failing Sample.tenant 3 0
                   (VDict [("x", VStr "go?")]) None
                   (Sample.world_of [VDict (Sample.agent_step "A" 2)] []) in
  r = Raise RecursionError
  /\ map (fun s => (se_step_name s, se_status s, se_retry_count s))
         (steps (database w'))
     = [(VStr "A", "failed", 1%Z); (VStr "A", "failed", 1%Z);
        (VStr "A", "failed", 1%Z)]
  /\ map (fun x => (ex_status x, ex_error_message x)) (executions (database w'))
     = [("failed", Some RecursionError)].
Proof. vm_compute. repeat split. Qed.

(* ================================================================== *)
(** ** The outcome of a workflow execution *)
(* ================================================================== *)

Lemma find_by_id (id : nat) (l : list execution_row) :
  In id (map ex_id l) ->
  exists x, find (fun x => ex_id x =? id) l = Some x.
Proof.
  induction l as [|a l IH]; simpl; [tauto|].
  intros [Ha | Hin].
  - exists a. now rewrite Ha, Nat.eqb_refl.
  - destruct (ex_id a =? id); eauto.
Qed.

Lemma find_updated (id : nat) (f : execution_row -> execution_row)
  (l : list execution_row) (x : execution_row) :
  (forall y, ex_id (f y) = ex_id y) ->
  find (fun x => ex_id x =? id) l = Some x ->
  find (fun x => ex_id x =? id)
       (map (fun x => if ex_id x =? id then f x else x) l)
  = Some (f x).
Proof.
  intros Hf Hx. rewrite find_map_stable.
  - rewrite Hx. simpl. apply find_some in Hx as [_ Hid]. now rewrite Hid.
  - intros y. destruct (ex_id y =? id) eqn:Hy; [now rewrite Hf | exact Hy].
Qed.

Section Outcome.

Variable E : capabilities.
Variable tenant_id : nat.

(** When the step loop returns, the execution is completed and
    committed. *)
Lemma execute_workflow_completes (fuel workflow_id : nat) (input_data : value)
  (context : option dict) (w : world) (workflow : workflow_row)
  (output : dict) (w2 : world) :
  find_workflow tenant_id workflow_id (session w) = Some workflow ->
  wf_status workflow = "active" ->
  _execute_steps E tenant_id fuel (List.length (executions (session w)))
    (wf_steps workflow) (initial_context input_data context)
    (snd (start_execution E tenant_id workflow_id input_data context w))
  = (Ok output, w2) ->
  exists x w',
    execute_workflow E tenant_id fuel workflow_id input_data context w = (Ok x, w')
    /\ ex_status x = "completed"
    /\ ex_output_data x = VDict output
    /\ ex_completed_at x <> None
    /\ database w' = session w'.
Proof.
  intros Hwf Hactive Hrun.
  unfold execute_workflow. rewrite Hwf, Hactive.
  cbn [String.eqb Ascii.eqb Bool.eqb negb].
  clear Hwf. revert Hrun. open_world w. intros Hrun.
  cbn [session executions] in Hrun. run_engine_in Hrun. run_engine.
  match type of Hrun with
  | _execute_steps E tenant_id fuel ?id ?ss ?c ?w1 = _ =>
      pose proof (frames_execute_steps E tenant_id fuel id ss c w1)
        as (Hids & _ & _)
  end.
  rewrite Hrun in *. cbn [snd session executions] in Hids.
  destruct (find_by_id (List.length exs) (executions (session w2))) as [x Hx].
  { rewrite Hids, map_app, in_app_iff. right. simpl. now left. }
  open_world w2. cbn [session executions] in Hx. run_engine.
  erewrite find_updated; [| intros []; reflexivity | exact Hx].
  eexists. eexists. split; [reflexivity|].
  repeat split. discriminate.
Qed.



End Outcome.



(* ================================================================== *)
(** ** Parallel steps under [wait_for = all] *)
(* ================================================================== *)

Lemma combine_all_ok (outputs : list value) :
  forall i, combine_results i (map Ok outputs) = indexed_outputs i outputs.
Proof.
  induction outputs as [|o outputs IH]; intros i; simpl.
  - reflexivity.
  - now rewrite IH.
Qed.

Lemma collect_all_ok (outputs : list value) :
  collect_errors (map Ok outputs) = [].
Proof. induction outputs as [|o outputs IH]; simpl; auto. Qed.

Lemma indexed_outputs_nth (outputs : list value) :
  forall base i o,
    nth_error outputs i = Some o ->
    nth_error (indexed_outputs base outputs) i
    = Some (("step_" ++ str_int (Z.of_nat (base + i)))%string, o).
Proof.
  induction outputs as [|o' outputs IH]; intros base i o Hi.
  - destruct i; discriminate.
  - destruct i as [|i]; simpl in *.
    + injection Hi as <-. now rewrite Nat.add_0_r.
    + rewrite (IH (S base) i o Hi). now rewrite Nat.add_succ_r.
Qed.

Lemma in_updated_other (se : nat) (f : step_row -> step_row)
  (l : list step_row) (r : step_row) :
  In r l -> se_id r <> se ->
  In r (map (fun r => if se_id r =? se then f r else r) l).
Proof.
  intros Hin Hne. apply in_map_iff. exists r. split; [|exact Hin].
  apply Nat.eqb_neq in Hne. now rewrite Hne.
Qed.

Lemma in_updated_self (se : nat) (f : step_row -> step_row)
  (l : list step_row) (r : step_row) :
  (forall x, se_id (f x) = se_id x) ->
  In r (map (fun r => if se_id r =? se then f r else r) l) ->
  se_id r = se -> exists r0, r = f r0.
Proof.
  intros Hf Hin Hid. apply in_map_iff in Hin as (r0 & Hr0 & _).
  destruct (se_id r0 =? se) eqn:H0.
  - eauto.
  - subst r0. apply Nat.eqb_neq in H0. contradiction.
Qed.

Lemma collect_errors_raised (outcomes : list (result value)) :
  map (@Raise value) (collect_errors outcomes)
  = filter (fun r => negb (is_ok r)) outcomes.
Proof.
  induction outcomes as [|[v|e] outcomes IH]; simpl.
  - reflexivity.
  - exact IH.
  - now rewrite IH.
Qed.

Lemma collect_errors_member (outcomes : list (result value)) (e : exn) :
  In (Raise e) outcomes -> In e (collect_errors outcomes).
Proof.
  induction outcomes as [|[v|e'] outcomes IH]; simpl.
  - contradiction.
  - intros [Heq | Hin]; [discriminate | now apply IH].
  - intros [Heq | Hin]; [left; congruence | right; now apply IH].
Qed.

Section ParallelAll.

Variable E : capabilities.
Variable tenant_id : nat.

(** The row an executor created is among the rows of every later world. *)
Lemma created_row_survives (execution : nat) (name : value) (type : string)
  (agent : option string) (input : value) (w w1 w2 : world) (se : nat) :
  create_step_execution E execution name type agent input w = (Ok se, w1) ->
  extends w1 w2 ->
  exists r, In r (steps (session w2)) /\ se_id r = se.
Proof.
  intros Hcreate (_ & (new & Hkeys) & _).
  revert Hcreate. open_world w. intros Hcreate.
  run_engine_in Hcreate. injection Hcreate as <- <-.
  cbn [session steps] in Hkeys.
  assert (Hin : In (List.length sts, name, type)
                   (map step_key (steps (session w2)))).
  { rewrite Hkeys, map_app. apply in_or_app. left. apply in_or_app. right.
    now left. }
  apply in_map_iff in Hin as (r & Hr & Hin).
  exists r. split; [exact Hin|]. unfold step_key in Hr. congruence.
Qed.

Lemma in_updated_row (se : nat) (f : step_row -> step_row)
  (l : list step_row) (r : step_row) :
  In r l -> se_id r = se ->
  In (f r) (map (fun r => if se_id r =? se then f r else r) l).
Proof.
  intros Hin Hid. apply in_map_iff. exists r. split; [|exact Hin].
  now rewrite Hid, Nat.eqb_refl.
Qed.

(** C5.  A parallel step with [wait_for = all], once its row [se] is
    created and its sub-steps have run with the results [outcomes]:
    - if every sub-step succeeded, the step returns
      [{step_0: output_0, ..., step_{n-1}: output_{n-1}}], the i-th entry
      for the i-th sub-step in declaration order, its row is completed with
      that output and committed;
    - if some sub-step raised, the step raises the aggregate of the
      errors, which holds the errors of the sub-steps that raised, in
      declaration order, and no other; its row is failed with it and
      committed, and every row written by a sub-step is left as the
      sub-step wrote it;
    - a workflow made of that one step, all of whose sub-steps succeed, is
      completed, with the output of the step in its final context. *)
Theorem parallel_wait_all (fuel execution : nat) (step context : dict)
  (w : world) (name : string) (items : list value) (se : nat) (w1 w2 : world)
  (outcomes : list (result value)) :
  dict_find "name" step = Some (VStr name) ->
  dict_find "steps" step = Some (VList items) ->
  dict_get_default step "wait_for" (VStr "all") = VStr "all" ->
  create_step_execution E execution (VStr name) "parallel" None
    (VDict [("parallel_steps", VList items); ("wait_for", VStr "all")]) w
  = (Ok se, w1) ->
  run_tasks E tenant_id fuel execution items context w1 = (Ok outcomes, w2) ->
  (forall outputs,
      outcomes = map Ok outputs ->
      let output := VDict (indexed_outputs 0 outputs) in
      exists w3,
        _execute_parallel_step E tenant_id fuel execution step context w
        = (Ok output, w3)
        /\ (forall i o,
               nth_error outputs i = Some o ->
               nth_error (indexed_outputs 0 outputs) i
               = Some (("step_" ++ str_int (Z.of_nat i))%string, o))
        /\ (exists r, In r (steps (session w3)) /\ se_id r = se)
        /\ (forall r, In r (steps (session w3)) -> se_id r = se ->
                      se_status r = "completed" /\ se_output_data r = output)
        /\ database w3 = session w3)
  /\ (forall i raised,
         nth_error outcomes i = Some (Raise raised) ->
         exists errors w3,
           _execute_parallel_step E tenant_id fuel execution step context w
           = (Raise (ParallelError errors), w3)
           /\ map (@Raise value) errors
              = filter (fun r => negb (is_ok r)) outcomes
           /\ In raised errors
           /\ (forall r, In r (steps (session w2)) -> se_id r <> se ->
                         In r (steps (session w3)))
           /\ (exists r, In r (steps (session w3)) /\ se_id r = se)
           /\ (forall r, In r (steps (session w3)) -> se_id r = se ->
                         se_status r = "failed"
                         /\ se_error_message r = Some (ParallelError errors))
           /\ database w3 = session w3)
  /\ (forall workflow_id input_data context0 workflow w0 outputs,
         find_workflow tenant_id workflow_id (session w0) = Some workflow ->
         wf_status workflow = "active" ->
         wf_steps workflow = [VDict step] ->
         dict_find "type" step = Some (VStr "parallel") ->
         execution = List.length (executions (session w0)) ->
         context = initial_context input_data context0 ->
         w = snd (set_current_step execution (VStr name)
                    (snd (start_execution E tenant_id workflow_id input_data
                            context0 w0))) ->
         outcomes = map Ok outputs ->
         exists x w',
           execute_workflow E tenant_id fuel workflow_id input_data context0 w0
           = (Ok x, w')
           /\ ex_status x = "completed"
           /\ ex_output_data x
              = VDict (dict_set name (VDict (indexed_outputs 0 outputs)) context)).
Proof.
  intros Hname Hitems Hwait Hcreate Hrun.
  assert (Hsteps : dict_get_default step "steps" (VList []) = VList items)
    by (unfold dict_get_default; now rewrite Hitems).
  assert (Hn : dict_get_default step "name" (VStr "unnamed_step") = VStr name)
    by (unfold dict_get_default; now rewrite Hname).
  assert (Hrow : exists r0, In r0 (steps (session w2)) /\ se_id r0 = se).
  { apply (created_row_survives _ _ _ _ _ _ _ _ _ Hcreate).
    pose proof (frames_run_tasks E tenant_id fuel execution items context w1)
      as Hframe.
    now rewrite Hrun in Hframe. }
  destruct Hrow as (r0 & Hr0 & Hid0).
  assert (Hall : forall outputs,
             outcomes = map Ok outputs ->
             exists w3,
               _execute_parallel_step E tenant_id fuel execution step context w
               = (Ok (VDict (indexed_outputs 0 outputs)), w3)
               /\ (exists r, In r (steps (session w3)) /\ se_id r = se)
               /\ (forall r, In r (steps (session w3)) -> se_id r = se ->
                             se_status r = "completed"
                             /\ se_output_data r = VDict (indexed_outputs 0 outputs))
               /\ database w3 = session w3).
  { intros outputs ->.
    unfold _execute_parallel_step. rewrite Hn, Hsteps, Hwait.
    unfold bind at 1. rewrite Hcreate.
    unfold attempt at 1, bind at 1, bind at 1, lift at 1, iterate.
    cbn [waiting_of eq_str String.eqb Ascii.eqb Bool.eqb].
    unfold bind at 1, lift at 1.
    unfold bind at 1. rewrite Hrun.
    cbn [await_tasks eq_str String.eqb Ascii.eqb Bool.eqb].
    unfold bind at 1, lift at 1.
    rewrite combine_all_ok, collect_all_ok. cbn [andb].
    revert Hr0. open_world w2. intros Hr0. run_engine.
    eexists. split; [reflexivity|]. cbn [session steps] in *.
    split; [|split; [|reflexivity]].
    + eexists. split; [apply (in_updated_row se _ _ r0 Hr0 Hid0) | exact Hid0].
    + intros r Hin Hid.
      apply in_updated_self in Hin as [r1 ->]; auto.
      all: try (intros []; reflexivity). }
  split; [|split].
  - intros outputs Hout output.
    destruct (Hall outputs Hout) as (w3 & H1 & Hex & H2 & H3).
    exists w3. repeat split; auto; try (now apply H2).
    intros i o Hi. now apply (indexed_outputs_nth outputs 0 i o).
  - intros i raised Hi.
    apply nth_error_In in Hi.
    pose proof (collect_errors_member outcomes raised Hi) as Hmember.
    exists (collect_errors outcomes).
    unfold _execute_parallel_step. rewrite Hn, Hsteps, Hwait.
    unfold bind at 1. rewrite Hcreate.
    unfold attempt at 1, bind at 1, bind at 1, lift at 1, iterate.
    cbn [waiting_of eq_str String.eqb Ascii.eqb Bool.eqb].
    unfold bind at 1, lift at 1.
    unfold bind at 1. rewrite Hrun.
    cbn [await_tasks eq_str String.eqb Ascii.eqb Bool.eqb].
    unfold bind at 1, lift at 1.
    pose proof (collect_errors_raised outcomes) as Hraised.
    destruct (collect_errors outcomes) as [|e1 errors] eqn:Hce; [contradiction|].
    cbn [andb]. revert Hr0. open_world w2. intros Hr0. run_engine.
    eexists. split; [reflexivity|]. cbn [session steps] in *.
    split; [exact Hraised|]. split; [exact Hmember|].
    split; [|split; [|split; [|reflexivity]]].
    + intros r Hin Hne. now apply in_updated_other.
    + eexists. split; [apply (in_updated_row se _ _ r0 Hr0 Hid0) | exact Hid0].
    + intros r Hin Hid.
      apply in_updated_self in Hin as [r1 ->]; auto.
      all: try (intros []; reflexivity).
  - intros workflow_id input_data context0 workflow w0 outputs
      Hwf Hactive Hws Hty Hex Hctx Hw Hout.
    destruct (Hall outputs Hout) as (w3 & Hpar & _).
    destruct (execute_workflow_completes E tenant_id fuel workflow_id input_data
                context0 w0 workflow
                (dict_set name (VDict (indexed_outputs 0 outputs)) context)
                w3 Hwf Hactive) as (x & w' & H1 & H2 & H3 & _ & _);
      [| exists x, w'; auto].
    rewrite Hws, <- Hex, <- Hctx.
    cbn [_execute_steps as_dict]. unfold bind at 1, lift at 1. cbv beta iota.
    rewrite Hn. unfold bind at 1.
    destruct (set_current_step execution (VStr name)
                (snd (start_execution E tenant_id workflow_id input_data
                        context0 w0))) as [[[]|e] wc] eqn:Hset.
    + cbn [snd] in Hw. subst wc.
      unfold dispatch_step, dict_get. rewrite Hty.
      cbn [eq_str String.eqb Ascii.eqb Bool.eqb].
      unfold bind at 1. rewrite Hpar. reflexivity.
    + exfalso. revert Hset. clear.
      destruct (snd (start_execution E tenant_id workflow_id input_data context0 w0)).
      discriminate.
Qed.

End ParallelAll.

(** Three agent sub-steps under [wait_for = all], with a runner that
    answers: the execution completes and the context holds the three
    outputs by position.  And a group of an HTTP step, which is answered,
    and an agent step without its agent: the group fails with the error of
    the agent step as its aggregate, and the row of the HTTP step stays
    completed. *)
Lemma parallel_wait_all_witness :
  let subs := [VDict (Sample.agent_step "first" 0);
               VDict (Sample.agent_step "second" 0);
               VDict (Sample.agent_step "third" 0)] in
  let answer (task : string) :=
    VDict [("response", VStr "yes"); ("task_id", VStr task)] in
  let mixed := [VDict Sample.http_step; VDict [("type", VStr "agent")]] in
  (exists x w',
      execute_workflow Sample.answering Sample.tenant 1 0
        (VDict [("x", VStr "go?")]) None
        (Sample.world_of [VDict (Sample.parallel_of subs)] [])
      = (Ok x, w')
      /\ ex_status x = "completed"
      /\ ex_output_data x
         = VDict [("input", VDict [("x", VStr "go?")]);
                  ("fan_out", VDict [("step_0", answer "0");
                                     ("step_1", answer "1");
                                     ("step_2", answer "2")])])
  /\ (exists w3,
        _execute_parallel_step Sample.answering Sample.tenant 1 0
          (Sample.parallel_of mixed) []
          (Sample.world_of [] [Sample.execution_in "running"])
        = (Raise (ParallelError [KeyError "agent_id"]), w3)
        /\ exists r, In r (steps (session w3))
                     /\ se_step_type r = "http" /\ se_status r = "completed").
Proof.
  intros subs answer mixed. split.
  - pose (E := Sample.answering).
    pose (input := VDict [("x", VStr "go?")]).
    pose (w0 := Sample.world_of [VDict (Sample.parallel_of subs)] []).
    pose (context := initial_context input None).
    pose (w := snd (set_current_step 0 (VStr "fan_out")
                      (snd (start_execution E Sample.tenant 0 input None w0)))).
    pose (created := create_step_execution E 0 (VStr "fan_out") "parallel" None
                       (VDict [("parallel_steps", VList subs);
                               ("wait_for", VStr "all")]) w).
    pose (ran := run_tasks E Sample.tenant 1 0 subs context (snd created)).
    assert (Hcreate : created = (Ok 0, snd created)) by (vm_compute; reflexivity).
    assert (Hrun : ran = (Ok (map Ok [answer "0"; answer "1"; answer "2"]), snd ran))
      by (vm_compute; reflexivity).
    destruct (parallel_wait_all E Sample.tenant 1 0 (Sample.parallel_of subs)
                context w "fan_out" subs 0 (snd created) (snd ran) _
                eq_refl eq_refl eq_refl Hcreate Hrun) as (_ & _ & H).
    exact (H 0 input None _ w0 [answer "0"; answer "1"; answer "2"]
             eq_refl eq_refl eq_refl eq_refl eq_refl eq_refl eq_refl eq_refl).
  - pose (E := Sample.answering).
    pose (w := Sample.world_of [] [Sample.execution_in "running"]).
    pose (created := create_step_execution E 0 (VStr "fan_out") "parallel" None
                       (VDict [("parallel_steps", VList mixed);
                               ("wait_for", VStr "all")]) w).
    pose (ran := run_tasks E Sample.tenant 1 0 mixed [] (snd created)).
    pose (outcomes := [Ok (VDict [("status", VInt 200)]);
                       Raise (KeyError "agent_id")]).
    assert (Hcreate : created = (Ok 0, snd created)) by (vm_compute; reflexivity).
    assert (Hrun : ran = (Ok outcomes, snd ran)) by (vm_compute; reflexivity).
    destruct (parallel_wait_all E Sample.tenant 1 0 (Sample.parallel_of mixed)
                [] w "fan_out" mixed 0 (snd created) (snd ran) outcomes
                eq_refl eq_refl eq_refl Hcreate Hrun) as (_ & Hfail & _).
    destruct (Hfail 1 (KeyError "agent_id") eq_refl)
      as (errors & w3 & Hpar & Herrors & _ & Hkept & _).
    assert (errors = [KeyError "agent_id"]) as ->.
    { destruct errors as [|e [|e' errors]]; try discriminate.
      now injection Herrors as ->. }
    exists w3. split; [exact Hpar|].
    pose (r := nth 1 (steps (session (snd ran)))
                 (running_row 0 0 VNone "" None VNone 0)).
    exists r. split; [|split; vm_compute; reflexivity].
    apply Hkept.
    + vm_compute. right. left. reflexivity.
    + vm_compute. discriminate.
Defined.

(* ================================================================== *)
(** ** More on template resolution *)
(* ================================================================== *)

Lemma resolves_lookup (parts : list string) (v v' : value) :
  resolves_to v parts v' -> template_lookup parts v = Some v'.
Proof.
  induction 1 as [v | d part parts x v Hx _ IH]; simpl.
  - reflexivity.
  - unfold dict_get. now rewrite Hx.
Qed.

Lemma template_needs_closing (s : list ascii) :
  forallb (not_char "}") s = true -> re_match template_pattern s = None.
Proof.
  intros Hs. destruct (re_match template_pattern s) as [[groups rest]|] eqn:Hm;
    [|reflexivity].
  exfalso. apply re_match_sound in Hm. unfold template_pattern in Hm.
  inversion Hm as [| ? ? s1 ? ? H1 |]; subst; clear Hm.
  inversion H1 as [| | ? ? ? ? run s2 g2 ? _ _ H2]; subst; clear H1.
  inversion H2; subst; clear H2.
  simpl in Hs. rewrite forallb_app in Hs.
  apply andb_prop in Hs as [_ Hs]. apply andb_prop in Hs as [Hs _].
  simpl in Hs. discriminate.
Qed.

Lemma re_sub_without_closing (repl : list (list ascii) -> list ascii)
  (s : list ascii) :
  forallb (not_char "}") s = true ->
  re_sub_from template_pattern repl s 0 = s.
Proof.
  induction s as [|c s IH]; intros Hs.
  - reflexivity.
  - cbn [re_sub_from]. rewrite (template_needs_closing _ Hs).
    simpl in Hs. apply andb_prop in Hs as [_ Hs]. now rewrite IH.
Qed.

Section Placeholders.

Variable py_repr : value -> string.
Variable context : dict.

(** X1.  A text with no opening brace, or with no closing brace, holds no
    placeholder and is returned as it is. *)
Theorem resolve_without_placeholder (template : string) :
  forallb (not_char "{") (chars template) = true
  \/ forallb (not_char "}") (chars template) = true ->
  _resolve_template_string py_repr template context = template.
Proof.
  intros [Hopen | Hclose]; unfold _resolve_template_string, re_sub.
  - rewrite <- (app_nil_r (chars template)).
    rewrite (re_sub_plain_prefix py_repr context _ [] Hopen).
    simpl. rewrite app_nil_r. apply text_chars.
  - rewrite re_sub_without_closing by exact Hclose. apply text_chars.
Qed.

(** X2.  A placeholder whose path resolves to a value other than [None] is
    replaced by [str] of that value; the text before it is copied and the
    text after it is resolved in turn. *)
Theorem resolve_placeholder (pre path post : string) (v : value) :
  forallb (not_char "{") (chars pre) = true ->
  path <> "" ->
  forallb (not_char "}") (chars path) = true ->
  resolves_to (VDict context) (split "." path) v ->
  v <> VNone ->
  _resolve_template_string py_repr (pre ++ "{" ++ path ++ "}" ++ post) context
  = (pre ++ py_str py_repr v
         ++ _resolve_template_string py_repr post context)%string.
Proof.
  intros Hpre Hne Hp Hres Hv.
  assert (Hrepl : replace_var py_repr context path = py_str py_repr v).
  { unfold replace_var. rewrite (resolves_lookup _ _ _ Hres).
    destruct v; try reflexivity. contradiction. }
  assert (Hpath : chars path <> []).
  { intros Hnil. apply Hne. rewrite <- (text_chars path), Hnil. reflexivity. }
  unfold _resolve_template_string, re_sub.
  rewrite !chars_app. simpl.
  change (list_ascii_of_string path) with (chars path).
  change (list_ascii_of_string post) with (chars post).
  rewrite re_sub_plain_prefix by exact Hpre.
  cbn [re_sub_from].
  rewrite (template_pattern_matches (chars path) (chars post) Hpath Hp).
  unfold replace_groups at 1. rewrite text_chars, Hrepl.
  replace (List.length ("{"%char :: chars path ++ "}"%char :: chars post)
           - List.length (chars post) - 1)
    with (List.length (chars path ++ ["}"%char]))
    by (change ("{"%char :: chars path ++ "}"%char :: chars post)
          with (["{"%char] ++ chars path ++ ["}"%char] ++ chars post);
        rewrite !length_app; cbn [List.length]; lia).
  replace (chars path ++ "}"%char :: chars post)
    with ((chars path ++ ["}"%char]) ++ chars post)
    by (now rewrite <- app_assoc).
  rewrite re_sub_skip.
  rewrite !text_app, !text_chars. reflexivity.
Qed.

End Placeholders.

(** A text with a closing brace but no opening one. *)
Lemma resolve_without_placeholder_witness :
  _resolve_template_string (fun _ => "") "score} of 3" [("score", VInt 1)]
  = "score} of 3".
Proof.
  apply (resolve_without_placeholder (fun _ => "") [("score", VInt 1)]
           "score} of 3").
  left. reflexivity.
Defined.

(** The instruction of the sample agent step against the input [x]. *)
Lemma resolve_placeholder_witness :
  _resolve_template_string (fun _ => "")
    ("ask: " ++ "{" ++ "input.x" ++ "}" ++ " {later}")
    [("input", VDict [("x", VInt 42)])]
  = "ask: 42 {later}".
Proof.
  rewrite (resolve_placeholder (fun _ => "") [("input", VDict [("x", VInt 42)])]
             "ask: " "input.x" " {later}" (VInt 42)).
  - reflexivity.
  - reflexivity.
  - discriminate.
  - reflexivity.
  - vm_compute. repeat econstructor.
  - discriminate.
Defined.

(* ================================================================== *)
(** ** More on condition evaluation *)
(* ================================================================== *)

Lemma take_while_app_head {A} (p : A -> bool) (run s : list A) :
  forallb p run = true ->
  match s with [] => True | x :: _ => p x = false end ->
  take_while p (run ++ s) = run.
Proof.
  intros Hrun Hs. induction run as [|a run IH]; simpl in *.
  - destruct s as [|x s]; simpl in *; [reflexivity | now rewrite Hs].
  - apply andb_prop in Hrun as [Ha Hrun]. rewrite Ha. now rewrite IH.
Qed.

(** A repetition whose longest run lets the rest of the pattern match
    keeps that run: nothing is given back. *)
Lemma re_match_rep_first (cls : ascii -> bool) (lo : nat) (capture : bool)
  (p : list atom) (run s : list ascii) (groups : list (list ascii))
  (rest : list ascii) :
  forallb cls run = true ->
  match s with [] => True | x :: _ => cls x = false end ->
  lo <= List.length run ->
  re_match p s = Some (groups, rest) ->
  re_match (ARep cls lo capture :: p) (run ++ s)
  = Some (if capture then run :: groups else groups, rest).
Proof.
  intros Hrun Hs Hlo Hm. cbn [re_match].
  rewrite (take_while_app_head cls run s Hrun Hs).
  apply try_down_hit; [exact Hlo|].
  rewrite skipn_app, Nat.sub_diag, skipn_all. cbn [app skipn].
  rewrite Hm. rewrite firstn_app, Nat.sub_diag, firstn_all. cbn [firstn].
  now rewrite app_nil_r.
Qed.

Lemma op_char_not_space (c : ascii) : op_char c = true -> is_space c = false.
Proof.
  unfold op_char. intros H.
  repeat (apply orb_prop in H as [H | H]);
    apply Ascii.eqb_eq in H; subst c; reflexivity.
Qed.

Lemma drop_while_length {A} (p : A -> bool) (l : list A) :
  List.length (drop_while p l) <= List.length l.
Proof.
  induction l as [|a l IH]; simpl; [lia|].
  destruct (p a); simpl; lia.
Qed.

Lemma drop_while_same_length {A} (p : A -> bool) (l : list A) :
  List.length (drop_while p l) = List.length l -> drop_while p l = l.
Proof.
  destruct l as [|a l]; simpl; [reflexivity|].
  destruct (p a); [|reflexivity].
  intros H. pose proof (drop_while_length p l). lia.
Qed.

Lemma drop_while_head {A} (p : A -> bool) (l : list A) :
  drop_while p l = l -> match l with [] => True | x :: _ => p x = false end.
Proof.
  destruct l as [|a l]; simpl; [trivial|].
  destruct (p a) eqn:Ha; [|reflexivity].
  intros H. pose proof (drop_while_length p l) as Hl.
  rewrite H in Hl. simpl in Hl. lia.
Qed.

(** A text that [strip] leaves alone has no whitespace at either end. *)
Lemma trimmed_ends (l : list ascii) :
  strip_chars l = l ->
  drop_while is_space l = l /\ drop_while is_space (rev l) = rev l.
Proof.
  intros H. unfold strip_chars in H.
  pose proof (drop_while_length is_space l) as H1.
  pose proof (drop_while_length is_space (rev (drop_while is_space l))) as H2.
  assert (Hlen : List.length (drop_while is_space (rev (drop_while is_space l)))
                 = List.length l)
    by (rewrite <- (length_rev (drop_while _ (rev _))); now rewrite H).
  rewrite length_rev in H2.
  assert (Hl : drop_while is_space l = l)
    by (apply drop_while_same_length; lia).
  split; [exact Hl|].
  rewrite Hl in Hlen. apply drop_while_same_length.
  now rewrite Hlen, length_rev.
Qed.

Lemma strip_chars_between (a : ascii) (m l : list ascii) :
  is_space a = false -> l <> [] -> strip_chars l = l ->
  strip_chars (a :: m ++ l) = a :: m ++ l.
Proof.
  intros Ha Hne Hl. apply trimmed_ends in Hl as [_ Hend].
  unfold strip_chars. cbn [drop_while]. rewrite Ha.
  replace (rev (a :: m ++ l)) with (rev l ++ rev (a :: m))
    by (change (a :: m ++ l) with ((a :: m) ++ l); now rewrite rev_app_distr).
  destruct (rev l) as [|x r] eqn:Hr.
  - exfalso. apply Hne. rewrite <- (rev_involutive l), Hr. reflexivity.
  - apply drop_while_head in Hend. cbn [app drop_while]. rewrite Hend.
    change (x :: r ++ rev (a :: m)) with ((x :: r) ++ rev (a :: m)).
    rewrite <- Hr, <- rev_app_distr, rev_involutive. reflexivity.
Qed.

Lemma re_match_char (c : ascii) (p : list atom) (s : list ascii) :
  re_match (AChar c :: p) (c :: s) = re_match p s.
Proof. cbn [re_match]. now rewrite Ascii.eqb_refl. Qed.

(** The groups of a laid-out condition are its path, its operator and its
    literal, with nothing left over. *)
Lemma laid_out_groups (path ws1 op ws2 lit : list ascii) :
  laid_out path ws1 op ws2 lit ->
  re_match condition_pattern
    ("$"%char :: "."%char :: path ++ ws1 ++ op ++ ws2 ++ lit)
  = Some ([path; op; lit], []).
Proof.
  intros [Hp Hps Hw1 Hw1s Ho Hos Hw2 Hw2s Hl Hld Hlt].
  apply trimmed_ends in Hlt as [Hstart _]. apply drop_while_head in Hstart.
  unfold condition_pattern. rewrite !re_match_char.
  apply (re_match_rep_first non_space 1 true); [exact Hps | | | ].
  { destruct ws1 as [|x ws1]; [contradiction|]. cbn [app].
    cbn [forallb] in Hw1s. apply andb_prop in Hw1s as [Hx _].
    unfold non_space. now rewrite Hx. }
  { destruct path; [contradiction | simpl; lia]. }
  apply (re_match_rep_first is_space 0 false); [exact Hw1s | | lia | ].
  { destruct op as [|x op]; [contradiction|]. cbn [app].
    cbn [forallb] in Hos. apply andb_prop in Hos as [Hx _].
    now apply op_char_not_space. }
  apply (re_match_rep_first op_char 1 true); [exact Hos | | | ].
  { destruct ws2 as [|x ws2]; [contradiction|]. cbn [app].
    cbn [forallb] in Hw2s. apply andb_prop in Hw2s as [Hx _].
    destruct (op_char x) eqn:Hox; [|reflexivity].
    apply op_char_not_space in Hox. congruence. }
  { destruct op; [contradiction | simpl; lia]. }
  apply (re_match_rep_first is_space 0 false); [exact Hw2s | | lia | ].
  { destruct lit; [contradiction | exact Hstart]. }
  rewrite <- (app_nil_r lit) at 1.
  apply (re_match_rep_first dot 1 true); [exact Hld | exact I | | reflexivity].
  destruct lit; [contradiction | simpl; lia].
Qed.

Lemma laid_out_stripped (path ws1 op ws2 lit : list ascii) :
  laid_out path ws1 op ws2 lit ->
  chars (strip (laid_out_condition path ws1 op ws2 lit))
  = "$"%char :: "."%char :: path ++ ws1 ++ op ++ ws2 ++ lit.
Proof.
  intros H. unfold strip, laid_out_condition. rewrite !chars_text.
  change ("$"%char :: "."%char :: path ++ ws1 ++ op ++ ws2 ++ lit)
    with ("$"%char :: ("."%char :: path ++ ws1 ++ op ++ ws2) ++ lit)
    || replace ("$"%char :: "."%char :: path ++ ws1 ++ op ++ ws2 ++ lit)
         with ("$"%char :: ("."%char :: path ++ ws1 ++ op ++ ws2) ++ lit)
         by (cbn [app]; now rewrite <- !app_assoc).
  apply strip_chars_between; [reflexivity | apply (lit_present _ _ _ _ _ H)
                             | apply (lit_trimmed _ _ _ _ _ H)].
Qed.

Lemma laid_out_evaluation (path ws1 op ws2 lit : list ascii) (context : dict) :
  laid_out path ws1 op ws2 lit ->
  _evaluate_condition (laid_out_condition path ws1 op ws2 lit) context
  = apply_operator (text op)
      (path_lookup (split "." (text path)) (VDict context))
      (convert_expected (text lit)).
Proof.
  intros H. unfold _evaluate_condition.
  rewrite (laid_out_stripped _ _ _ _ _ H), (laid_out_groups _ _ _ _ _ H).
  assert (Hlit : strip (text lit) = text lit)
    by (unfold strip; now rewrite chars_text, (lit_trimmed _ _ _ _ _ H)).
  cbv zeta. rewrite Hlit. reflexivity.
Qed.

(** X3.  A condition in the usual layout is read as its three parts: the
    value found at the path is compared by the operator with the converted
    literal. *)
Theorem evaluate_laid_out (path ws1 op ws2 lit : list ascii) (context : dict) :
  laid_out path ws1 op ws2 lit ->
  _evaluate_condition (laid_out_condition path ws1 op ws2 lit) context
  = apply_operator (text op)
      (path_lookup (split "." (text path)) (VDict context))
      (convert_expected (text lit)).
Proof. apply laid_out_evaluation. Qed.

Lemma sample_layout :
  laid_out (chars "step1.score") (chars " ") (chars "<=") (chars "  ")
           (chars "1e2").
Proof. constructor; (discriminate || reflexivity). Qed.

(** [$.step1.score <=  1e2] against a score of 50. *)
Lemma evaluate_laid_out_witness :
  _evaluate_condition "$.step1.score <=  1e2"
    [("step1", VDict [("score", VInt 50)])]
  = Ok true.
Proof.
  exact (evaluate_laid_out (chars "step1.score") (chars " ") (chars "<=")
           (chars "  ") (chars "1e2") [("step1", VDict [("score", VInt 50)])]
           sample_layout).
Defined.

Lemma py_lt_none_right (v : value) : py_lt v VNone = None.
Proof. destruct v; reflexivity. Qed.

Lemma py_le_none_right (v : value) : py_le v VNone = None.
Proof. destruct v; reflexivity. Qed.

(** X4.  When the path of a condition leads nowhere the left operand is
    [None]: the four ordering operators then raise [TypeError] whatever the
    literal, while [== null] holds. *)
Theorem evaluate_missing_path (path ws1 op ws2 lit : list ascii) (context : dict) :
  laid_out path ws1 op ws2 lit ->
  path_lookup (split "." (text path)) (VDict context) = VNone ->
  (In (text op) [">"; "<"; ">="; "<="] ->
   _evaluate_condition (laid_out_condition path ws1 op ws2 lit) context
   = Raise (TypeError "unorderable types"))
  /\ (text op = "==" -> lower (text lit) = "null" ->
      _evaluate_condition (laid_out_condition path ws1 op ws2 lit) context
      = Ok true).
Proof.
  intros H Hmissing. rewrite (laid_out_evaluation _ _ _ _ _ _ H), Hmissing.
  split.
  - intros Hop. unfold apply_operator. simpl in Hop.
    destruct Hop as [<- | [<- | [<- | [<- | []]]]]; cbn [String.eqb Ascii.eqb Bool.eqb];
      rewrite ?py_lt_none_right, ?py_le_none_right; reflexivity.
  - intros -> Hnull. unfold apply_operator, convert_expected.
    rewrite Hnull. reflexivity.
Qed.

Lemma evaluate_missing_path_witness :
  _evaluate_condition "$.classify.confidence > 0.8" [] 
  = Raise (TypeError "unorderable types").
Proof.
  apply (proj1 (evaluate_missing_path (chars "classify.confidence") (chars " ")
                  (chars ">") (chars " ") (chars "0.8") []
                  ltac:(constructor; (discriminate || reflexivity)) eq_refl)).
  left. reflexivity.
Defined.

(** X5.  An operator run that is not one of the six operators is refused
    with [ValueError], after the text has passed the format check. *)
Theorem evaluate_unknown_operator (path ws1 op ws2 lit : list ascii)
  (context : dict) :
  laid_out path ws1 op ws2 lit ->
  spec_operator (text op) = false ->
  _evaluate_condition (laid_out_condition path ws1 op ws2 lit) context
  = Raise (ValueError ("Unknown operator: " ++ text op)%string).
Proof.
  intros H Hop. rewrite (laid_out_evaluation _ _ _ _ _ _ H).
  unfold spec_operator in Hop. cbn [existsb] in Hop.
  repeat (apply orb_false_elim in Hop as [? Hop]).
  unfold apply_operator.
  repeat match goal with
         | Heq : String.eqb _ _ = false |- _ => rewrite Heq; clear Heq
         end.
  reflexivity.
Qed.

Lemma evaluate_unknown_operator_witness :
  _evaluate_condition "$.a => 1" [("a", VInt 1)]
  = Raise (ValueError "Unknown operator: =>").
Proof.
  exact (evaluate_unknown_operator (chars "a") (chars " ") (chars "=>")
           (chars " ") (chars "1") [("a", VInt 1)]
           ltac:(constructor; (discriminate || reflexivity)) eq_refl).
Defined.

Lemma lower_quoted (s : string) :
  lower (quoted s) = String double_quote (lower (s ++ String double_quote EmptyString)).
Proof. reflexivity. Qed.

Lemma removelast_last {A} (l : list A) (x : A) : removelast (l ++ [x]) = l.
Proof.
  induction l as [|a l IH]; [reflexivity|].
  simpl. rewrite IH. destruct (l ++ [x]) eqn:Hl; [|reflexivity].
  now destruct l.
Qed.

Lemma convert_quoted (s : string) : convert_expected (quoted s) = VStr s.
Proof.
  unfold convert_expected. rewrite lower_quoted.
  cbn [String.eqb Ascii.eqb Bool.eqb double_quote].
  assert (Hstart : startswith (String double_quote EmptyString) (quoted s) = true).
  { unfold startswith, quoted. simpl.
    destruct (ascii_dec double_quote double_quote); [|congruence].
    now destruct (s ++ String double_quote EmptyString)%string. }
  assert (Hchars : chars (quoted s) = double_quote :: chars s ++ [double_quote]).
  { unfold quoted. change (chars (String ?c ?r)) with (c :: chars r).
    now rewrite chars_app. }
  assert (Hend : endswith_char double_quote (quoted s) = true).
  { unfold endswith_char. rewrite Hchars.
    change (double_quote :: chars s ++ [double_quote])
      with ((double_quote :: chars s) ++ [double_quote]).
    now rewrite rev_app_distr. }
  rewrite Hstart, Hend. cbn [andb].
  unfold slice_1_m1. rewrite Hchars. cbn [tl].
  now rewrite removelast_last, text_chars.
Qed.

(** X6.  A literal between double quotes is compared as the text between
    them, whatever that text is: a quoted [true], [null] or number stays a
    string. *)
Theorem evaluate_quoted_literal (path ws1 op ws2 : list ascii) (s : string)
  (context : dict) :
  laid_out path ws1 op ws2 (chars (quoted s)) ->
  convert_expected (quoted s) = VStr s
  /\ _evaluate_condition
       (laid_out_condition path ws1 op ws2 (chars (quoted s))) context
     = apply_operator (text op)
         (path_lookup (split "." (text path)) (VDict context)) (VStr s).
Proof.
  intros H. split; [apply convert_quoted|].
  now rewrite (laid_out_evaluation _ _ _ _ _ _ H), text_chars, convert_quoted.
Qed.

Lemma evaluate_quoted_literal_witness :
  convert_expected (quoted "true") = VStr "true"
  /\ _evaluate_condition ("$.flag == " ++ quoted "true")
       [("flag", VBool true)]
     = Ok false.
Proof.
  exact (evaluate_quoted_literal (chars "flag") (chars " ") (chars "==")
           (chars " ") "true" [("flag", VBool true)]
           ltac:(constructor; (discriminate || reflexivity))).
Defined.

Lemma drop_while_spaces {A} (p : A -> bool) (ws l : list A) :
  forallb p ws = true -> drop_while p (ws ++ l) = drop_while p l.
Proof.
  induction ws as [|a ws IH]; simpl; [reflexivity|].
  intros H. apply andb_prop in H as [-> H]. now apply IH.
Qed.

Lemma drop_while_all {A} (p : A -> bool) (l : list A) :
  drop_while p l = [] -> forallb p l = true.
Proof.
  induction l as [|a l IH]; simpl; [reflexivity|].
  destruct (p a); [exact IH | discriminate].
Qed.

Lemma drop_while_app_keep {A} (p : A -> bool) (l m : list A) :
  drop_while p l <> [] -> drop_while p (l ++ m) = drop_while p l ++ m.
Proof.
  induction l as [|a l IH]; simpl; [contradiction|].
  destruct (p a); [exact IH | reflexivity].
Qed.

Lemma forallb_rev {A} (p : A -> bool) (l : list A) :
  forallb p (rev l) = forallb p l.
Proof.
  induction l as [|a l IH]; [reflexivity|].
  simpl. rewrite forallb_app, IH. simpl. now rewrite andb_true_r, andb_comm.
Qed.

Lemma strip_chars_padded (ws1 l ws2 : list ascii) :
  forallb is_space ws1 = true -> forallb is_space ws2 = true ->
  strip_chars (ws1 ++ l ++ ws2) = strip_chars l.
Proof.
  intros H1 H2. unfold strip_chars. rewrite (drop_while_spaces _ _ _ H1).
  destruct (drop_while is_space l) as [|x r] eqn:Hl.
  - apply drop_while_all in Hl.
    assert (Hall : forallb is_space (l ++ ws2) = true)
      by (now rewrite forallb_app, Hl, H2).
    rewrite <- (app_nil_r (l ++ ws2)), (drop_while_spaces _ _ _ Hall).
    reflexivity.
  - rewrite drop_while_app_keep by (rewrite Hl; discriminate).
    rewrite Hl, rev_app_distr.
    now rewrite drop_while_spaces by (now rewrite forallb_rev).
Qed.

(** X7.  White space around a well-formed condition is ignored: the padded
    text evaluates exactly as the bare one. *)
Theorem evaluate_ignores_padding (ws1 ws2 : list ascii) (condition : string)
  (context : dict) :
  forallb is_space ws1 = true -> forallb is_space ws2 = true ->
  condition_shape (chars (strip condition)) ->
  _evaluate_condition (text (ws1 ++ chars condition ++ ws2)) context
  = _evaluate_condition condition context.
Proof.
  intros H1 H2 Hshape. unfold _evaluate_condition.
  assert (Hs : strip (text (ws1 ++ chars condition ++ ws2)) = strip condition)
    by (unfold strip; now rewrite chars_text, strip_chars_padded).
  rewrite Hs.
  pose proof (condition_pattern_groups (chars (strip condition))) as Hg.
  destruct (re_match condition_pattern (chars (strip condition)))
    as [[[|g1 [|g2 [|g3 [|g4 groups]]]] rest]|]; try contradiction.
  reflexivity.
Qed.

Lemma evaluate_ignores_padding_witness :
  _evaluate_condition (text (chars "  " ++ chars "$.n != 2" ++ chars " "))
    [("n", VInt 3)]
  = _evaluate_condition "$.n != 2" [("n", VInt 3)].
Proof.
  apply (evaluate_ignores_padding (chars "  ") (chars " ") "$.n != 2"
           [("n", VInt 3)] eq_refl eq_refl).
  exists (chars "n"), (chars " "), (chars "!="), (chars " "), (chars "2"), [].
  repeat split; discriminate.
Defined.

(* ================================================================== *)
(** ** More on resolved data and output mappings *)
(* ================================================================== *)

Lemma resolve_skeleton (py_repr : value -> string) (context : dict) :
  forall data,
    skeleton (_resolve_template_vars py_repr data context) = skeleton data.
Proof.
  fix IH 1. intros [ | b | z | q | s | l | d]; try reflexivity.
  - cbn [_resolve_template_vars skeleton]. f_equal.
    induction l as [|x l IHl]; [reflexivity|].
    cbn [map]. now rewrite IH, IHl.
  - cbn [_resolve_template_vars skeleton]. f_equal.
    induction d as [|[k x] d IHd]; [reflexivity|].
    cbn [map]. now rewrite IH, IHd.
Qed.

Lemma resolve_plain_data (py_repr : value -> string) (context : dict) :
  forall data,
    without_closing_brace data = true ->
    _resolve_template_vars py_repr data context = data.
Proof.
  fix IH 1. intros [ | b | z | q | s | l | d] H; try reflexivity.
  - cbn [_resolve_template_vars without_closing_brace] in *.
    unfold _resolve_template_string, re_sub.
    now rewrite re_sub_without_closing, text_chars.
  - cbn [_resolve_template_vars without_closing_brace] in *. f_equal.
    induction l as [|x l IHl]; [reflexivity|].
    cbn [map forallb] in *. apply andb_prop in H as [Hx Hl].
    now rewrite (IH x Hx), (IHl Hl).
  - cbn [_resolve_template_vars without_closing_brace] in *. f_equal.
    induction d as [|[k x] d IHd]; [reflexivity|].
    cbn [map forallb] in *. apply andb_prop in H as [Hx Hd].
    now rewrite (IH x Hx), (IHd Hd).
Qed.

(** X8.  Template resolution rewrites text leaves and nothing else: keys,
    list lengths and the leaves that are not texts stay as they are, at any
    depth; and a document none of whose texts holds a closing brace comes
    back unchanged. *)
Theorem resolve_vars_touches_texts_only (py_repr : value -> string)
  (data : value) (context : dict) :
  skeleton (_resolve_template_vars py_repr data context) = skeleton data
  /\ (without_closing_brace data = true ->
      _resolve_template_vars py_repr data context = data).
Proof.
  split; [apply resolve_skeleton | apply resolve_plain_data].
Qed.

Lemma resolve_vars_touches_texts_only_witness :
  let data := VDict [("{input.x}", VList [VStr "{input.x"; VInt 3])] in
  _resolve_template_vars (fun _ => "") data [("input", VDict [("x", VInt 1)])]
  = data.
Proof.
  exact (proj2 (resolve_vars_touches_texts_only (fun _ => "")
                  (VDict [("{input.x}", VList [VStr "{input.x"; VInt 3])])
                  [("input", VDict [("x", VInt 1)])]) eq_refl).
Defined.

Lemma dict_set_fresh (k : string) (v : value) (d : dict) :
  ~ In k (map fst d) -> dict_set k v d = d ++ [(k, v)].
Proof.
  induction d as [|[k' v'] d IH]; simpl; intros Hk; [reflexivity|].
  destruct (String.eqb k k') eqn:Hkk.
  - apply String.eqb_eq in Hkk. subst k'. tauto.
  - rewrite IH by tauto. reflexivity.
Qed.

Lemma map_one_text (data acc : dict) (k p : string) :
  map_one data acc (k, VStr p) = Ok (dict_set k (extract_field data p) acc).
Proof.
  unfold map_one, extract_field. now destruct (startswith "$." p).
Qed.

Lemma map_items_in_order (data : dict) (m : dict) :
  forall acc,
    forallb (fun kv => is_text (snd kv)) m = true ->
    NoDup (map fst acc ++ map fst m) ->
    map_items data acc m = Ok (acc ++ map (mapped_entry data) m).
Proof.
  induction m as [|[k v] m IH]; intros acc Htext Hnd.
  - simpl. now rewrite app_nil_r.
  - cbn [forallb snd] in Htext. apply andb_prop in Htext as [Hv Htext].
    destruct v; try discriminate.
    cbn [map_items]. rewrite map_one_text.
    cbn [map fst] in Hnd.
    rewrite dict_set_fresh.
    + rewrite IH; [| exact Htext |].
      * cbn [map mapped_entry fst snd]. now rewrite <- app_assoc.
      * rewrite map_app. cbn [map fst]. now rewrite <- app_assoc.
    + apply NoDup_remove_2 in Hnd. intros Hin. apply Hnd.
      apply in_or_app. now left.
Qed.

Lemma map_items_refuses (data : dict) (m : dict) :
  forall acc,
    forallb (fun kv => is_text (snd kv)) m = false ->
    map_items data acc m = Raise (AttributeError "startswith").
Proof.
  induction m as [|[k v] m IH]; intros acc Htext; [discriminate|].
  cbn [forallb snd] in Htext. cbn [map_items].
  destruct v; try reflexivity.
  rewrite map_one_text. apply IH. exact Htext.
Qed.

(** X9.  An output mapping whose paths are all texts yields one entry per
    item, under the item's key and in the order of the mapping, each holding
    the field its path extracts; a mapping with a path that is not a text
    raises [AttributeError] and yields nothing. *)
Theorem output_mapping_entries (data : dict) (m : dict) :
  NoDup (map fst m) ->
  if forallb (fun kv => is_text (snd kv)) m
  then _apply_output_mapping data (VDict m) = Ok (map (mapped_entry data) m)
  else _apply_output_mapping data (VDict m)
       = Raise (AttributeError "startswith").
Proof.
  intros Hnd. unfold _apply_output_mapping.
  destruct (forallb (fun kv => is_text (snd kv)) m) eqn:Htext.
  - now rewrite map_items_in_order.
  - now apply map_items_refuses.
Qed.

Lemma output_mapping_entries_witness :
  _apply_output_mapping
    [("response", VDict [("content", VStr "hi")]); ("task_id", VStr "t")]
    (VDict [("text", VStr "$.response.content"); ("id", VStr "task_id");
            ("none", VStr "$.response.missing.deeper")])
  = Ok [("text", VStr "hi"); ("id", VStr "t"); ("none", VNone)].
Proof.
  apply (output_mapping_entries
           [("response", VDict [("content", VStr "hi")]); ("task_id", VStr "t")]
           [("text", VStr "$.response.content"); ("id", VStr "task_id");
            ("none", VStr "$.response.missing.deeper")]).
  repeat constructor; simpl; intuition discriminate.
Defined.

(* ================================================================== *)
(** ** Reading and cancelling executions *)
(* ================================================================== *)

Lemma find_none_iff {A} (p : A -> bool) (l : list A) :
  (forall a, In a l -> p a = false) -> find p l = None.
Proof.
  induction l as [|a l IH]; simpl; intros H; [reflexivity|].
  rewrite (H a) by now left. apply IH. intros b Hb. apply H. now right.
Qed.

Lemma foreign_execution_hidden (tenant_id execution_id : nat) (t : tables) :
  (forall x, In x (executions t) -> ex_id x = execution_id ->
             ex_tenant_id x <> tenant_id) ->
  find_execution tenant_id execution_id t = None.
Proof.
  intros H. apply find_none_iff. intros x Hx.
  destruct (ex_id x =? execution_id) eqn:Hid; [|reflexivity].
  apply Nat.eqb_eq in Hid. apply (H x Hx) in Hid.
  apply Nat.eqb_neq in Hid. now rewrite Hid.
Qed.

Lemma insert_by_start_permutation (r : step_row) (l : list step_row) :
  Permutation (insert_by_start r l) (r :: l).
Proof.
  induction l as [|x l IH]; simpl; [reflexivity|].
  destruct (se_started_at r <=? se_started_at x)%Z; [reflexivity|].
  rewrite IH. apply perm_swap.
Qed.

Lemma order_by_started_at_permutation (l : list step_row) :
  Permutation (order_by_started_at l) l.
Proof.
  induction l as [|r l IH]; simpl; [reflexivity|].
  rewrite insert_by_start_permutation. now constructor.
Qed.

Lemma insert_by_start_sorted (r : step_row) (l : list step_row) :
  StronglySorted (fun a b => (se_started_at a <= se_started_at b)%Z) l ->
  StronglySorted (fun a b => (se_started_at a <= se_started_at b)%Z)
                 (insert_by_start r l).
Proof.
  induction 1 as [|x l Hl IH Hx]; simpl.
  - repeat constructor.
  - destruct (se_started_at r <=? se_started_at x)%Z eqn:Hle.
    + apply Z.leb_le in Hle. constructor; [now constructor|].
      constructor; [exact Hle|].
      eapply Forall_impl; [|exact Hx]. simpl. intros a Ha. lia.
    + apply Z.leb_gt in Hle. constructor; [exact IH|].
      rewrite (insert_by_start_permutation r l).
      constructor; [lia | exact Hx].
Qed.

Lemma order_by_started_at_sorted (l : list step_row) :
  StronglySorted (fun a b => (se_started_at a <= se_started_at b)%Z)
                 (order_by_started_at l).
Proof.
  induction l as [|r l IH]; simpl; [constructor|].
  now apply insert_by_start_sorted.
Qed.

Section ReadingAndCancelling.

Variable E : capabilities.
Variable tenant_id : nat.
Variable isoformat : Z -> string.
Variable str_exn : exn -> string.

(** X10.  An execution that belongs to another tenant is as good as
    absent: cancelling it and reading its status both raise the error of a
    missing execution, and the world is left as it was. *)
Theorem foreign_execution_not_found (execution_id : nat) (w : world) :
  (forall x, In x (executions (session w)) -> ex_id x = execution_id ->
             ex_tenant_id x <> tenant_id) ->
  cancel_workflow E tenant_id execution_id w
  = (Raise (not_found "Workflow execution" (uuid_text E execution_id)), w)
  /\ get_execution_status E tenant_id isoformat str_exn execution_id w
     = (Raise (not_found "Workflow execution" (uuid_text E execution_id)), w).
Proof.
  intros H. apply foreign_execution_hidden in H.
  unfold cancel_workflow, get_execution_status. rewrite H. split; reflexivity.
Qed.

(** What a successful cancellation leaves behind. *)
Lemma cancel_workflow_runs (execution_id : nat) (w : world) (x : execution_row) :
  find_execution tenant_id execution_id (session w) = Some x ->
  ex_status x = "pending" \/ ex_status x = "running" ->
  exists w',
    cancel_workflow E tenant_id execution_id w
    = (Ok (execution_cancelled (clock E (ticks w)) x), w')
    /\ find_execution tenant_id execution_id (session w')
       = Some (execution_cancelled (clock E (ticks w)) x)
    /\ steps (session w') = steps (session w)
    /\ database w' = session w'.
Proof.
  intros Hfind Hs.
  assert (Hgate : negb (String.eqb (ex_status x) "pending"
                         || String.eqb (ex_status x) "running") = false).
  { destruct Hs as [Hs | Hs]; rewrite Hs; reflexivity. }
  unfold cancel_workflow. rewrite Hfind, Hgate.
  unfold find_execution in Hfind.
  pose proof (cancelled_row_found tenant_id execution_id (clock E (ticks w)) _ _ Hfind)
    as Hrow.
  unfold bind, now, update_execution, commit, with_session, with_executions,
    find_execution. simpl.
  rewrite Hrow.
  eexists. split; [reflexivity|].
  simpl. repeat split; try reflexivity. exact Hrow.
Qed.

(** X11.  Cancelling is final: once an execution has been cancelled, a
    second cancellation is refused with the status [cancelled] and changes
    nothing, and the status read back is [cancelled], with the time of the
    cancellation as completion time. *)
Theorem cancel_workflow_is_final (execution_id : nat) (w : world)
  (x : execution_row) :
  find_execution tenant_id execution_id (session w) = Some x ->
  ex_status x = "pending" \/ ex_status x = "running" ->
  let w' := snd (cancel_workflow E tenant_id execution_id w) in
  cancel_workflow E tenant_id execution_id w'
  = (Raise (invalid_state "cancelled"), w')
  /\ exists d,
      get_execution_status E tenant_id isoformat str_exn execution_id w'
      = (Ok d, w')
      /\ dict_find "status" d = Some (VStr "cancelled")
      /\ dict_find "completed_at" d
         = Some (VStr (isoformat (clock E (ticks w)))).
Proof.
  intros Hfind Hs w'.
  destruct (cancel_workflow_runs execution_id w x Hfind Hs)
    as (w1 & Hrun & Hfound & _ & _).
  subst w'. rewrite Hrun. cbn [snd]. split.
  - unfold cancel_workflow. rewrite Hfound. reflexivity.
  - unfold get_execution_status. rewrite Hfound.
    eexists. split; [reflexivity|]. split; reflexivity.
Qed.

(** X12.  The status of an execution is read without writing anything.
    Its [steps] are the step rows of that execution, each once, in
    ascending order of their start time, and its [status] is the one of the
    execution row. *)
Theorem execution_status_steps (execution_id : nat) (w : world)
  (x : execution_row) :
  find_execution tenant_id execution_id (session w) = Some x ->
  exists d rows,
    get_execution_status E tenant_id isoformat str_exn execution_id w = (Ok d, w)
    /\ dict_find "status" d = Some (VStr (ex_status x))
    /\ dict_find "steps" d = Some (VList (map (step_summary str_exn) rows))
    /\ Permutation rows
         (filter (fun r => se_workflow_execution_id r =? execution_id)
                 (steps (session w)))
    /\ StronglySorted (fun a b => (se_started_at a <= se_started_at b)%Z) rows.
Proof.
  intros Hfind. unfold get_execution_status. rewrite Hfind.
  eexists. exists (status_rows execution_id (session w)).
  split; [reflexivity|]. split; [reflexivity|]. split; [reflexivity|].
  split; [apply order_by_started_at_permutation
         | apply order_by_started_at_sorted].
Qed.

End ReadingAndCancelling.

Lemma foreign_execution_not_found_witness :
  let w := Sample.world_of [] [Sample.execution_in "running"] in
  cancel_workflow Sample.answering 8 0 w
  = (Raise (not_found "Workflow execution" (uuid_text Sample.answering 0)), w).
Proof.
  refine (proj1 (foreign_execution_not_found Sample.answering 8
                   (fun _ => "") (fun _ => "") 0
                   (Sample.world_of [] [Sample.execution_in "running"]) _)).
  intros x [<- | []] _. discriminate.
Defined.

Lemma cancel_workflow_is_final_witness :
  let w := Sample.world_of [] [Sample.execution_in "running"] in
  let w' := snd (cancel_workflow Sample.answering Sample.tenant 0 w) in
  cancel_workflow Sample.answering Sample.tenant 0 w'
  = (Raise (invalid_state "cancelled"), w').
Proof.
  exact (proj1 (cancel_workflow_is_final Sample.answering Sample.tenant
                  (fun _ => "") (fun _ => "") 0
                  (Sample.world_of [] [Sample.execution_in "running"])
                  (Sample.execution_in "running") eq_refl (or_intror eq_refl))).
Defined.

Lemma execution_status_steps_witness :
  let steps_ := [VDict (("name", VStr "first") :: Sample.http_step);
                 VDict (("name", VStr "second") :: Sample.http_step)] in
  let w := snd (execute_workflow Sample.answering Sample.tenant 1 0
                  (VDict [("x", VStr "a")]) None (Sample.world_of steps_ [])) in
  exists d rows,
    get_execution_status Sample.answering Sample.tenant (fun _ => "")
      (fun _ => "") 0 w = (Ok d, w)
    /\ dict_find "status" d = Some (VStr "completed")
    /\ dict_find "steps" d = Some (VList (map (step_summary (fun _ => "")) rows))
    /\ List.length rows = 2
    /\ StronglySorted (fun a b => (se_started_at a <= se_started_at b)%Z) rows.
Proof.
  intros steps_ w.
  pose (x := match find_execution Sample.tenant 0 (session w) with
             | Some x => x
             | None => Sample.execution_in ""
             end).
  assert (Hfind : find_execution Sample.tenant 0 (session w) = Some x)
    by (vm_compute; reflexivity).
  destruct (execution_status_steps Sample.answering Sample.tenant
              (fun _ => "") (fun _ => "") 0 w x Hfind)
    as (d & rows & Hrun & Hstatus & Hsteps & Hperm & Hsorted).
  exists d, rows. split; [exact Hrun|].
  split; [rewrite Hstatus; vm_compute; reflexivity|].
  split; [exact Hsteps|]. split; [|exact Hsorted].
  apply Permutation_length in Hperm. rewrite Hperm. vm_compute. reflexivity.
Defined.

(* ================================================================== *)
(** ** The step loop *)
(* ================================================================== *)

Lemma bind_assoc {A B C} (m : M A) (k : A -> M B) (h : B -> M C) (w : world) :
  bind (bind m k) h w = bind m (fun a => bind (k a) h) w.
Proof. unfold bind. destruct (m w) as [[a|e] w1]; reflexivity. Qed.

Lemma bind_ext {A B} (m : M A) (k k' : A -> M B) (w : world) :
  (forall a w1, k a w1 = k' a w1) -> bind m k w = bind m k' w.
Proof. intros H. unfold bind. destruct (m w) as [[a|e] w1]; auto. Qed.

Lemma bind_ok {A B} (m : M A) (k : A -> M B) (w w' : world) (b : B) :
  bind m k w = (Ok b, w') ->
  exists a w1, m w = (Ok a, w1) /\ k a w1 = (Ok b, w').
Proof.
  unfold bind. destruct (m w) as [[a|e] w1]; [eauto | discriminate].
Qed.

Lemma dict_mem_set (k k' : string) (v : value) (d : dict) :
  dict_mem k' (dict_set k v d) = String.eqb k' k || dict_mem k' d.
Proof.
  unfold dict_mem. destruct (String.eqb k' k) eqn:Hk.
  - apply String.eqb_eq in Hk. subst k'. now rewrite dict_find_set_same.
  - apply String.eqb_neq in Hk. now rewrite dict_find_set_other.
Qed.

Section StepLoop.

Variable E : capabilities.
Variable tenant_id : nat.

(** X13.  Running a list of steps is running a first part and then, from
    the context and the world it leaves, the rest; a failure in the first
    part is the failure of the whole. *)
Theorem execute_steps_app (fuel execution : nat) (first rest : list value) :
  forall (context : dict) (w : world),
    _execute_steps E tenant_id fuel execution (first ++ rest) context w
    = bind (_execute_steps E tenant_id fuel execution first context)
           (fun context' =>
              _execute_steps E tenant_id fuel execution rest context') w.
Proof.
  induction first as [|step first IH]; intros context w.
  - reflexivity.
  - cbn [app _execute_steps].
    rewrite bind_assoc. apply bind_ext. intros d w1.
    rewrite bind_assoc. apply bind_ext. intros [] w2.
    rewrite bind_assoc. apply bind_ext. intros res w3.
    rewrite bind_assoc. apply bind_ext. intros context' w4.
    apply IH.
Qed.

(** The name under which a step's output enters the context. *)
Lemma execute_steps_cons_ok (fuel execution : nat) (step : value)
  (rest : list value) (context context' : dict) (w w' : world) :
  _execute_steps E tenant_id fuel execution (step :: rest) context w
  = (Ok context', w') ->
  exists d name res w1,
    step = VDict d
    /\ dict_get_default d "name" (VStr "unnamed_step") = VStr name
    /\ _execute_steps E tenant_id fuel execution rest
         (dict_set name res context) w1 = (Ok context', w').
Proof.
  cbn [_execute_steps]. intros H.
  apply bind_ok in H as (d & w1 & Hd & H).
  apply bind_ok in H as ([] & w2 & _ & H).
  apply bind_ok in H as (res & w3 & _ & H).
  apply bind_ok in H as (c & w4 & Hc & H).
  unfold lift in Hd, Hc. injection Hd as Hd <-.
  destruct step; try discriminate. injection Hd as ->.
  unfold context_set in Hc.
  destruct (dict_get_default d "name" (VStr "unnamed_step")) eqn:Hname;
    try discriminate.
  injection Hc as <- <-. eauto 8.
Qed.

(** X14.  The context only grows along the step loop: when the loop
    returns, every key of the starting context is still there, a key that
    no step is named after holds the value it held, and every step has left
    an entry under its name. *)
Theorem execute_steps_context (fuel execution : nat) (steps_ : list value) :
  forall (context context' : dict) (w w' : world),
    _execute_steps E tenant_id fuel execution steps_ context w
    = (Ok context', w') ->
    (forall k, dict_mem k context = true -> dict_mem k context' = true)
    /\ (forall k,
          (forall d, In (VDict d) steps_ ->
                     dict_get_default d "name" (VStr "unnamed_step") <> VStr k) ->
          dict_find k context' = dict_find k context)
    /\ (forall d, In (VDict d) steps_ ->
                  exists name,
                    dict_get_default d "name" (VStr "unnamed_step") = VStr name
                    /\ dict_mem name context' = true).
Proof.
  induction steps_ as [|step rest IH]; intros context context' w w' H.
  - cbn [_execute_steps] in H. injection H as <- <-.
    repeat split; auto. intros d [].
  - apply execute_steps_cons_ok in H
      as (d & name & res & w1 & -> & Hname & H).
    destruct (IH _ _ _ _ H) as (Hkeep & Hsame & Hnamed).
    split; [|split].
    + intros k Hk. apply Hkeep. rewrite dict_mem_set, Hk. apply orb_true_r.
    + intros k Hk. rewrite Hsame.
      * apply dict_find_set_other. intros ->.
        apply (Hk d); [now left | exact Hname].
      * intros d' Hd'. apply Hk. now right.
    + intros d' [Hd' | Hd'].
      * injection Hd' as <-. exists name. split; [exact Hname|].
        apply Hkeep. rewrite dict_mem_set, String.eqb_refl. reflexivity.
      * now apply Hnamed.
Qed.

End StepLoop.

(** Two HTTP steps, [first] and [second], from the initial context. *)
Lemma execute_steps_context_witness :
  let steps_ := [VDict (("name", VStr "first") :: Sample.http_step);
                 VDict (("name", VStr "second") :: Sample.http_step)] in
  let w := Sample.world_of steps_ [Sample.execution_in "running"] in
  let run := _execute_steps Sample.answering Sample.tenant 1 0 steps_
               [("input", VDict [("x", VInt 1)])] w in
  exists context',
    fst run = Ok context'
    /\ dict_find "input" context' = Some (VDict [("x", VInt 1)])
    /\ dict_mem "second" context' = true.
Proof.
  intros steps_ w run.
  pose (final := match fst run with Ok c => c | Raise _ => [] end).
  assert (H : run = (Ok final, snd run)) by (vm_compute; reflexivity).
  exists final. split; [rewrite H; reflexivity|].
  destruct (execute_steps_context Sample.answering Sample.tenant 1 0 steps_
              [("input", VDict [("x", VInt 1)])] final w (snd run) H)
    as (_ & Hsame & Hnamed).
  split.
  - rewrite (Hsame "input"); [reflexivity|].
    intros d [Hd | [Hd | []]]; injection Hd as <-; discriminate.
  - destruct (Hnamed (("name", VStr "second") :: Sample.http_step))
      as (name & Hname & Hmem).
    + right. now left.
    + injection Hname as <-. exact Hmem.
Defined.

(* ================================================================== *)
(** ** Invariants of a run *)
(* ================================================================== *)

Section Relating.

Variable R : world -> world -> Prop.
Hypothesis R_refl : forall w, R w w.
Hypothesis R_trans : forall w1 w2 w3, R w1 w2 -> R w2 w3 -> R w1 w3.

Lemma relates_same {A} (m : M A) :
  (forall w, snd (m w) = w) -> relates R m.
Proof. intros H w. rewrite H. apply R_refl. Qed.

Lemma relates_bind {A B} (m : M A) (k : A -> M B) :
  relates R m -> (forall a, relates R (k a)) -> relates R (bind m k).
Proof.
  intros Hm Hk w. unfold bind. specialize (Hm w).
  destruct (m w) as [[a|e] w1]; cbn [snd] in *.
  - eapply R_trans; [exact Hm | apply Hk].
  - exact Hm.
Qed.

Lemma relates_attempt {A} (m : M A) : relates R m -> relates R (attempt m).
Proof.
  intros Hm w. unfold attempt. specialize (Hm w).
  destruct (m w) as [r w1]. exact Hm.
Qed.

End Relating.

Lemma read_only_may_retry (se : nat) (step : dict) (w : world) :
  snd (may_retry se step w) = w.
Proof. unfold may_retry. now destruct (find_step se (session w)). Qed.

Lemma read_only_agent_prepare (E : capabilities) (tenant_id : nat)
  (agent_id : string) (step context : dict) (w : world) :
  snd (agent_prepare E tenant_id agent_id step context w) = w.
Proof.
  unfold agent_prepare.
  destruct (find_agent tenant_id agent_id (session w)); [|reflexivity].
  now destruct (resolve_vars E _ context).
Qed.

Lemma read_only_get_execution (id : nat) (w : world) :
  snd (get_execution id w) = w.
Proof.
  unfold get_execution.
  now destruct (find (fun x => ex_id x =? id) (executions (session w))).
Qed.

(** *** Writes are confined to the execution *)

Lemma confined_refl (execution : nat) (w : world) : confined execution w w.
Proof.
  repeat split; auto; exists []; now rewrite app_nil_r.
Qed.

Lemma confined_trans (execution : nat) (w1 w2 w3 : world) :
  confined execution w1 w2 -> confined execution w2 w3 ->
  confined execution w1 w3.
Proof.
  intros ((n1 & Hs1 & Hn1) & (t1 & Ht1 & Hm1) & Hx1 & Hw1 & Ha1)
         ((n2 & Hs2 & Hn2) & (t2 & Ht2 & Hm2) & Hx2 & Hw2 & Ha2).
  repeat split.
  - exists (n1 ++ n2). rewrite Hs2, Hs1, app_assoc. split; [reflexivity|].
    apply Forall_app. now split.
  - exists (t1 ++ t2). rewrite Ht2, Ht1, app_assoc. split; [reflexivity|].
    apply Forall_app. now split.
  - intros x Hx Hne. apply Hx2; [now apply Hx1 | exact Hne].
  - now rewrite Hw2.
  - now rewrite Ha2.
Qed.

Lemma confines_same_session (execution : nat) {A} (m : M A) :
  (forall w, session (snd (m w)) = session w) -> confines execution m.
Proof.
  intros H w. unfold confined. rewrite H.
  repeat split; auto; exists []; now rewrite app_nil_r.
Qed.

Lemma confines_bind (execution : nat) {A B} (m : M A) (k : A -> M B) :
  confines execution m -> (forall a, confines execution (k a)) ->
  confines execution (bind m k).
Proof.
  apply relates_bind. intros w1 w2 w3. apply confined_trans.
Qed.

Lemma confines_attempt (execution : nat) {A} (m : M A) :
  confines execution m -> confines execution (attempt m).
Proof. apply relates_attempt. Qed.

Lemma confines_ret (execution : nat) {A} (a : A) : confines execution (ret a).
Proof. now apply confines_same_session. Qed.

Lemma confines_raise (execution : nat) {A} (e : exn) :
  confines execution (@raise A e).
Proof. now apply confines_same_session. Qed.

Lemma confines_lift (execution : nat) {A} (r : result A) :
  confines execution (lift r).
Proof. now apply confines_same_session. Qed.

Lemma confines_commit (execution : nat) : confines execution commit.
Proof. now apply confines_same_session. Qed.

Lemma confines_now (E : capabilities) (execution : nat) :
  confines execution (now E).
Proof. now apply confines_same_session. Qed.

Lemma confines_call (execution : nat) {A} (f : nat -> result A) :
  confines execution (call f).
Proof. now apply confines_same_session. Qed.

Lemma confines_may_retry (execution se : nat) (step : dict) :
  confines execution (may_retry se step).
Proof.
  apply confines_same_session. intros w. now rewrite read_only_may_retry.
Qed.

Lemma confines_agent_prepare (E : capabilities) (tenant_id execution : nat)
  (agent_id : string) (step context : dict) :
  confines execution (agent_prepare E tenant_id agent_id step context).
Proof.
  apply confines_same_session. intros w. now rewrite read_only_agent_prepare.
Qed.

Lemma confines_get_execution (execution id : nat) :
  confines execution (get_execution id).
Proof.
  apply confines_same_session. intros w. now rewrite read_only_get_execution.
Qed.

Lemma confines_add_step (execution : nat) name type agent input started_at :
  confines execution (add_step execution name type agent input started_at).
Proof.
  intros w. repeat split; simpl; auto.
  - exists [execution]. rewrite map_app. split; [reflexivity|].
    now constructor.
  - exists []. now rewrite app_nil_r.
Qed.

Lemma confines_add_task (execution : nat) agent instruction context priority :
  confines execution (add_task execution agent instruction context priority).
Proof.
  intros w. repeat split; simpl; auto.
  - exists []. now rewrite app_nil_r.
  - exists [execution]. rewrite map_app. split; [reflexivity|].
    now constructor.
Qed.

Lemma confines_update_step (execution id : nat) (f : step_row -> step_row) :
  (forall r, se_workflow_execution_id (f r) = se_workflow_execution_id r) ->
  confines execution (update_step id f).
Proof.
  intros Hf w. repeat split; simpl; auto.
  - exists []. rewrite app_nil_r. split; [|constructor].
    now apply map_update_key.
  - exists []. now rewrite app_nil_r.
Qed.

Lemma confines_update_task (execution id : nat) (f : task_row -> task_row) :
  (forall t, task_workflow_execution_id (f t) = task_workflow_execution_id t) ->
  confines execution (update_task id f).
Proof.
  intros Hf w. repeat split; simpl; auto.
  - exists []. now rewrite app_nil_r.
  - exists []. rewrite app_nil_r. split; [|constructor].
    now apply map_update_key.
Qed.

Lemma confines_update_execution (execution : nat)
  (f : execution_row -> execution_row) :
  confines execution (update_execution execution f).
Proof.
  intros w. repeat split; simpl; auto.
  - exists []. now rewrite app_nil_r.
  - exists []. now rewrite app_nil_r.
  - intros x Hx Hne. apply in_map_iff. exists x. split; [|exact Hx].
    apply Nat.eqb_neq in Hne. now rewrite Hne.
Qed.

Create HintDb confines.

#[export] Hint Resolve confines_ret confines_raise confines_lift
  confines_commit confines_now confines_call confines_may_retry
  confines_agent_prepare confines_get_execution confines_add_step
  confines_add_task confines_update_execution : confines.

Ltac confine_step :=
  first
    [ solve [auto with confines]
    | apply confines_update_step; intros []; reflexivity
    | apply confines_update_task; intros []; reflexivity
    | apply confines_attempt
    | apply confines_bind; [| intros ?]
    | match goal with
      | |- confines _ (match ?x with _ => _ end) => destruct x
      | |- confines _ (if ?b then _ else _) => destruct b
      end ].

Ltac confine := repeat confine_step.

Section Confinement.

Variable E : capabilities.
Variable tenant_id : nat.
Variable execution : nat.

Lemma confines_create_step_execution name type agent input :
  confines execution (create_step_execution E execution name type agent input).
Proof. unfold create_step_execution. confine. Qed.

Lemma confines_agent_run se task agent_id step instruction context :
  confines execution (agent_run E se task agent_id step instruction context).
Proof. unfold agent_run. confine. Qed.

#[local] Hint Resolve confines_create_step_execution confines_agent_run
  : confines.

Lemma confines_agent_step (fuel : nat) :
  forall step context,
    confines execution (_execute_agent_step E tenant_id fuel execution step context).
Proof.
  induction fuel as [|fuel IH]; intros step context; simpl; confine.
Qed.

Lemma confines_mcp_tool_step (fuel : nat) :
  forall step context,
    confines execution (_execute_mcp_tool_step E fuel execution step context).
Proof.
  induction fuel as [|fuel IH]; intros step context; simpl; confine.
Qed.

Lemma confines_http_step step context :
  confines execution (_execute_http_step E execution step context).
Proof. unfold _execute_http_step. confine. Qed.

#[local] Hint Resolve confines_agent_step confines_mcp_tool_step
  confines_http_step : confines.

Lemma confines_single_step fuel step context :
  confines execution (_execute_single_step E tenant_id fuel execution step context).
Proof. unfold _execute_single_step. confine. Qed.

#[local] Hint Resolve confines_single_step : confines.

Lemma confines_run_tasks fuel items context :
  confines execution (run_tasks E tenant_id fuel execution items context).
Proof. induction items as [|item items IH]; simpl; confine. Qed.

#[local] Hint Resolve confines_run_tasks : confines.

Lemma confines_parallel_step fuel step context :
  confines execution (_execute_parallel_step E tenant_id fuel execution step context).
Proof. unfold _execute_parallel_step. confine. Qed.

Lemma confines_conditional_step fuel step context :
  confines execution
    (_execute_conditional_step E tenant_id fuel execution step context).
Proof. unfold _execute_conditional_step. confine. Qed.

#[local] Hint Resolve confines_parallel_step confines_conditional_step
  : confines.

Lemma confines_dispatch_step fuel step context :
  confines execution (dispatch_step E tenant_id fuel execution step context).
Proof. unfold dispatch_step. confine. Qed.

Lemma confines_set_current_step name :
  confines execution (set_current_step execution name).
Proof. unfold set_current_step. confine. Qed.

#[local] Hint Resolve confines_dispatch_step confines_set_current_step
  : confines.

Lemma confines_execute_steps fuel :
  forall steps_ context,
    confines execution (_execute_steps E tenant_id fuel execution steps_ context).
Proof.
  induction steps_ as [|step rest IH]; intros context; simpl; confine.
Qed.

End Confinement.

#[export] Hint Resolve confines_create_step_execution confines_agent_run
  confines_agent_step confines_mcp_tool_step confines_http_step
  confines_single_step confines_run_tasks confines_parallel_step
  confines_conditional_step confines_dispatch_step confines_set_current_step
  confines_execute_steps : confines.

Lemma bind_run {A B} (m : M A) (k : A -> M B) (w w1 : world) (a : A) :
  m w = (Ok a, w1) -> bind m k w = k a w1.
Proof. intros H. unfold bind. now rewrite H. Qed.

Lemma frames_get_execution (id : nat) : frames (get_execution id).
Proof. intros w. rewrite read_only_get_execution. apply extends_refl. Qed.

#[export] Hint Resolve frames_get_execution : frames.

(** [# Create workflow execution]: one row more, a clock reading, and a
    commit. *)
Lemma start_execution_runs (E : capabilities) (tenant_id workflow_id : nat)
  (input_data : value) (context : option dict) (w : world) :
  exists row w1,
    start_execution E tenant_id workflow_id input_data context w
    = (Ok (List.length (executions (session w))), w1)
    /\ executions (session w1) = executions (session w) ++ [row]
    /\ ex_id row = List.length (executions (session w))
    /\ ex_tenant_id row = tenant_id
    /\ ex_workflow_id row = workflow_id
    /\ ex_started_at row = clock E (ticks w)
    /\ steps (session w1) = steps (session w)
    /\ tasks (session w1) = tasks (session w)
    /\ workflows (session w1) = workflows (session w)
    /\ agents (session w1) = agents (session w)
    /\ ticks w1 = S (ticks w)
    /\ database w1 = session w1.
Proof.
  open_world w. run_engine. eexists. eexists.
  split; [reflexivity|]. cbn. repeat split.
Qed.

Section WorkflowConfinement.

Variable E : capabilities.
Variable tenant_id : nat.

(** X15.  A call to [execute_workflow] writes for its own execution only:
    every execution row that was there is still there, unchanged, and at
    most one is added; the step rows and tasks it adds belong to the new
    execution; the tables of workflows and agents are as they were.  This
    holds whether the call returns or raises. *)
Theorem execute_workflow_confined (fuel workflow_id : nat) (input_data : value)
  (context : option dict) (w : world) :
  execution_ids_fresh (session w) ->
  let n := List.length (executions (session w)) in
  let w' := snd (execute_workflow E tenant_id fuel workflow_id input_data
                   context w) in
  (forall x, In x (executions (session w)) -> In x (executions (session w')))
  /\ List.length (executions (session w')) <= S n
  /\ workflows (session w') = workflows (session w)
  /\ agents (session w') = agents (session w)
  /\ (exists new,
        map se_workflow_execution_id (steps (session w'))
        = map se_workflow_execution_id (steps (session w)) ++ new
        /\ Forall (eq n) new)
  /\ (exists new,
        map task_workflow_execution_id (tasks (session w'))
        = map task_workflow_execution_id (tasks (session w)) ++ new
        /\ Forall (eq n) new).
Proof.
  intros Hfresh n w'. subst w'.
  assert (Hsame : confined n w w -> List.length (executions (session w)) <= S n ->
                  (forall x, In x (executions (session w)) ->
                             In x (executions (session w)))
                  /\ List.length (executions (session w)) <= S n
                  /\ workflows (session w) = workflows (session w)
                  /\ agents (session w) = agents (session w)
                  /\ (exists new,
                        map se_workflow_execution_id (steps (session w))
                        = map se_workflow_execution_id (steps (session w)) ++ new
                        /\ Forall (eq n) new)
                  /\ (exists new,
                        map task_workflow_execution_id (tasks (session w))
                        = map task_workflow_execution_id (tasks (session w)) ++ new
                        /\ Forall (eq n) new)).
  { intros (Hs & Ht & _ & _ & _) Hlen. repeat split; auto. }
  unfold execute_workflow.
  destruct (find_workflow tenant_id workflow_id (session w)) as [workflow|];
    [|apply Hsame; [apply confined_refl | subst n; lia]].
  destruct (negb (String.eqb (wf_status workflow) "active"));
    [apply Hsame; [apply confined_refl | subst n; lia]|].
  clear Hsame.
  destruct (start_execution_runs E tenant_id workflow_id input_data context w)
    as (row & w1 & Hrun & Hexs & Hid & _ & _ & _ & Hsteps & Htasks & Hwfs & Hags & _).
  match goal with
  | |- context [bind (start_execution _ _ _ _ _) ?K] =>
      assert (HK : forall id, confines id (K id))
        by (intros id; cbv beta; confine);
      assert (HF : forall id, frames (K id))
        by (intros id; cbv beta; frame);
      rewrite (bind_run _ K _ _ _ Hrun);
      specialize (HK n w1); specialize (HF n w1)
  end.
  subst n. cbv beta in *.
  match goal with
  | |- context [executions (session (snd ?run))] => set (w' := snd run) in *
  end.
  clearbody w'.
  destruct HK as ((new & Hnew & Hown) & (tnew & Htnew & Htown) & Hothers & Hw & Ha).
  destruct HF as (Hids & _ & _).
  split; [|split; [|split; [|split; [|split]]]].
  - intros x Hx. apply Hothers.
    + rewrite Hexs. apply in_or_app. now left.
    + unfold execution_ids_fresh in Hfresh. rewrite Forall_forall in Hfresh.
      specialize (Hfresh x Hx). simpl in Hfresh. lia.
  - apply (f_equal (@List.length nat)) in Hids. rewrite !length_map in Hids.
    rewrite Hids, Hexs, length_app. simpl. lia.
  - now rewrite Hw.
  - now rewrite Ha.
  - exists new. rewrite Hnew, Hsteps. now split.
  - exists tnew. rewrite Htnew, Htasks. now split.
Qed.

End WorkflowConfinement.

(** A workflow that fails, next to an execution that was there before. *)
Lemma execute_workflow_confined_witness :
  let w := Sample.world_of [VDict (Sample.agent_step "A" 0)]
             [Sample.execution_in "completed"] in
  let w' := snd (execute_workflow Sample.failing Sample.tenant 2 0
                   (VDict [("x", VStr "go?")]) None w) in
  In (Sample.execution_in "completed") (executions (session w'))
  /\ List.length (executions (session w')) <= 2.
Proof.
  intros w w'.
  assert (Hfresh : execution_ids_fresh (session w))
    by (repeat constructor).
  destruct (execute_workflow_confined Sample.failing Sample.tenant 2 0
              (VDict [("x", VStr "go?")]) None w Hfresh) as (Hin & Hlen & _).
  split; [apply Hin; now left | exact Hlen].
Defined.

(** *** Generic rules for invariants *)

Lemma keeps_bind (I : world -> Prop) {A B} (m : M A) (k : A -> M B) :
  keeps I m -> (forall a, keeps I (k a)) -> keeps I (bind m k).
Proof. apply relates_bind. auto. Qed.

Lemma keeps_attempt (I : world -> Prop) {A} (m : M A) :
  keeps I m -> keeps I (attempt m).
Proof. apply relates_attempt. Qed.

Lemma keeps_same (I : world -> Prop) {A} (m : M A) :
  (forall w, snd (m w) = w) -> keeps I m.
Proof. apply relates_same. auto. Qed.

Lemma keeps_ret (I : world -> Prop) {A} (a : A) : keeps I (ret a).
Proof. now apply keeps_same. Qed.

Lemma keeps_raise (I : world -> Prop) {A} (e : exn) : keeps I (@raise A e).
Proof. now apply keeps_same. Qed.

Lemma keeps_lift (I : world -> Prop) {A} (r : result A) : keeps I (lift r).
Proof. now apply keeps_same. Qed.

Lemma keeps_may_retry (I : world -> Prop) (se : nat) (step : dict) :
  keeps I (may_retry se step).
Proof. apply keeps_same. apply read_only_may_retry. Qed.

Lemma keeps_agent_prepare (I : world -> Prop) (E : capabilities)
  (tenant_id : nat) (agent_id : string) (step context : dict) :
  keeps I (agent_prepare E tenant_id agent_id step context).
Proof. apply keeps_same. apply read_only_agent_prepare. Qed.

Lemma keeps_get_execution (I : world -> Prop) (id : nat) :
  keeps I (get_execution id).
Proof. apply keeps_same. apply read_only_get_execution. Qed.

Create HintDb keeps.

#[export] Hint Resolve keeps_ret keeps_raise keeps_lift keeps_may_retry
  keeps_agent_prepare keeps_get_execution : keeps.

(** *** Earlier step rows are never rewritten *)

Lemma firstn_length_le {A} (n : nat) (l base : list A) :
  firstn n l = base -> List.length base = n -> n <= List.length l.
Proof.
  intros H Hn. rewrite <- Hn, <- H, length_firstn. lia.
Qed.

Lemma map_untouched {A} (f : A -> A) (l : list A) :
  Forall (fun a => f a = a) l -> map f l = l.
Proof.
  induction 1 as [|a l Ha _ IH]; simpl; [reflexivity|]. now rewrite Ha, IH.
Qed.

Lemma create_step_execution_runs (E : capabilities) (execution : nat)
  (name : value) (type : string) (agent : option string) (input : value)
  (w : world) :
  exists w1,
    create_step_execution E execution name type agent input w
    = (Ok (List.length (steps (session w))), w1)
    /\ steps (session w1)
       = steps (session w)
         ++ [ {| se_id := List.length (steps (session w));
                 se_workflow_execution_id := execution;
                 se_step_name := name;
                 se_step_type := type;
                 se_agent_id := agent;
                 se_input_data := input;
                 se_output_data := VNone;
                 se_status := "running";
                 se_error_message := None;
                 se_retry_count := 0%Z;
                 se_started_at := clock E (ticks w);
                 se_completed_at := None;
                 se_duration_seconds := None |} ]
    /\ tasks (session w1) = tasks (session w)
    /\ executions (session w1) = executions (session w)
    /\ workflows (session w1) = workflows (session w)
    /\ agents (session w1) = agents (session w)
    /\ ticks w1 = S (ticks w)
    /\ calls w1 = calls w
    /\ database w1 = session w1.
Proof.
  open_world w. run_engine. eexists. split; [reflexivity|].
  cbn. repeat split.
Qed.

Section EarlierRows.

Variable E : capabilities.
Variable tenant_id : nat.
Variable base : list step_row.
Hypothesis base_ids : Forall (fun r => se_id r < List.length base) base.

Lemma rows_kept_same_steps {A} (m : M A) :
  (forall w, steps (session (snd (m w))) = steps (session w)) ->
  keeps (rows_kept base) m.
Proof. intros H w Hw. unfold rows_kept in *. now rewrite H. Qed.

Lemma rows_kept_now : keeps (rows_kept base) (now E).
Proof. now apply rows_kept_same_steps. Qed.

Lemma rows_kept_call {A} (f : nat -> result A) : keeps (rows_kept base) (call f).
Proof. now apply rows_kept_same_steps. Qed.

Lemma rows_kept_commit : keeps (rows_kept base) commit.
Proof. now apply rows_kept_same_steps. Qed.

Lemma rows_kept_update_task id f : keeps (rows_kept base) (update_task id f).
Proof. now apply rows_kept_same_steps. Qed.

Lemma rows_kept_update_execution id f :
  keeps (rows_kept base) (update_execution id f).
Proof. now apply rows_kept_same_steps. Qed.

Lemma rows_kept_add_task execution agent instruction context priority :
  keeps (rows_kept base)
        (add_task execution agent instruction context priority).
Proof. now apply rows_kept_same_steps. Qed.

Lemma rows_kept_add_execution tenant workflow input context started_at :
  keeps (rows_kept base)
        (add_execution tenant workflow input context started_at).
Proof. now apply rows_kept_same_steps. Qed.

Lemma rows_kept_update_step (se : nat) (f : step_row -> step_row) :
  List.length base <= se -> keeps (rows_kept base) (update_step se f).
Proof.
  intros Hse w Hw. unfold rows_kept in *. simpl.
  rewrite firstn_map, Hw. apply map_untouched.
  eapply Forall_impl; [|exact base_ids]. intros r Hr. simpl in Hr.
  destruct (se_id r =? se) eqn:Hid; [|reflexivity].
  apply Nat.eqb_eq in Hid. lia.
Qed.

Lemma rows_kept_created {A} execution name type agent input (k : nat -> M A) :
  (forall se, List.length base <= se -> keeps (rows_kept base) (k se)) ->
  keeps (rows_kept base)
        (bind (create_step_execution E execution name type agent input) k).
Proof.
  intros Hk w Hw.
  destruct (create_step_execution_runs E execution name type agent input w)
    as (w1 & Hrun & Hsteps & _).
  rewrite (bind_run _ k _ _ _ Hrun).
  pose proof (firstn_length_le _ _ _ Hw eq_refl) as Hlen.
  apply (Hk _ Hlen). unfold rows_kept in *. rewrite Hsteps.
  rewrite firstn_app. replace (List.length base - List.length (steps (session w)))
    with 0 by lia.
  simpl. now rewrite app_nil_r.
Qed.

#[local] Hint Resolve rows_kept_now rows_kept_call rows_kept_commit
  rows_kept_update_task rows_kept_update_execution rows_kept_add_task
  rows_kept_add_execution : keeps.

Lemma rows_kept_agent_run se task agent_id step instruction context :
  List.length base <= se ->
  keeps (rows_kept base)
        (agent_run E se task agent_id step instruction context).
Proof.
  intros Hse. unfold agent_run.
  repeat first
    [ solve [auto with keeps]
    | match goal with
      | |- keeps _ (update_step _ _) =>
          apply rows_kept_update_step; assumption
      | |- keeps _ (bind _ _) => apply keeps_bind; [| intros ?]
      | |- keeps _ (if ?b then _ else _) => destruct b
      end ].
Qed.

End EarlierRows.

Ltac keep_rows_step :=
  first
    [ solve [auto with keeps]
    | match goal with
      | |- keeps _ (update_step _ _) =>
          apply rows_kept_update_step; assumption
      | |- keeps _ (agent_run _ _ _ _ _ _ _) =>
          apply rows_kept_agent_run; assumption
      | |- keeps _ (bind (create_step_execution _ _ _ _ _ _) _) =>
          apply rows_kept_created; intros ? ?
      | |- keeps _ (attempt _) => apply keeps_attempt
      | |- keeps _ (bind _ _) => apply keeps_bind; [| intros ?]
      | |- keeps _ (match ?x with _ => _ end) => destruct x
      | |- keeps _ (if ?b then _ else _) => destruct b
      end
    | progress cbv beta zeta ].

Ltac keep_rows := repeat keep_rows_step.

#[export] Hint Resolve rows_kept_now rows_kept_call rows_kept_commit
  rows_kept_update_task rows_kept_update_execution rows_kept_add_task
  rows_kept_add_execution : keeps.

Section EarlierRowsOfARun.

Variable E : capabilities.
Variable tenant_id : nat.
Variable base : list step_row.
Hypothesis base_ids : Forall (fun r => se_id r < List.length base) base.

Lemma rows_kept_agent_step (fuel : nat) :
  forall execution step context,
    keeps (rows_kept base)
          (_execute_agent_step E tenant_id fuel execution step context).
Proof.
  induction fuel as [|fuel IH]; intros execution step context; simpl;
    keep_rows.
Qed.

Lemma rows_kept_mcp_tool_step (fuel : nat) :
  forall execution step context,
    keeps (rows_kept base)
          (_execute_mcp_tool_step E fuel execution step context).
Proof.
  induction fuel as [|fuel IH]; intros execution step context; simpl;
    keep_rows.
Qed.

Lemma rows_kept_http_step execution step context :
  keeps (rows_kept base) (_execute_http_step E execution step context).
Proof. unfold _execute_http_step. keep_rows. Qed.

#[local] Hint Resolve rows_kept_agent_step rows_kept_mcp_tool_step
  rows_kept_http_step : keeps.

Lemma rows_kept_single_step fuel execution step context :
  keeps (rows_kept base)
        (_execute_single_step E tenant_id fuel execution step context).
Proof. unfold _execute_single_step. keep_rows. Qed.

#[local] Hint Resolve rows_kept_single_step : keeps.

Lemma rows_kept_run_tasks fuel execution items context :
  keeps (rows_kept base) (run_tasks E tenant_id fuel execution items context).
Proof. induction items as [|item items IH]; simpl; keep_rows. Qed.

#[local] Hint Resolve rows_kept_run_tasks : keeps.

Lemma rows_kept_parallel_step fuel execution step context :
  keeps (rows_kept base)
        (_execute_parallel_step E tenant_id fuel execution step context).
Proof. unfold _execute_parallel_step. keep_rows. Qed.

Lemma rows_kept_conditional_step fuel execution step context :
  keeps (rows_kept base)
        (_execute_conditional_step E tenant_id fuel execution step context).
Proof. unfold _execute_conditional_step. keep_rows. Qed.

#[local] Hint Resolve rows_kept_parallel_step rows_kept_conditional_step
  : keeps.

Lemma rows_kept_dispatch_step fuel execution step context :
  keeps (rows_kept base)
        (dispatch_step E tenant_id fuel execution step context).
Proof. unfold dispatch_step. keep_rows. Qed.

Lemma rows_kept_set_current_step execution name :
  keeps (rows_kept base) (set_current_step execution name).
Proof. unfold set_current_step. keep_rows. Qed.

#[local] Hint Resolve rows_kept_dispatch_step rows_kept_set_current_step
  : keeps.

Lemma rows_kept_execute_steps fuel execution :
  forall steps_ context,
    keeps (rows_kept base)
          (_execute_steps E tenant_id fuel execution steps_ context).
Proof.
  induction steps_ as [|step rest IH]; intros context; simpl; keep_rows.
Qed.

#[local] Hint Resolve rows_kept_execute_steps : keeps.

Lemma rows_kept_execute_workflow fuel workflow_id input_data context :
  keeps (rows_kept base)
        (execute_workflow E tenant_id fuel workflow_id input_data context).
Proof.
  intros w. unfold execute_workflow.
  destruct (find_workflow tenant_id workflow_id (session w)) as [workflow|];
    [|auto].
  destruct (negb (String.eqb (wf_status workflow) "active")); [auto|].
  match goal with
  | |- _ -> _ (snd (?m w)) =>
      assert (H : keeps (rows_kept base) m)
        by (unfold start_execution; keep_rows);
      exact (H w)
  end.
Qed.

End EarlierRowsOfARun.

(** X16.  A run never rewrites a step row that was there before it
    started: with identifiers as the session gives them, the step rows of
    the starting world are the first step rows of the final world,
    unchanged, for the step loop and for [execute_workflow] alike, whether
    they return or raise. *)
Theorem earlier_step_rows_untouched (E : capabilities)
  (tenant_id fuel execution workflow_id : nat) (steps_ : list value)
  (input_data : value) (context : dict) (given : option dict) (w : world) :
  step_ids_fresh (session w) ->
  let n := List.length (steps (session w)) in
  firstn n (steps (session
              (snd (_execute_steps E tenant_id fuel execution steps_ context w))))
  = steps (session w)
  /\ firstn n (steps (session
                 (snd (execute_workflow E tenant_id fuel workflow_id
                         input_data given w))))
     = steps (session w).
Proof.
  intros Hfresh n. split.
  - apply (rows_kept_execute_steps E tenant_id (steps (session w)) Hfresh).
    unfold rows_kept. apply firstn_all.
  - apply (rows_kept_execute_workflow E tenant_id (steps (session w)) Hfresh).
    unfold rows_kept. apply firstn_all.
Qed.

(** A second run, from the world a first run has left. *)
Lemma earlier_step_rows_untouched_witness :
  let w := snd (execute_workflow Sample.answering Sample.tenant 1 0
                  (VDict [("x", VStr "go?")]) None
                  (Sample.world_of [VDict (Sample.agent_step "A" 0)] [])) in
  List.length (steps (session w)) = 1
  /\ firstn 1 (steps (session
                 (snd (execute_workflow Sample.failing Sample.tenant 1 0
                         (VDict [("x", VStr "again")]) None w))))
     = steps (session w).
Proof.
  intros w.
  assert (Hfresh : step_ids_fresh (session w))
    by (vm_compute; repeat constructor).
  split; [reflexivity|].
  exact (proj2 (earlier_step_rows_untouched Sample.failing Sample.tenant 1 0 0
                  [] (VDict [("x", VStr "again")]) [] None w Hfresh)).
Defined.

(** *** Step rows and the clock *)

Lemma row_timely_later (a b : Z) (r : step_row) :
  (a <= b)%Z -> row_timely a r -> row_timely b r.
Proof.
  intros Hab (Hs & Hc & Hd). repeat split; auto; try lia.
  - now apply Hc.
  - specialize (Hc c H). lia.
Qed.

Lemma duration_nonnegative (completed_at started_at : Z) :
  (started_at <= completed_at)%Z -> (0 <= duration completed_at started_at)%Z.
Proof. intros H. unfold duration. apply Z.quot_pos; lia. Qed.

Lemma Forall_updated {A} (P Q : A -> Prop) (c : A -> bool) (f : A -> A)
  (l : list A) :
  (forall a, P a -> Q a) -> (forall a, P a -> Q (f a)) ->
  Forall P l -> Forall Q (map (fun a => if c a then f a else a) l).
Proof.
  intros Hkeep Hf. induction 1 as [|a l Ha _ IH]; simpl; constructor; auto.
  destruct (c a); auto.
Qed.

Section Timeliness.

Variable E : capabilities.
Variable tenant_id : nat.
Hypothesis clock_monotone : monotone (clock E).

Lemma timely_same {A} (m : M A) :
  (forall w, steps (session (snd (m w))) = steps (session w)
             /\ ticks (snd (m w)) = ticks w) ->
  keeps (timely E) m.
Proof.
  intros H w Hw. unfold timely in *. destruct (H w) as [-> ->]. exact Hw.
Qed.

Lemma timely_call {A} (f : nat -> result A) : keeps (timely E) (call f).
Proof. now apply timely_same. Qed.

Lemma timely_commit : keeps (timely E) commit.
Proof. now apply timely_same. Qed.

Lemma timely_update_task id f : keeps (timely E) (update_task id f).
Proof. now apply timely_same. Qed.

Lemma timely_update_execution id f : keeps (timely E) (update_execution id f).
Proof. now apply timely_same. Qed.

Lemma timely_add_task execution agent instruction context priority :
  keeps (timely E) (add_task execution agent instruction context priority).
Proof. now apply timely_same. Qed.

Lemma timely_add_execution tenant workflow input context started_at :
  keeps (timely E) (add_execution tenant workflow input context started_at).
Proof. now apply timely_same. Qed.

Lemma timely_now : keeps (timely E) (now E).
Proof.
  intros w Hw. unfold timely in *. simpl.
  eapply Forall_impl; [|exact Hw]. intros r.
  apply row_timely_later. apply clock_monotone. lia.
Qed.

Lemma timely_retried (se : nat) : keeps (timely E) (update_step se step_retried).
Proof.
  intros w Hw. unfold timely in *. simpl.
  eapply Forall_updated; [| |exact Hw]; auto.
Qed.

Lemma timely_stamped {A} (se : nat) (f : Z -> step_row -> step_row)
  (k : Z -> unit -> M A) :
  (forall t r, se_started_at (f t r) = se_started_at r
               /\ se_completed_at (f t r) = Some t
               /\ se_duration_seconds (f t r)
                  = Some (duration t (se_started_at r))) ->
  (forall t u, keeps (timely E) (k t u)) ->
  keeps (timely E)
        (bind (now E) (fun t => bind (update_step se (f t)) (k t))).
Proof.
  intros Hf Hk w Hw.
  rewrite (bind_run (now E) _ w _ _ eq_refl).
  rewrite (bind_run (update_step se _) _ _ _ _ eq_refl).
  apply Hk. unfold timely in *. simpl.
  assert (Hnext : (clock E (ticks w) <= clock E (S (ticks w)))%Z)
    by (apply clock_monotone; lia).
  eapply Forall_updated; [| |exact Hw].
  - intros r. now apply row_timely_later.
  - intros r (Hs & _ & _). destruct (Hf (clock E (ticks w)) r) as (Hst & Hc & Hd).
    repeat split; rewrite ?Hst.
    + lia.
    + rewrite Hc in H. injection H as <-. exact Hs.
    + rewrite Hc in H. injection H as <-. exact Hnext.
    + intros d Hd'. rewrite Hd in Hd'. injection Hd' as <-.
      now apply duration_nonnegative.
Qed.

Lemma timely_completed {A} (se : nat) (output : value) (k : Z -> unit -> M A) :
  (forall t u, keeps (timely E) (k t u)) ->
  keeps (timely E)
        (bind (now E)
              (fun t => bind (update_step se (step_completed output t)) (k t))).
Proof.
  apply (timely_stamped se (step_completed output)). intros t r. now simpl.
Qed.

Lemma timely_failed {A} (se : nat) (e : exn) (k : Z -> unit -> M A) :
  (forall t u, keeps (timely E) (k t u)) ->
  keeps (timely E)
        (bind (now E)
              (fun t => bind (update_step se (step_failed e t)) (k t))).
Proof.
  apply (timely_stamped se (step_failed e)). intros t r. now simpl.
Qed.

Lemma timely_created execution name type agent input :
  keeps (timely E) (create_step_execution E execution name type agent input).
Proof.
  intros w Hw.
  destruct (create_step_execution_runs E execution name type agent input w)
    as (w1 & Hrun & Hsteps & _ & _ & _ & _ & Hticks & _).
  rewrite Hrun. cbn [snd]. unfold timely in *. rewrite Hsteps, Hticks.
  assert (Hnext : (clock E (ticks w) <= clock E (S (ticks w)))%Z)
    by (apply clock_monotone; lia).
  apply Forall_app. split.
  - eapply Forall_impl; [|exact Hw]. intros r. now apply row_timely_later.
  - repeat constructor; simpl; try discriminate. exact Hnext.
Qed.

End Timeliness.

#[export] Hint Resolve timely_call timely_commit timely_update_task
  timely_update_execution timely_add_task timely_add_execution timely_now
  timely_retried timely_created : keeps.

Ltac keep_time_step :=
  first
    [ solve [auto with keeps]
    | match goal with
      | |- keeps _ (bind (now _)
                         (fun t => bind (update_step _ (step_completed _ t)) _)) =>
          apply timely_completed; [assumption | intros ? ?]
      | |- keeps _ (bind (now _)
                         (fun t => bind (update_step _ (step_failed _ t)) _)) =>
          apply timely_failed; [assumption | intros ? ?]
      | |- keeps _ (attempt _) => apply keeps_attempt
      | |- keeps _ (bind _ _) => apply keeps_bind; [| intros ?]
      | |- keeps _ (match ?x with _ => _ end) => destruct x
      | |- keeps _ (if ?b then _ else _) => destruct b
      end
    | progress cbv beta zeta ].

Ltac keep_time := repeat keep_time_step.

Section TimelinessOfARun.

Variable E : capabilities.
Variable tenant_id : nat.
Hypothesis clock_monotone : monotone (clock E).

Lemma timely_agent_run se task agent_id step instruction context :
  keeps (timely E) (agent_run E se task agent_id step instruction context).
Proof. unfold agent_run. keep_time. Qed.

#[local] Hint Resolve timely_agent_run : keeps.

Lemma timely_agent_step (fuel : nat) :
  forall execution step context,
    keeps (timely E)
          (_execute_agent_step E tenant_id fuel execution step context).
Proof.
  induction fuel as [|fuel IH]; intros execution step context; simpl;
    keep_time.
Qed.

Lemma timely_mcp_tool_step (fuel : nat) :
  forall execution step context,
    keeps (timely E) (_execute_mcp_tool_step E fuel execution step context).
Proof.
  induction fuel as [|fuel IH]; intros execution step context; simpl;
    keep_time.
Qed.

Lemma timely_http_step execution step context :
  keeps (timely E) (_execute_http_step E execution step context).
Proof. unfold _execute_http_step. keep_time. Qed.

#[local] Hint Resolve timely_agent_step timely_mcp_tool_step timely_http_step
  : keeps.

Lemma timely_single_step fuel execution step context :
  keeps (timely E)
        (_execute_single_step E tenant_id fuel execution step context).
Proof. unfold _execute_single_step. keep_time. Qed.

#[local] Hint Resolve timely_single_step : keeps.

Lemma timely_run_tasks fuel execution items context :
  keeps (timely E) (run_tasks E tenant_id fuel execution items context).
Proof. induction items as [|item items IH]; simpl; keep_time. Qed.

#[local] Hint Resolve timely_run_tasks : keeps.

Lemma timely_parallel_step fuel execution step context :
  keeps (timely E)
        (_execute_parallel_step E tenant_id fuel execution step context).
Proof. unfold _execute_parallel_step. keep_time. Qed.

Lemma timely_conditional_step fuel execution step context :
  keeps (timely E)
        (_execute_conditional_step E tenant_id fuel execution step context).
Proof. unfold _execute_conditional_step. keep_time. Qed.

#[local] Hint Resolve timely_parallel_step timely_conditional_step : keeps.

Lemma timely_dispatch_step fuel execution step context :
  keeps (timely E) (dispatch_step E tenant_id fuel execution step context).
Proof. unfold dispatch_step. keep_time. Qed.

Lemma timely_set_current_step execution name :
  keeps (timely E) (set_current_step execution name).
Proof. unfold set_current_step. keep_time. Qed.

#[local] Hint Resolve timely_dispatch_step timely_set_current_step : keeps.

Lemma timely_execute_steps fuel execution :
  forall steps_ context,
    keeps (timely E) (_execute_steps E tenant_id fuel execution steps_ context).
Proof.
  induction steps_ as [|step rest IH]; intros context; simpl; keep_time.
Qed.

#[local] Hint Resolve timely_execute_steps : keeps.

(** X17.  With a clock that never runs backwards, the times of the step
    rows stay consistent along a run of [execute_workflow], whether it
    returns or raises: no row has started after the current time, a row
    that has a completion time was completed at or after its start and not
    in the future, and no duration is negative. *)
Theorem step_rows_stay_timely (fuel workflow_id : nat) (input_data : value)
  (context : option dict) (w : world) :
  timely E w ->
  timely E (snd (execute_workflow E tenant_id fuel workflow_id input_data
                   context w)).
Proof.
  revert w. change (keeps (timely E)
                      (execute_workflow E tenant_id fuel workflow_id input_data
                         context)).
  intros w. unfold execute_workflow.
  destruct (find_workflow tenant_id workflow_id (session w)) as [workflow|];
    [|auto].
  destruct (negb (String.eqb (wf_status workflow) "active")); [auto|].
  match goal with
  | |- _ -> _ (snd (?m w)) =>
      assert (H : keeps (timely E) m)
        by (unfold start_execution; keep_time);
      exact (H w)
  end.
Qed.

End TimelinessOfARun.

Lemma step_rows_stay_timely_witness :
  timely Sample.failing
    (snd (execute_workflow Sample.failing Sample.tenant 3 0
            (VDict [("x", VStr "go?")]) None
            (Sample.world_of [VDict (Sample.agent_step "A" 2)] []))).
Proof.
  apply (step_rows_stay_timely Sample.failing Sample.tenant).
  - intros a b Hab. simpl. lia.
  - constructor.
Defined.

(** *** Nothing is left uncommitted *)

Lemma clean_same_tables {A} (m : M A) :
  (forall w, session (snd (m w)) = session w
             /\ database (snd (m w)) = database w) ->
  keeps clean m.
Proof.
  intros H w Hw. unfold clean in *. destruct (H w) as [-> ->]. exact Hw.
Qed.

Lemma clean_now (E : capabilities) : keeps clean (now E).
Proof. now apply clean_same_tables. Qed.

Lemma clean_call {A} (f : nat -> result A) : keeps clean (call f).
Proof. now apply clean_same_tables. Qed.

Lemma commits_commit : commits commit.
Proof. intros w. reflexivity. Qed.

Lemma commits_keeps {A} (m : M A) : commits m -> keeps clean m.
Proof. intros H w _. apply H. Qed.

Lemma commits_attempt {A} (m : M A) : commits m -> commits (attempt m).
Proof.
  intros H w. specialize (H w). unfold attempt.
  now destruct (m w) as [r w1].
Qed.

Lemma commits_bind_first {A B} (m : M A) (k : A -> M B) :
  commits m -> (forall a, keeps clean (k a)) -> commits (bind m k).
Proof.
  intros Hm Hk w. specialize (Hm w). unfold bind.
  destruct (m w) as [[a|e] w1]; cbn [snd] in *; [now apply Hk | exact Hm].
Qed.

Lemma commits_bind_safe {A B} (m : M A) (k : A -> M B) :
  safe m -> (forall a, commits (k a)) -> commits (bind m k).
Proof.
  intros Hm Hk w. specialize (Hm w). unfold bind.
  destruct (m w) as [[a|e] w1]; cbn [fst is_ok] in *; [apply Hk | discriminate].
Qed.

Lemma safe_now (E : capabilities) : safe (now E).
Proof. intros w. reflexivity. Qed.

Lemma safe_update_step id f : safe (update_step id f).
Proof. intros w. reflexivity. Qed.

Lemma safe_update_task id f : safe (update_task id f).
Proof. intros w. reflexivity. Qed.

Lemma safe_update_execution id f : safe (update_execution id f).
Proof. intros w. reflexivity. Qed.

Lemma safe_add_step execution name type agent input started_at :
  safe (add_step execution name type agent input started_at).
Proof. intros w. reflexivity. Qed.

Lemma safe_add_task execution agent instruction context priority :
  safe (add_task execution agent instruction context priority).
Proof. intros w. reflexivity. Qed.

Lemma safe_add_execution tenant workflow input context started_at :
  safe (add_execution tenant workflow input context started_at).
Proof. intros w. reflexivity. Qed.

Create HintDb commits.
Create HintDb safe.

#[export] Hint Resolve clean_now clean_call : keeps.
#[export] Hint Resolve commits_commit : commits.
#[export] Hint Resolve safe_now safe_update_step safe_update_task
  safe_update_execution safe_add_step safe_add_task safe_add_execution : safe.

(** [settle] proves that a computation keeps the session committed,
    [flush] that it ends committed from any state: a write is followed,
    without a statement that may raise in between, by a commit. *)
Ltac settle :=
  cbv beta zeta;
  first
    [ solve [auto with keeps]
    | lazymatch goal with
      | |- keeps _ (attempt _) => apply keeps_attempt; settle
      | |- keeps _ (bind _ _) =>
          first [ apply keeps_bind; [solve [settle] | intros ?; settle]
                | apply commits_keeps; flush ]
      | |- keeps _ (match ?x with _ => _ end) => destruct x; settle
      | |- keeps _ (if ?b then _ else _) => destruct b; settle
      | |- keeps _ _ => apply commits_keeps; flush
      end ]
with flush :=
  cbv beta zeta;
  first
    [ solve [auto with commits]
    | lazymatch goal with
      | |- commits (attempt _) => apply commits_attempt; flush
      | |- commits (bind _ _) =>
          first [ apply commits_bind_first; [solve [flush] | intros ?; settle]
                | apply commits_bind_safe;
                  [solve [auto with safe] | intros ?; flush] ]
      | |- commits (match ?x with _ => _ end) => destruct x; flush
      | |- commits (if ?b then _ else _) => destruct b; flush
      end ].

Section Committed.

Variable E : capabilities.
Variable tenant_id : nat.

Lemma commits_create_step_execution execution name type agent input :
  commits (create_step_execution E execution name type agent input).
Proof. unfold create_step_execution. flush. Qed.

Lemma commits_agent_run se task agent_id step instruction context :
  commits (agent_run E se task agent_id step instruction context).
Proof. unfold agent_run. flush. Qed.

#[local] Hint Resolve commits_create_step_execution commits_agent_run
  : commits.

Lemma clean_agent_step (fuel : nat) :
  forall execution step context,
    keeps clean (_execute_agent_step E tenant_id fuel execution step context).
Proof.
  induction fuel as [|fuel IH]; intros execution step context; simpl; settle.
Qed.

Lemma clean_mcp_tool_step (fuel : nat) :
  forall execution step context,
    keeps clean (_execute_mcp_tool_step E fuel execution step context).
Proof.
  induction fuel as [|fuel IH]; intros execution step context; simpl; settle.
Qed.

Lemma clean_http_step execution step context :
  keeps clean (_execute_http_step E execution step context).
Proof. unfold _execute_http_step. settle. Qed.

#[local] Hint Resolve clean_agent_step clean_mcp_tool_step clean_http_step
  : keeps.

Lemma clean_single_step fuel execution step context :
  keeps clean (_execute_single_step E tenant_id fuel execution step context).
Proof. unfold _execute_single_step. settle. Qed.

#[local] Hint Resolve clean_single_step : keeps.

Lemma clean_run_tasks fuel execution items context :
  keeps clean (run_tasks E tenant_id fuel execution items context).
Proof. induction items as [|item items IH]; simpl; settle. Qed.

#[local] Hint Resolve clean_run_tasks : keeps.

Lemma clean_parallel_step fuel execution step context :
  keeps clean (_execute_parallel_step E tenant_id fuel execution step context).
Proof. unfold _execute_parallel_step. settle. Qed.

Lemma clean_conditional_step fuel execution step context :
  keeps clean
        (_execute_conditional_step E tenant_id fuel execution step context).
Proof. unfold _execute_conditional_step. settle. Qed.

#[local] Hint Resolve clean_parallel_step clean_conditional_step : keeps.

Lemma clean_dispatch_step fuel execution step context :
  keeps clean (dispatch_step E tenant_id fuel execution step context).
Proof. unfold dispatch_step. settle. Qed.

Lemma commits_set_current_step execution name :
  commits (set_current_step execution name).
Proof. unfold set_current_step. flush. Qed.

#[local] Hint Resolve clean_dispatch_step : keeps.
#[local] Hint Resolve commits_set_current_step : commits.

Lemma clean_execute_steps fuel execution :
  forall steps_ context,
    keeps clean (_execute_steps E tenant_id fuel execution steps_ context).
Proof.
  induction steps_ as [|step rest IH]; intros context; simpl; settle.
Qed.

(** X18.  An executor that awaits what it starts leaves no write
    uncommitted: started from a session that is committed, a step of type
    [agent], [mcp_tool], [http] or [conditional], a parallel step whose
    [wait_for] leads to [gather], and a step loop made of such steps, end
    with the database equal to the session, whether they return or
    raise. *)
Theorem steps_leave_nothing_uncommitted (fuel execution : nat) (step : dict)
  (steps_ : list value) (context : dict) (w : world) :
  database w = session w ->
  (awaits_its_tasks step = true ->
   let w' := snd (dispatch_step E tenant_id fuel execution step context w) in
   database w' = session w')
  /\ (all_await_their_tasks steps_ = true ->
      let w' := snd (_execute_steps E tenant_id fuel execution steps_ context w) in
      database w' = session w').
Proof.
  intros Hw. split; intros _.
  - now apply clean_dispatch_step.
  - now apply clean_execute_steps.
Qed.

End Committed.

Lemma steps_leave_nothing_uncommitted_witness :
  let w := Sample.world_of [] [Sample.execution_in "running"] in
  let w' := snd (dispatch_step Sample.failing Sample.tenant 2 0
                   (Sample.agent_step "A" 0)
                   [("input", VDict [("x", VStr "go?")])] w) in
  database w' = session w'.
Proof.
  exact (proj1 (steps_leave_nothing_uncommitted Sample.failing Sample.tenant 2 0
                  (Sample.agent_step "A" 0) []
                  [("input", VDict [("x", VStr "go?")])]
                  (Sample.world_of [] [Sample.execution_in "running"])
                  eq_refl) eq_refl).
Defined.

(* ================================================================== *)
(** ** The executors, one step at a time *)
(* ================================================================== *)

Lemma retry_refused (k : Z) :
  (k <= 0)%Z -> ordering (py_lt (VInt 0) (VInt k)) = Ok false.
Proof.
  intros Hk. unfold py_lt, as_number, ordering, Qle_bool. simpl.
  replace (k * 1 <=? 0)%Z with true by (symmetry; apply Z.leb_le; lia).
  reflexivity.
Qed.

Section Executors.

Variable E : capabilities.
Variable tenant_id : nat.

(** X19.  A tool step calls the tool with the resolved input and keeps one
    row, whose stored input is the unresolved one.  When the tool answers,
    the step returns the answer as it is and the row is completed with it;
    when the tool fails and no retry is allowed, the row is failed with the
    tool's error and that error is raised.  Either way the row is
    committed. *)
Theorem mcp_tool_step_outcome (fuel execution : nat) (step context : dict)
  (w : world) (raw tool : value) (server : string) :
  dict_find "server_id" step = Some raw ->
  uuid_of raw = Ok server ->
  dict_find "tool_name" step = Some tool ->
  step_ids_fresh (session w) ->
  let created :=
    running_row (List.length (steps (session w))) execution
      (dict_get_default step "name" (VStr "unnamed_step")) "mcp_tool" None
      (dict_get_default step "input" (VDict [])) (clock E (ticks w)) in
  let t := clock E (S (ticks w)) in
  match execute_tool E (calls w) server tool
          (resolve_vars E (dict_get_default step "input" (VDict [])) context)
  with
  | Ok res =>
      exists w',
        _execute_mcp_tool_step E (S fuel) execution step context w = (Ok res, w')
        /\ steps (session w') = steps (session w) ++ [step_completed res t created]
        /\ database w' = session w'
  | Raise e =>
      forall k,
        dict_get_default step "max_retries" (VInt 0) = VInt k ->
        (k <= 0)%Z ->
        exists w',
          _execute_mcp_tool_step E (S fuel) execution step context w
          = (Raise e, w')
          /\ steps (session w') = steps (session w) ++ [step_failed e t created]
          /\ database w' = session w'
  end.
Proof.
  intros Hserver Huuid Htool Hfresh created t. subst created t.
  revert Hfresh. open_world w. unfold step_ids_fresh.
  cbn [session steps ticks calls]. intros Hfresh.
  destruct (execute_tool E cl server tool
              (resolve_vars E (dict_get_default step "input" (VDict [])) context))
    as [res|e] eqn:Hrun.
  - cbn [_execute_mcp_tool_step]. unfold subscript.
    rewrite Hserver. run_engine. rewrite Huuid. run_engine.
    rewrite Htool. run_engine. rewrite Hrun. run_engine.
    rewrite update_last_row by (first [exact Hfresh | reflexivity]).
    eexists. split; [reflexivity|]. split; reflexivity.
  - intros k Hmax Hk.
    cbn [_execute_mcp_tool_step]. unfold subscript, may_retry, find_step.
    rewrite Hserver. run_engine. rewrite Huuid. run_engine.
    rewrite Htool. run_engine. rewrite Hrun. run_engine.
    rewrite update_last_row by (first [exact Hfresh | reflexivity]).
    rewrite find_last_row by (first [exact Hfresh | reflexivity]).
    rewrite Hmax. cbn [se_retry_count step_failed].
    rewrite (retry_refused k Hk). run_engine.
    eexists. split; [reflexivity|]. split; reflexivity.
Qed.

End Executors.

(** The tool runner of the samples is down, and the step allows no
    retry. *)
Lemma mcp_tool_step_outcome_witness :
  let step := [("type", VStr "mcp_tool"); ("name", VStr "search");
               ("server_id", VStr Sample.agent_uuid);
               ("tool_name", VStr "web_search");
               ("input", VDict [("query", VStr "{input.x}")])] in
  let w := Sample.world_of [] [Sample.execution_in "running"] in
  exists w',
    _execute_mcp_tool_step Sample.answering 1 0 step
      [("input", VDict [("x", VStr "go?")])] w
    = (Raise (CapabilityError "tool down"), w')
    /\ steps (session w')
       = [step_failed (CapabilityError "tool down") 1000000
            (running_row 0 0 (VStr "search") "mcp_tool" None
               (VDict [("query", VStr "{input.x}")]) 0)]
    /\ database w' = session w'.
Proof.
  intros step w.
  refine (mcp_tool_step_outcome Sample.answering 0 0 step
            [("input", VDict [("x", VStr "go?")])] w
            (VStr Sample.agent_uuid) (VStr "web_search") Sample.agent_key
            eq_refl eq_refl eq_refl _ 0%Z eq_refl _).
  - constructor.
  - lia.
Defined.

Section MoreExecutors.

Variable E : capabilities.
Variable tenant_id : nat.

(** X20.  An HTTP step sends one request, built from the resolved URL,
    headers and body, and keeps one row whose stored input is the step
    definition.  The answer completes the row and is returned; a failure
    fails the row and is raised at once: [max_retries] plays no part. *)
Theorem http_step_outcome (execution : nat) (step context : dict) (w : world)
  (url : string) :
  dict_get_default step "url" (VStr "") = VStr url ->
  step_ids_fresh (session w) ->
  let created :=
    running_row (List.length (steps (session w))) execution
      (dict_get_default step "name" (VStr "unnamed_step")) "http" None
      (VDict step) (clock E (ticks w)) in
  let t := clock E (S (ticks w)) in
  let outcome :=
    http_request E (calls w) (dict_get_default step "method" (VStr "GET"))
      (_resolve_template_string (py_repr E) url context)
      (resolve_vars E (dict_get_default step "headers" (VDict [])) context)
      (resolve_vars E (dict_get_default step "body" (VDict [])) context) in
  exists w',
    _execute_http_step E execution step context w = (outcome, w')
    /\ steps (session w')
       = steps (session w)
         ++ [match outcome with
             | Ok res => step_completed res t created
             | Raise e => step_failed e t created
             end]
    /\ calls w' = S (calls w)
    /\ database w' = session w'.
Proof.
  intros Hurl Hfresh created t outcome. subst created t outcome.
  revert Hfresh. open_world w. unfold step_ids_fresh.
  cbn [session steps ticks calls]. intros Hfresh.
  unfold _execute_http_step. rewrite Hurl. run_engine.
  destruct (http_request E cl (dict_get_default step "method" (VStr "GET"))
              (_resolve_template_string (py_repr E) url context)
              (resolve_vars E (dict_get_default step "headers" (VDict [])) context)
              (resolve_vars E (dict_get_default step "body" (VDict [])) context))
    as [res|e]; run_engine;
    rewrite update_last_row by (first [exact Hfresh | reflexivity]);
    eexists; (split; [reflexivity|]); repeat split.
Qed.

(** X21.  A conditional step whose condition cannot be evaluated runs no
    branch: the one row it has written is failed with the evaluator's
    error, and that error is raised. *)
Theorem conditional_step_condition_error (fuel execution : nat)
  (step context : dict) (w : world) (condition : string) (e : exn) :
  dict_get_default step "condition" (VStr "") = VStr condition ->
  _evaluate_condition condition context = Raise e ->
  step_ids_fresh (session w) ->
  let created :=
    running_row (List.length (steps (session w))) execution
      (dict_get_default step "name" (VStr "unnamed_step")) "conditional" None
      (VDict [("condition", VStr condition)]) (clock E (ticks w)) in
  exists w',
    _execute_conditional_step E tenant_id fuel execution step context w
    = (Raise e, w')
    /\ steps (session w')
       = steps (session w) ++ [step_failed e (clock E (S (ticks w))) created]
    /\ calls w' = calls w
    /\ database w' = session w'.
Proof.
  intros Hcond Heval Hfresh created. subst created.
  revert Hfresh. open_world w. unfold step_ids_fresh.
  cbn [session steps ticks calls]. intros Hfresh.
  unfold _execute_conditional_step. rewrite Hcond. run_engine.
  rewrite Heval. run_engine.
  rewrite update_last_row by (first [exact Hfresh | reflexivity]).
  eexists. split; [reflexivity|]. repeat split.
Qed.

(** X22.  An agent step whose agent is not an agent of the tenant ends in
    [UnboundLocalError]: the handler trips over the task that was never
    created, so the lookup error is lost, no task is written, and the row
    of the step stays [running], with no completion time and no error
    message. *)
Theorem agent_step_unknown_agent (fuel execution : nat) (step context : dict)
  (w : world) (raw : value) (a : string) :
  dict_find "agent_id" step = Some raw ->
  uuid_of raw = Ok a ->
  find_agent tenant_id a (session w) = None ->
  exists w',
    _execute_agent_step E tenant_id (S fuel) execution step context w
    = (Raise (UnboundLocalError "task"), w')
    /\ steps (session w')
       = steps (session w)
         ++ [running_row (List.length (steps (session w))) execution
               (dict_get_default step "name" (VStr "unnamed_step")) "agent"
               (Some a) (dict_get_default step "input" (VDict []))
               (clock E (ticks w))]
    /\ tasks (session w') = tasks (session w)
    /\ database w' = session w'.
Proof.
  intros Hid Huuid Hagent.
  revert Hagent. open_world w. unfold find_agent.
  cbn [session agents steps tasks ticks]. intros Hagent.
  cbn [_execute_agent_step]. unfold subscript, agent_prepare, find_agent.
  rewrite Hid. run_engine. rewrite Huuid. run_engine. rewrite Hagent.
  eexists. split; [reflexivity|]. repeat split.
Qed.

(** X23.  A step that lacks a key its executor subscripts, or whose UUID
    is malformed, fails before anything is written: the error is raised
    and the world is as it was, with no row for the step. *)
Theorem steps_missing_keys (fuel execution : nat) (step context : dict)
  (w : world) :
  (dict_find "agent_id" step = None ->
   _execute_agent_step E tenant_id (S fuel) execution step context w
   = (Raise (KeyError "agent_id"), w))
  /\ (dict_find "server_id" step = None ->
      _execute_mcp_tool_step E (S fuel) execution step context w
      = (Raise (KeyError "server_id"), w))
  /\ (forall raw server,
         dict_find "server_id" step = Some raw -> uuid_of raw = Ok server ->
         dict_find "tool_name" step = None ->
         _execute_mcp_tool_step E (S fuel) execution step context w
         = (Raise (KeyError "tool_name"), w))
  /\ (forall raw e,
         dict_find "agent_id" step = Some raw -> uuid_of raw = Raise e ->
         _execute_agent_step E tenant_id (S fuel) execution step context w
         = (Raise e, w)).
Proof.
  repeat split.
  - intros H. cbn [_execute_agent_step]. unfold subscript. rewrite H.
    reflexivity.
  - intros H. cbn [_execute_mcp_tool_step]. unfold subscript. rewrite H.
    reflexivity.
  - intros raw server H Hu Ht. cbn [_execute_mcp_tool_step]. unfold subscript.
    rewrite H. run_engine. rewrite Hu. run_engine. rewrite Ht. reflexivity.
  - intros raw e H Hu. cbn [_execute_agent_step]. unfold subscript.
    rewrite H. run_engine. rewrite Hu. reflexivity.
Qed.

End MoreExecutors.

(** An HTTP step that allows three retries, against a server that cannot
    be reached: one request, one failed row. *)
Lemma http_step_outcome_witness :
  let step := ("max_retries", VInt 3) :: Sample.http_step in
  let w := Sample.world_of [] [Sample.execution_in "running"] in
  exists w',
    _execute_http_step unreachable 0 step [("input", VDict [("x", VStr "a")])] w
    = (Raise (CapabilityError "connection refused"), w')
    /\ map se_status (steps (session w')) = ["failed"]
    /\ calls w' = 1.
Proof.
  intros step w.
  assert (Hfresh : step_ids_fresh (session w)) by constructor.
  destruct (http_step_outcome unreachable 0 step
              [("input", VDict [("x", VStr "a")])] w
              "http://example.test/{input.x}" eq_refl Hfresh)
    as (w' & Hrun & Hsteps & Hcalls & _).
  exists w'. split; [exact Hrun|]. split; [|exact Hcalls].
  rewrite Hsteps. reflexivity.
Defined.

(** A conditional step without a condition. *)
Lemma conditional_step_condition_error_witness :
  let step := [("type", VStr "conditional"); ("name", VStr "check");
               ("if_true", VDict Sample.http_step)] in
  let w := Sample.world_of [] [Sample.execution_in "running"] in
  exists w',
    _execute_conditional_step Sample.answering Sample.tenant 1 0 step [] w
    = (Raise (invalid_condition ""), w')
    /\ map se_status (steps (session w')) = ["failed"]
    /\ calls w' = 0.
Proof.
  intros step w.
  assert (Hfresh : step_ids_fresh (session w)) by constructor.
  destruct (conditional_step_condition_error Sample.answering Sample.tenant 1 0
              step [] w "" (invalid_condition "") eq_refl eq_refl Hfresh)
    as (w' & Hrun & Hsteps & Hcalls & _).
  exists w'. split; [exact Hrun|]. split; [|exact Hcalls].
  rewrite Hsteps. reflexivity.
Defined.

(** The agent of the samples, asked for by another tenant. *)
Lemma agent_step_unknown_agent_witness :
  let w := Sample.world_of [] [Sample.execution_in "running"] in
  exists w',
    _execute_agent_step Sample.answering 8 1 0 (Sample.agent_step "A" 0)
      [("input", VDict [("x", VStr "go?")])] w
    = (Raise (UnboundLocalError "task"), w')
    /\ map se_status (steps (session w')) = ["running"]
    /\ tasks (session w') = [].
Proof.
  intros w.
  destruct (agent_step_unknown_agent Sample.answering 8 0 0
              (Sample.agent_step "A" 0) [("input", VDict [("x", VStr "go?")])]
              w (VStr Sample.agent_uuid) Sample.agent_key eq_refl eq_refl eq_refl)
    as (w' & Hrun & Hsteps & Htasks & _).
  exists w'. split; [exact Hrun|]. split; [|exact Htasks].
  rewrite Hsteps. reflexivity.
Defined.

(** An agent step with nothing but its type. *)
Lemma steps_missing_keys_witness :
  let w := Sample.world_of [] [Sample.execution_in "running"] in
  _execute_agent_step Sample.answering Sample.tenant 1 0
    [("type", VStr "agent")] [] w
  = (Raise (KeyError "agent_id"), w).
Proof.
  exact (proj1 (steps_missing_keys Sample.answering Sample.tenant 0 0
                  [("type", VStr "agent")] []
                  (Sample.world_of [] [Sample.execution_in "running"]))
               eq_refl).
Defined.

(* ================================================================== *)
(** ** Parallel steps under the other waiting strategies *)
(* ================================================================== *)

Section ParallelOther.

Variable E : capabilities.
Variable tenant_id : nat.

(** The tasks of a parallel group never raise as a whole: each keeps its
    own outcome. *)
Lemma run_tasks_returns (fuel execution : nat) (items : list value)
  (context : dict) :
  forall w, exists outcomes w2,
    run_tasks E tenant_id fuel execution items context w = (Ok outcomes, w2)
    /\ List.length outcomes = List.length items.
Proof.
  induction items as [|item items IH]; intros w; cbn [run_tasks].
  - exists [], w. split; reflexivity.
  - unfold bind at 1, attempt.
    destruct (_execute_single_step E tenant_id fuel execution item context w)
      as [r w1].
    destruct (IH w1) as (outcomes & w2 & Hrun & Hlen).
    unfold bind at 1. rewrite Hrun.
    exists (r :: outcomes), w2. split; [reflexivity|]. simpl. now rewrite Hlen.
Qed.

Lemma combine_results_ok (results : list (result value)) :
  forall i k v,
    In (k, v) (combine_results i results) -> In (Ok v) results.
Proof.
  induction results as [|[x|e] results IH]; intros i k v Hin; simpl in *.
  - contradiction.
  - destruct Hin as [Heq | Hin]; [left; congruence | right; eauto].
  - right. eauto.
Qed.

(** X24.  A parallel step whose [wait_for] is a text other than [all],
    [any] and [count:N] waits for every sub-step and never fails on their
    account: the step is completed with the outputs of the sub-steps that
    succeeded, and the errors of the others are dropped. *)
Theorem parallel_step_other_wait_for (fuel execution : nat)
  (step context : dict) (w : world) (items : list value) (s : string) :
  dict_get_default step "steps" (VList []) = VList items ->
  dict_get_default step "wait_for" (VStr "all") = VStr s ->
  s <> "all" -> s <> "any" -> startswith "count:" s = false ->
  let se := List.length (steps (session w)) in
  let w1 := snd (create_step_execution E execution
                   (dict_get_default step "name" (VStr "unnamed_step"))
                   "parallel" None
                   (VDict [("parallel_steps", VList items);
                           ("wait_for", VStr s)]) w) in
  exists outcomes w2 w3,
    run_tasks E tenant_id fuel execution items context w1 = (Ok outcomes, w2)
    /\ List.length outcomes = List.length items
    /\ _execute_parallel_step E tenant_id fuel execution step context w
       = (Ok (VDict (combine_results 0 outcomes)), w3)
    /\ (forall k v, In (k, v) (combine_results 0 outcomes) ->
                    In (Ok v) outcomes)
    /\ (exists r, In r (steps (session w3)) /\ se_id r = se)
    /\ (forall r, In r (steps (session w3)) -> se_id r = se ->
                  se_status r = "completed"
                  /\ se_output_data r = VDict (combine_results 0 outcomes))
    /\ database w3 = session w3.
Proof.
  intros Hsteps Hwait Hall Hany Hcount se w1. subst se w1.
  destruct (create_step_execution_runs E execution
              (dict_get_default step "name" (VStr "unnamed_step"))
              "parallel" None
              (VDict [("parallel_steps", VList items); ("wait_for", VStr s)]) w)
    as (w1 & Hcreate & _).
  rewrite Hcreate. cbn [snd].
  destruct (run_tasks_returns fuel execution items context w1)
    as (outcomes & w2 & Hrun & Hlen).
  exists outcomes, w2.
  assert (Hrow : exists r0, In r0 (steps (session w2))
                            /\ se_id r0 = List.length (steps (session w))).
  { apply (created_row_survives E _ _ _ _ _ _ _ _ _ Hcreate).
    pose proof (frames_run_tasks E tenant_id fuel execution items context w1)
      as Hframe.
    now rewrite Hrun in Hframe. }
  destruct Hrow as (r0 & Hr0 & Hid0).
  apply String.eqb_neq in Hall. apply String.eqb_neq in Hany.
  unfold _execute_parallel_step. rewrite Hsteps, Hwait.
  unfold bind at 1. rewrite Hcreate.
  unfold attempt at 1, bind at 1, bind at 1, lift at 1, iterate.
  assert (Hhow : waiting_of (VStr s) = Ok Gather)
    by (unfold waiting_of, eq_str; now rewrite Hall, Hany, Hcount).
  rewrite Hhow. unfold bind at 1, lift at 1.
  unfold bind at 1. rewrite Hrun.
  cbn [await_tasks]. unfold bind at 1, lift at 1.
  unfold eq_str. rewrite Hall, andb_false_r.
  revert Hr0. open_world w2. intros Hr0. run_engine.
  eexists. split; [reflexivity|]. split; [exact Hlen|].
  split; [reflexivity|]. cbn [session steps] in *.
  split; [apply combine_results_ok|].
  split; [eexists; split; [apply (in_updated_row _ _ _ r0 Hr0 Hid0) | exact Hid0]|].
  split; [|reflexivity].
  intros r Hin Hid.
  apply in_updated_self in Hin as [r1 ->]; auto.
  all: try (intros []; reflexivity).
Qed.

(** X25.  A parallel step whose [wait_for] is not a text (a [null] in the
    stored definition, for instance) fails on [wait_for.startswith] without
    awaiting any of the tasks it has created: whatever its sub-steps are,
    the error raised is that [AttributeError], and the row of the step is
    failed with it. *)
Theorem parallel_step_wait_for_not_text (fuel execution : nat)
  (step context : dict) (w : world) (items : list value) (wait_for : value) :
  dict_get_default step "steps" (VList []) = VList items ->
  dict_get_default step "wait_for" (VStr "all") = wait_for ->
  is_text wait_for = false ->
  let se := List.length (steps (session w)) in
  exists w3,
    _execute_parallel_step E tenant_id fuel execution step context w
    = (Raise (AttributeError "startswith"), w3)
    /\ (exists r, In r (steps (session w3)) /\ se_id r = se)
    /\ (forall r, In r (steps (session w3)) -> se_id r = se ->
                  se_status r = "failed"
                  /\ se_error_message r = Some (AttributeError "startswith")).
Proof.
  intros Hsteps Hwait Htext se. subst se.
  destruct (create_step_execution_runs E execution
              (dict_get_default step "name" (VStr "unnamed_step"))
              "parallel" None
              (VDict [("parallel_steps", VList items); ("wait_for", wait_for)]) w)
    as (w1 & Hcreate & Hrows & _).
  assert (Hhow : waiting_of wait_for = Raise (AttributeError "startswith"))
    by (destruct wait_for; try reflexivity; discriminate).
  unfold _execute_parallel_step. rewrite Hsteps, Hwait.
  unfold bind at 1. rewrite Hcreate.
  unfold attempt at 1, bind at 1, bind at 1, lift at 1, iterate.
  rewrite Hhow. unfold lift at 1.
  revert Hrows. open_world w1. intros Hrows. run_engine.
  eexists. split; [reflexivity|]. cbn [session steps] in *.
  rewrite Hrows. split.
  - eexists. split.
    + apply in_updated_row with (r := running_row (List.length (steps (session w)))
                                        execution
                                        (dict_get_default step "name"
                                           (VStr "unnamed_step"))
                                        "parallel" None
                                        (VDict [("parallel_steps", VList items);
                                                ("wait_for", wait_for)])
                                        (clock E (ticks w))).
      * apply in_or_app. right. now left.
      * reflexivity.
    + reflexivity.
  - intros r Hin Hid.
    apply in_updated_self in Hin as [r1 ->]; auto.
    all: try (intros []; reflexivity).
Qed.

End ParallelOther.

(** A group of two sub-steps, an HTTP request that is answered and an
    agent step without its agent, waited for with a strategy the engine
    does not know. *)
Lemma parallel_step_other_wait_for_witness :
  let step := [("type", VStr "parallel"); ("name", VStr "fan_out");
               ("steps", VList [VDict Sample.http_step;
                                VDict [("type", VStr "agent")]]);
               ("wait_for", VStr "first")] in
  let w := Sample.world_of [] [Sample.execution_in "running"] in
  exists w3,
    _execute_parallel_step Sample.answering Sample.tenant 1 0 step [] w
    = (Ok (VDict [("step_0", VDict [("status", VInt 200)])]), w3).
Proof.
  intros step w.
  assert (Hall : "first" <> "all") by discriminate.
  assert (Hany : "first" <> "any") by discriminate.
  destruct (parallel_step_other_wait_for Sample.answering Sample.tenant 1 0
              step [] w
              [VDict Sample.http_step; VDict [("type", VStr "agent")]] "first"
              eq_refl eq_refl Hall Hany eq_refl)
    as (outcomes & w2 & w3 & Hrun & _ & Hpar & _).
  vm_compute in Hrun. injection Hrun as <- _.
  exists w3. exact Hpar.
Defined.

(** The same group with [wait_for] left [null]. *)
Lemma parallel_step_wait_for_not_text_witness :
  let step := [("type", VStr "parallel"); ("name", VStr "fan_out");
               ("steps", VList [VDict Sample.http_step;
                                VDict [("type", VStr "agent")]]);
               ("wait_for", VNone)] in
  let w := Sample.world_of [] [Sample.execution_in "running"] in
  exists w3,
    _execute_parallel_step Sample.answering Sample.tenant 1 0 step [] w
    = (Raise (AttributeError "startswith"), w3)
    /\ exists r, In r (steps (session w3)) /\ se_id r = 0
                 /\ se_status r = "failed".
Proof.
  intros step w.
  destruct (parallel_step_wait_for_not_text Sample.answering Sample.tenant 1 0
              step [] w
              [VDict Sample.http_step; VDict [("type", VStr "agent")]] VNone
              eq_refl eq_refl eq_refl)
    as (w3 & Hpar & (r & Hin & Hid) & Hrow).
  exists w3. split; [exact Hpar|].
  exists r. split; [exact Hin|]. split; [exact Hid|].
  exact (proj1 (Hrow r Hin Hid)).
Defined.

(* ================================================================== *)
(** ** Whole workflows *)
(* ================================================================== *)

Section WholeWorkflows.

Variable E : capabilities.
Variable tenant_id : nat.

(** X26.  A workflow whose first step has a type the engine does not know
    (or no type at all) fails on it: the execution is marked failed with
    the error that names the type, its current step is that step, and no
    step row or capability call has been made. *)
Theorem workflow_with_unknown_step_type (fuel workflow_id : nat)
  (input_data : value) (context : option dict) (w : world)
  (workflow : workflow_row) (d : dict) (rest : list value) :
  find_workflow tenant_id workflow_id (session w) = Some workflow ->
  wf_status workflow = "active" ->
  wf_steps workflow = VDict d :: rest ->
  (forall t, In t ["agent"; "mcp_tool"; "parallel"; "conditional"; "http"] ->
             eq_str (dict_get d "type") t = false) ->
  let e := ValueError ("Unknown step type: "
                         ++ py_str (py_repr E) (dict_get d "type"))%string in
  exists x w',
    execute_workflow E tenant_id fuel workflow_id input_data context w
    = (Raise e, w')
    /\ find (fun x => ex_id x =? List.length (executions (session w)))
            (executions (database w')) = Some x
    /\ ex_status x = "failed"
    /\ ex_error_message x = Some e
    /\ ex_current_step x = dict_get_default d "name" (VStr "unnamed_step")
    /\ steps (session w') = steps (session w)
    /\ calls w' = calls w.
Proof.
  intros Hwf Hactive Hsteps Htype e. subst e.
  unfold execute_workflow. rewrite Hwf, Hactive, Hsteps.
  cbn [String.eqb Ascii.eqb Bool.eqb negb].
  clear Hwf. open_world w. cbn [session executions steps calls].
  cbn [_execute_steps as_dict]. run_engine.
  unfold dispatch_step.
  rewrite !Htype by (simpl; tauto).
  run_engine.
  destruct (find_by_id (List.length exs)
              (exs ++ [ {| ex_id := List.length exs;
                           ex_tenant_id := tenant_id;
                           ex_workflow_id := workflow_id;
                           ex_input_data := input_data;
                           ex_context := match context with
                                         | Some c => c
                                         | None => []
                                         end;
                           ex_status := "running";
                           ex_current_step := VStr "";
                           ex_output_data := VNone;
                           ex_error_message := None;
                           ex_started_at := clock E tk;
                           ex_completed_at := None;
                           ex_duration_seconds := None |} ]))
    as [x Hx].
  { rewrite map_app, in_app_iff. right. simpl. now left. }
  eexists. eexists. split; [reflexivity|].
  cbn [database executions].
  split.
  - erewrite find_updated; [reflexivity | intros []; reflexivity |].
    erewrite find_updated; [reflexivity | intros []; reflexivity | exact Hx].
  - repeat split.
Qed.

End WholeWorkflows.

(** A workflow whose only step is of type [loop]. *)
Lemma workflow_with_unknown_step_type_witness :
  let d := [("type", VStr "loop"); ("name", VStr "again")] in
  let w := Sample.world_of [VDict d] [] in
  exists x w',
    execute_workflow Sample.answering Sample.tenant 1 0 (VDict []) None w
    = (Raise (ValueError "Unknown step type: loop"), w')
    /\ find (fun x => ex_id x =? 0) (executions (database w')) = Some x
    /\ ex_status x = "failed"
    /\ ex_current_step x = VStr "again"
    /\ steps (session w') = [].
Proof.
  intros d w.
  assert (Htype : forall t,
             In t ["agent"; "mcp_tool"; "parallel"; "conditional"; "http"] ->
             eq_str (dict_get d "type") t = false).
  { intros t [<- | [<- | [<- | [<- | [<- | []]]]]]; reflexivity. }
  destruct (workflow_with_unknown_step_type Sample.answering Sample.tenant 1 0
              (VDict []) None w
              {| wf_id := 0; wf_tenant_id := Sample.tenant; wf_deleted := false;
                 wf_status := "active"; wf_steps := [VDict d] |}
              d [] eq_refl eq_refl eq_refl Htype)
    as (x & w' & Hrun & Hfind & Hstatus & _ & Hcurrent & Hsteps & _).
  exists x, w'. repeat split; assumption.
Defined.

Lemma dict_find_absent (k : string) (d : dict) :
  ~ In k (map fst d) -> dict_find k d = None.
Proof.
  induction d as [|[k' v] d IH]; simpl; intros Hk; [reflexivity|].
  destruct (String.eqb k k') eqn:Hkk.
  - apply String.eqb_eq in Hkk. subst k'. tauto.
  - apply IH. tauto.
Qed.

Lemma fold_dict_set_lookup (c : dict) :
  forall (acc : dict) (k : string),
    NoDup (map fst c) ->
    dict_find k (fold_left (fun acc (kv : string * value) =>
                              dict_set (fst kv) (snd kv) acc) c acc)
    = match dict_find k c with
      | Some v => Some v
      | None => dict_find k acc
      end.
Proof.
  induction c as [|[k0 v0] c IH]; intros acc k Hnd; [reflexivity|].
  inversion Hnd as [|? ? Hk0 Hnd']; subst.
  cbn [fold_left fst snd]. rewrite IH by exact Hnd'.
  cbn [dict_find]. destruct (String.eqb k k0) eqn:Hk.
  - apply String.eqb_eq in Hk. subst k0.
    rewrite (dict_find_absent k c Hk0). apply dict_find_set_same.
  - apply String.eqb_neq in Hk.
    now rewrite (dict_find_set_other k0 k v0 acc Hk).
Qed.

Section EmptyWorkflow.

Variable E : capabilities.
Variable tenant_id : nat.

(** X27.  A workflow without steps completes at once, and its output is
    the initial context: the entries of the context the caller gave, and
    the input under [input] unless the caller's context has an entry of
    that name, which then takes its place. *)
Theorem empty_workflow_completes (fuel workflow_id : nat) (input_data : value)
  (context : option dict) (w : world) (workflow : workflow_row) :
  find_workflow tenant_id workflow_id (session w) = Some workflow ->
  wf_status workflow = "active" ->
  wf_steps workflow = [] ->
  NoDup (map fst (match context with Some c => c | None => [] end)) ->
  exists x w' output,
    execute_workflow E tenant_id fuel workflow_id input_data context w
    = (Ok x, w')
    /\ ex_status x = "completed"
    /\ ex_output_data x = VDict output
    /\ (forall k,
          dict_find k output
          = match dict_find k (match context with Some c => c | None => [] end) with
            | Some v => Some v
            | None => if String.eqb k "input" then Some input_data else None
            end)
    /\ steps (session w') = steps (session w).
Proof.
  intros Hwf Hactive Hsteps Hnd.
  unfold execute_workflow. rewrite Hwf, Hactive, Hsteps.
  cbn [String.eqb Ascii.eqb Bool.eqb negb].
  clear Hwf. open_world w. cbn [session executions steps ticks].
  cbn [_execute_steps]. run_engine.
  match goal with
  | |- context [find _ (map _ ?l)] =>
      destruct (find_by_id (List.length exs) l) as [x0 Hx0]
  end.
  { rewrite map_app, in_app_iff. right. simpl. now left. }
  erewrite find_updated; [| intros []; reflexivity | exact Hx0].
  eexists. eexists. exists (initial_context input_data context).
  split; [reflexivity|]. repeat split.
  intros k. unfold initial_context.
  rewrite fold_dict_set_lookup by exact Hnd. reflexivity.
Qed.

End EmptyWorkflow.

(** A workflow without steps, run with a context that has an entry named
    [input]. *)
Lemma empty_workflow_completes_witness :
  let w := Sample.world_of [] [] in
  exists x w' output,
    execute_workflow Sample.answering Sample.tenant 1 0 (VStr "given")
      (Some [("input", VStr "shadow"); ("user", VStr "u1")]) w
    = (Ok x, w')
    /\ ex_status x = "completed"
    /\ ex_output_data x = VDict output
    /\ dict_find "input" output = Some (VStr "shadow")
    /\ dict_find "user" output = Some (VStr "u1").
Proof.
  intros w.
  assert (Hnd : NoDup (map fst [("input", VStr "shadow"); ("user", VStr "u1")])).
  { repeat constructor; simpl; intuition discriminate. }
  destruct (empty_workflow_completes Sample.answering Sample.tenant 1 0
              (VStr "given")
              (Some [("input", VStr "shadow"); ("user", VStr "u1")]) w
              {| wf_id := 0; wf_tenant_id := Sample.tenant; wf_deleted := false;
                 wf_status := "active"; wf_steps := [] |}
              eq_refl eq_refl eq_refl Hnd)
    as (x & w' & output & Hrun & Hstatus & Hout & Hlaw & _).
  exists x, w', output. repeat split; try assumption.
  - now rewrite Hlaw.
  - now rewrite Hlaw.
Defined.

(* ================================================================== *)
(** ** Failures and branches *)
(* ================================================================== *)

Section FailuresAndBranches.

Variable E : capabilities.
Variable tenant_id : nat.

(** X28.  The retry of a tool step never runs out either.  With a tool
    that fails on every call and [max_retries] at least 1, each attempt
    writes a row of its own, fails it, raises its counter from 0 to 1 and
    calls the executor again; whatever depth of recursion the interpreter
    allows, the call ends in [RecursionError] with one failed row per
    level, each with [retry_count] 1. *)
Theorem tool_retries_never_exhaust (execution : nat) (step context : dict)
  (raw tool : value) (server : string) (k : Z) (err : exn) :
  dict_find "server_id" step = Some raw ->
  uuid_of raw = Ok server ->
  dict_find "tool_name" step = Some tool ->
  dict_find "max_retries" step = Some (VInt k) ->
  (1 <= k)%Z ->
  (forall n input, execute_tool E n server tool input = Raise err) ->
  forall (fuel : nat) (w : world),
    step_ids_fresh (session w) ->
    exists w' rows,
      _execute_mcp_tool_step E fuel execution step context w
      = (Raise RecursionError, w')
      /\ steps (session w') = steps (session w) ++ rows
      /\ List.length rows = fuel
      /\ Forall (fun r => se_status r = "failed" /\ se_retry_count r = 1%Z
                          /\ se_error_message r = Some err) rows.
Proof.
  intros Hserver Huuid Htool Hmax Hk Hfail.
  induction fuel as [|fuel IH]; intros w Hfresh.
  - exists w, []. simpl. rewrite app_nil_r. repeat split. constructor.
  - open_world w. unfold step_ids_fresh in *.
    cbn [session steps] in Hfresh.
    cbn [_execute_mcp_tool_step].
    unfold subscript, may_retry, find_step, dict_get_default.
    rewrite Hserver, Hmax. run_engine. rewrite Huuid. run_engine.
    rewrite Htool. run_engine. rewrite Hfail. run_engine.
    rewrite update_last_row by (first [exact Hfresh | reflexivity]).
    rewrite find_last_row by (first [exact Hfresh | reflexivity]).
    cbn [se_retry_count step_failed]. rewrite (retry_allowed k Hk).
    rewrite update_last_row by (first [exact Hfresh | reflexivity]).
    match goal with
    | |- context [_execute_mcp_tool_step E fuel execution step context ?w2] =>
        destruct (IH w2) as (w' & rows & Hrun & Hsteps & Hlen & Hall)
    end.
    { cbn [session steps]. now apply fresh_after_append. }
    cbn [session steps] in Hsteps.
    eexists w', (_ :: rows). rewrite Hrun.
    split; [reflexivity|]. split; [|split].
    + etransitivity; [exact Hsteps|].
      rewrite <- app_assoc. reflexivity.
    + simpl. now rewrite Hlen.
    + constructor; [|exact Hall]. repeat split.
Qed.

(** X29.  An agent step whose runner fails, with no retry allowed: the
    task it created is failed with the runner's error, so is the row of
    the step, both are committed, and the runner's error is raised. *)
Theorem agent_step_failure_without_retry (fuel execution : nat)
  (step context : dict) (w : world) (raw : value) (a : string)
  (ag : agent_row) (d : dict) (e : exn) (k : Z) :
  dict_find "agent_id" step = Some raw ->
  uuid_of raw = Ok a ->
  find_agent tenant_id a (session w) = Some ag ->
  resolve_vars E (dict_get_default step "input" (VDict [])) context = VDict d ->
  execute_agent E (calls w) a (dict_get_default d "instruction" (VStr ""))
                (dict_get_default d "context" (VDict [])) = Raise e ->
  dict_get_default step "max_retries" (VInt 0) = VInt k ->
  (k <= 0)%Z ->
  step_ids_fresh (session w) ->
  let created :=
    running_row (List.length (steps (session w))) execution
      (dict_get_default step "name" (VStr "unnamed_step")) "agent" (Some a)
      (dict_get_default step "input" (VDict [])) (clock E (ticks w)) in
  exists w' task,
    _execute_agent_step E tenant_id (S fuel) execution step context w
    = (Raise e, w')
    /\ steps (session w')
       = steps (session w)
         ++ [step_failed e (clock E (4 + ticks w)) created]
    /\ nth_error (tasks (session w')) (List.length (tasks (session w)))
       = Some task
    /\ task_status task = "failed"
    /\ task_error_message task = Some e
    /\ task_workflow_execution_id task = execution
    /\ database w' = session w'.
Proof.
  intros Hid Huuid Hag Hin Hrun Hmax Hk Hfresh created. subst created.
  revert Hag Hrun Hfresh. open_world w. unfold find_agent, step_ids_fresh.
  cbn [session agents steps tasks ticks calls]. intros Hag Hrun Hfresh.
  cbn [_execute_agent_step].
  unfold subscript, agent_prepare, agent_run, may_retry, find_agent, find_step.
  rewrite Hid. run_engine. rewrite Huuid. run_engine.
  rewrite Hag, Hin. run_engine. rewrite Hrun. run_engine.
  rewrite update_last_row by (first [exact Hfresh | reflexivity]).
  rewrite find_last_row by (first [exact Hfresh | reflexivity]).
  rewrite Hmax. cbn [se_retry_count step_failed].
  rewrite (retry_refused k Hk). run_engine.
  eexists. eexists. split; [reflexivity|]. cbn [session steps tasks database].
  split; [reflexivity|]. split.
  - rewrite map_app. cbn [map task_id]. rewrite Nat.eqb_refl.
    rewrite nth_error_app2 by (rewrite length_map; lia).
    rewrite length_map, Nat.sub_diag. reflexivity.
  - repeat split.
Qed.

(** X30.  A conditional step whose condition evaluates to [b] and whose
    branch for [b] is present runs that branch as a single step.  When the
    branch returns, the step returns the condition result, the name of the
    branch and the result of the branch, and its row is completed with that
    output; when the branch raises, the row is failed with the error of the
    branch and the error is raised. *)
Theorem conditional_step_branch (fuel execution : nat) (step context : dict)
  (w : world) (condition : string) (b : bool) (branch : value) :
  dict_get_default step "condition" (VStr "") = VStr condition ->
  _evaluate_condition condition context = Ok b ->
  dict_get step (if b then "if_true" else "if_false") = branch ->
  truthy branch = true ->
  let se := List.length (steps (session w)) in
  let w1 := snd (create_step_execution E execution
                   (dict_get_default step "name" (VStr "unnamed_step"))
                   "conditional" None
                   (VDict [("condition", VStr condition)]) w) in
  let branch_name := if b then "true" else "false" in
  match _execute_single_step E tenant_id fuel execution branch context w1 with
  | (Ok res, _) =>
      let output := VDict [("condition_result", VBool b);
                           ("branch_taken", VStr branch_name);
                           ("result", res)] in
      exists w3,
        _execute_conditional_step E tenant_id fuel execution step context w
        = (Ok output, w3)
        /\ (exists r, In r (steps (session w3)) /\ se_id r = se)
        /\ (forall r, In r (steps (session w3)) -> se_id r = se ->
                      se_status r = "completed" /\ se_output_data r = output)
        /\ database w3 = session w3
  | (Raise e, _) =>
      exists w3,
        _execute_conditional_step E tenant_id fuel execution step context w
        = (Raise e, w3)
        /\ (exists r, In r (steps (session w3)) /\ se_id r = se)
        /\ (forall r, In r (steps (session w3)) -> se_id r = se ->
                      se_status r = "failed" /\ se_error_message r = Some e)
        /\ database w3 = session w3
  end.
Proof.
  intros Hcond Heval Hbranch Htruthy se w1 branch_name. subst se w1.
  destruct (create_step_execution_runs E execution
              (dict_get_default step "name" (VStr "unnamed_step"))
              "conditional" None (VDict [("condition", VStr condition)]) w)
    as (w1 & Hcreate & _).
  rewrite Hcreate. cbn [snd].
  destruct (_execute_single_step E tenant_id fuel execution branch context w1)
    as [[res|e] w2] eqn:Hrun.
  - assert (Hrow : exists r0, In r0 (steps (session w2))
                              /\ se_id r0 = List.length (steps (session w))).
    { apply (created_row_survives E _ _ _ _ _ _ _ _ _ Hcreate).
      pose proof (frames_single_step E tenant_id fuel execution branch context w1)
        as Hframe.
      now rewrite Hrun in Hframe. }
    destruct Hrow as (r0 & Hr0 & Hid0).
    unfold _execute_conditional_step. rewrite Hcond.
    unfold bind at 1. rewrite Hcreate.
    unfold attempt at 1, bind at 1, lift at 1. rewrite Heval.
    subst branch_name.
    destruct b; cbv beta iota in Hbranch; run_engine;
      rewrite Hbranch, Htruthy, Hrun;
      revert Hr0; open_world w2; intros Hr0; run_engine;
      (eexists; split; [reflexivity|]); cbn [session steps] in *;
      (split; [eexists; split;
                 [apply (in_updated_row _ _ _ r0 Hr0 Hid0) | exact Hid0]|]);
      (split; [|reflexivity]);
      intros r Hin Hid;
      apply in_updated_self in Hin as [r1 ->]; auto;
      try (intros []; reflexivity).
  - assert (Hrow : exists r0, In r0 (steps (session w2))
                              /\ se_id r0 = List.length (steps (session w))).
    { apply (created_row_survives E _ _ _ _ _ _ _ _ _ Hcreate).
      pose proof (frames_single_step E tenant_id fuel execution branch context w1)
        as Hframe.
      now rewrite Hrun in Hframe. }
    destruct Hrow as (r0 & Hr0 & Hid0).
    unfold _execute_conditional_step. rewrite Hcond.
    unfold bind at 1. rewrite Hcreate.
    unfold attempt at 1, bind at 1, lift at 1. rewrite Heval.
    subst branch_name.
    destruct b; cbv beta iota in Hbranch; run_engine;
      rewrite Hbranch, Htruthy, Hrun;
      revert Hr0; open_world w2; intros Hr0; run_engine;
      (eexists; split; [reflexivity|]); cbn [session steps] in *;
      (split; [eexists; split;
                 [apply (in_updated_row _ _ _ r0 Hr0 Hid0) | exact Hid0]|]);
      (split; [|reflexivity]);
      intros r Hin Hid;
      apply in_updated_self in Hin as [r1 ->]; auto;
      try (intros []; reflexivity).
Qed.

End FailuresAndBranches.

(** A tool step that allows two retries, with the tool runner of the
    samples, which is down: three levels of recursion, three rows. *)
Lemma tool_retries_never_exhaust_witness :
  let step := [("type", VStr "mcp_tool"); ("name", VStr "search");
               ("server_id", VStr Sample.agent_uuid);
               ("tool_name", VStr "web_search");
               ("max_retries", VInt 2)] in
  exists w' rows,
    _execute_mcp_tool_step Sample.answering 3 0 step [] (Sample.world_of [] [])
    = (Raise RecursionError, w')
    /\ steps (session w') = rows
    /\ List.length rows = 3
    /\ Forall (fun r => se_status r = "failed" /\ se_retry_count r = 1%Z
                        /\ se_error_message r = Some (CapabilityError "tool down"))
              rows.
Proof.
  intros step.
  apply (tool_retries_never_exhaust Sample.answering 0 step []
           (VStr Sample.agent_uuid) (VStr "web_search") Sample.agent_key 2
           (CapabilityError "tool down") eq_refl eq_refl eq_refl eq_refl).
  - lia.
  - reflexivity.
  - constructor.
Defined.

(** The sample agent step with no retry, and a runner that fails. *)
Lemma agent_step_failure_without_retry_witness :
  let w := Sample.world_of [] [Sample.execution_in "running"] in
  exists w' task,
    _execute_agent_step Sample.failing Sample.tenant 1 0
      (Sample.agent_step "A" 0) [("input", VDict [("x", VStr "go?")])] w
    = (Raise (CapabilityError "boom"), w')
    /\ map se_status (steps (session w')) = ["failed"]
    /\ nth_error (tasks (session w')) 0 = Some task
    /\ task_status task = "failed".
Proof.
  intros w.
  assert (Hfresh : step_ids_fresh (session w)) by constructor.
  assert (Hbudget : (0 <= 0)%Z) by lia.
  destruct (agent_step_failure_without_retry Sample.failing Sample.tenant 0 0
              (Sample.agent_step "A" 0) [("input", VDict [("x", VStr "go?")])]
              w (VStr Sample.agent_uuid) Sample.agent_key
              {| ag_id := Sample.agent_key; ag_tenant_id := Sample.tenant;
                 ag_deleted := false |}
              [("instruction", VStr "go?")] (CapabilityError "boom") 0
              eq_refl eq_refl eq_refl eq_refl eq_refl eq_refl Hbudget Hfresh)
    as (w' & task & Hrun & Hsteps & Htask & Hstatus & _).
  exists w', task. split; [exact Hrun|]. split; [|split; assumption].
  rewrite Hsteps. reflexivity.
Defined.

(** The sample conditional step with a score above its threshold: the
    branch is an HTTP step, which is answered. *)
Lemma conditional_step_branch_witness :
  let w := Sample.world_of [] [Sample.execution_in "running"] in
  exists w3,
    _execute_conditional_step Sample.answering Sample.tenant 1 0
      Sample.conditional_without_else
      [("input", VDict [("score", VFloat (9 # 10))])] w
    = (Ok (VDict [("condition_result", VBool true);
                  ("branch_taken", VStr "true");
                  ("result", VDict [("status", VInt 200)])]), w3).
Proof.
  intros w.
  pose proof (conditional_step_branch Sample.answering Sample.tenant 1 0
                Sample.conditional_without_else
                [("input", VDict [("score", VFloat (9 # 10))])] w
                "$.input.score > 0.8" true (VDict Sample.http_step)
                eq_refl eq_refl eq_refl eq_refl) as H.
  vm_compute in H. destruct H as (w3 & Hrun & _).
  exists w3. vm_compute. exact Hrun.
Defined.
